(** * Architecture construction in [hw2/cnn.py]

    A shallow embedding of the model-definition module [hw2/hw2/cnn.py]:
    the classes [ConvClassifier], [ResidualBlock],
    [ResidualBottleneckBlock], [ResNetClassifier] and [YourCodeNet].

    What is modelled, and how:
    - Python integers are [Z]; [int(a / b)] on integers is truncation
      toward zero ([Z.quot]) and raises [ZeroDivisionError] when [b = 0]
      (true division goes through a binary64 float, so this is exact as
      long as [|a| + |b| < 2^53], which covers every image size);
      [a % b] is [Z.modulo], whose result has the sign of the divisor as
      in Python.
    - Float-valued hyperparameters (dropout probability, negative slope)
      are only ever stored, never computed with; they are carried as [Q].
    - Keyword dictionaries are [gmap string _].
    - Layers of the framework are values of [nn_Module] that record the
      layer kind and its hyperparameters; arguments the source leaves out
      are filled with the framework's documented defaults.
    - The framework itself is a parameter ([Torch]): which layer
      descriptions its constructors accept, and how building a layer
      advances the global random generator.
    - Construction code runs in a state-and-exception monad over the
      generator state, so that exceptions of the source ([KeyError],
      [ValueError], [AssertionError], [ZeroDivisionError], ...) and the
      save/restore of the generator in [_n_features] are explicit. *)

From Stdlib Require Import ZArith QArith Lia.
From stdpp Require Import gmap strings list.

Local Open Scope string_scope.
Local Open Scope list_scope.
Local Open Scope Z_scope.

(** ** Layers of the framework *)

#[warnings="-register-all"]
Inductive nn_Module : Type :=
| Conv2d (in_channels out_channels kernel_size stride padding dilation : Z)
         (bias : bool)
| ReLU
| LeakyReLU (negative_slope : Q)
| MaxPool2d (kernel_size stride padding dilation : Z)
| AvgPool2d (kernel_size stride padding : Z)
| Linear (in_features out_features : Z)
| Dropout2d (p : Q)
| Dropout (p : Q)
| BatchNorm2d (num_features : Z)
| Sequential (modules : list nn_Module)
| ResidualBlock (main_path shortcut_path : nn_Module).

(** Framework defaults used where the source omits an argument. *)
Definition default_negative_slope : Q := 1 # 100.

(** ** Exceptions *)

Inductive exn : Type :=
| AssertionError
| ValueError (msg : string)
| KeyError (key : string)
| IndexError
| AttributeError (name : string)
| ZeroDivisionError
| TypeError (msg : string)
| TorchError (m : nn_Module).

Inductive result (A : Type) : Type :=
| Ok (a : A)
| Raise (e : exn).
Arguments Ok {A} a.
Arguments Raise {A} e.

(** ** The framework as a parameter *)

Class Torch : Type := {
  rng_state : Type;
  (** does the constructor of this layer return normally? *)
  accepts : nn_Module -> bool;
  (** effect of building the layer on the global generator *)
  reset_parameters : nn_Module -> rng_state -> rng_state
}.

(** ** State and exception monad *)

Definition M `{Torch} (A : Type) : Type := rng_state -> result A * rng_state.

Definition ret `{Torch} {A} (a : A) : M A := fun s => (Ok a, s).

Definition bind `{Torch} {A B} (m : M A) (f : A -> M B) : M B :=
  fun s => match m s with
           | (Ok a, s') => f a s'
           | (Raise e, s') => (Raise e, s')
           end.

Definition raise `{Torch} {A} (e : exn) : M A := fun s => (Raise e, s).

Declare Scope py_scope.
Delimit Scope py_scope with py.
Notation "x <- c1 ;; c2" := (bind c1 (fun x => c2))
  (at level 100, c1 at next level, right associativity) : py_scope.
Notation "c1 ;;; c2" := (bind c1 (fun _ => c2))
  (at level 100, right associativity) : py_scope.
Local Open Scope py_scope.

(** [nn.X(...)]: a call of a framework constructor. *)
Definition nn `{Torch} (m : nn_Module) : M nn_Module :=
  fun s => if accepts m then (Ok m, reset_parameters m s)
           else (Raise (TorchError m), s).

Definition get_rng_state `{Torch} : M rng_state := fun s => (Ok s, s).
Definition set_rng_state `{Torch} (r : rng_state) : M unit := fun _ => (Ok tt, r).

(** [try: body finally: fin] *)
Definition try_finally `{Torch} {A} (body : M A) (fin : M unit) : M A :=
  fun s => match body s with
           | (res, s') =>
               match fin s' with
               | (Ok _, s'') => (res, s'')
               | (Raise e, s'') => (Raise e, s'')
               end
           end.

(** ** Python primitives used by the source *)

Definition py_assert `{Torch} (b : bool) : M unit :=
  if b then ret tt else raise AssertionError.

(** truthiness of a list *)
Definition truthy {A} (l : list A) : bool :=
  match l with [] => false | _ => true end.

(** [d[k]] *)
Definition getitem `{Torch} {V} (d : gmap string V) (k : string) : M V :=
  match d !! k with
  | Some v => ret v
  | None => raise (KeyError k)
  end.

(** [k in d] *)
Definition contains {V} (k : string) (d : gmap string V) : bool :=
  match d !! k with Some _ => true | None => false end.

(** [a, b, c, = tuple(xs)] *)
Definition unpack3 `{Torch} (xs : list Z) : M (Z * Z * Z) :=
  match xs with
  | [a; b; c] => ret (a, b, c)
  | _ => raise (ValueError "unpack")
  end.

(** [l[i]] with Python's negative indices *)
Definition index `{Torch} {A} (l : list A) (i : Z) : M A :=
  let n := Z.of_nat (length l) in
  let j := if i <? 0 then i + n else i in
  if (j <? 0) || (n <=? j) then raise IndexError
  else match l !! Z.to_nat j with
       | Some x => ret x
       | None => raise IndexError
       end.

(** [l[i:j]] with Python's clamping *)
Definition clamp (n i : Z) : Z :=
  if i <? 0 then Z.max (i + n) 0 else Z.min i n.

Definition slice {A} (l : list A) (i j : Z) : list A :=
  let n := Z.of_nat (length l) in
  let a := clamp n i in
  let b := clamp n j in
  take (Z.to_nat (b - a)) (drop (Z.to_nat a) l).

(** [l[i:]] *)
Definition slice_from {A} (l : list A) (i : Z) : list A :=
  drop (Z.to_nat (clamp (Z.of_nat (length l)) i)) l.

(** [range(a, b)] and [range(b)] *)
Definition range (a b : Z) : list Z :=
  map (fun k => a + Z.of_nat k) (seq 0 (Z.to_nat (b - a))).

(** [[x] * n] *)
Definition repeat_list {A} (x : A) (n : Z) : list A := replicate (Z.to_nat n) x.

(** [int(a / b)] on integers *)
Definition int_truediv `{Torch} (a b : Z) : M Z :=
  if b =? 0 then raise ZeroDivisionError else ret (Z.quot a b).

(** [a % b] *)
Definition py_mod `{Torch} (a b : Z) : M Z :=
  if b =? 0 then raise ZeroDivisionError else ret (a mod b).

(** [for x in xs: body], threading the variables the body assigns. *)
Fixpoint for_each `{Torch} {A S} (xs : list A) (body : A -> S -> M S) (s : S)
  : M S :=
  match xs with
  | [] => ret s
  | x :: xs' => s' <- body x s ;; for_each xs' body s'
  end.

(** The same with [break]. *)
Inductive control (S : Type) : Type :=
| Next (s : S)
| Break (s : S).
Arguments Next {S} s.
Arguments Break {S} s.

Fixpoint for_each_break `{Torch} {A S} (xs : list A)
         (body : A -> S -> M (control S)) (s : S) : M S :=
  match xs with
  | [] => ret s
  | x :: xs' =>
      c <- body x s ;;
      match c with
      | Next s' => for_each_break xs' body s'
      | Break s' => ret s'
      end
  end.

(** ** Module-level tables

    [ACTIVATIONS = {"relu": nn.ReLU, "lrelu": nn.LeakyReLU}] and
    [POOLINGS = {"avg": nn.AvgPool2d, "max": nn.MaxPool2d}] map names to
    framework classes; the classes are called later with keyword
    arguments. *)

Inductive activation_class : Type := nn_ReLU | nn_LeakyReLU.
Inductive pooling_class : Type := nn_AvgPool2d | nn_MaxPool2d.

Definition ACTIVATIONS : gmap string activation_class :=
  <["relu" := nn_ReLU]> (<["lrelu" := nn_LeakyReLU]> ∅).

Definition POOLINGS : gmap string pooling_class :=
  <["avg" := nn_AvgPool2d]> (<["max" := nn_MaxPool2d]> ∅).

(** [cls()] and [cls(negative_slope=x)] *)
Definition call_activation `{Torch} (c : activation_class)
           (negative_slope : option Q) : M nn_Module :=
  match c, negative_slope with
  | nn_ReLU, None => nn ReLU
  | nn_ReLU, Some _ => raise (TypeError "negative_slope")
  | nn_LeakyReLU, None => nn (LeakyReLU default_negative_slope)
  | nn_LeakyReLU, Some x => nn (LeakyReLU x)
  end.

(** [cls(kernel_size=k, stride=s, padding=p)] with an optional
    [dilation=d] *)
Definition call_pooling `{Torch} (c : pooling_class)
           (k s p : Z) (dilation : option Z) : M nn_Module :=
  match c, dilation with
  | nn_MaxPool2d, Some d => nn (MaxPool2d k s p d)
  | nn_MaxPool2d, None => nn (MaxPool2d k s p 1)
  | nn_AvgPool2d, None => nn (AvgPool2d k s p)
  | nn_AvgPool2d, Some _ => raise (TypeError "dilation")
  end.

(** ** Shape arithmetic of the source

    [int(((size + 2*padding) - dilation*(kernel-1) - 1) / stride) + 1],
    the expression the source repeats for height and width after every
    convolution and pooling layer. *)

Definition out_size_value (size kernel stride padding dilation : Z) : Z :=
  Z.quot ((size + 2 * padding) - dilation * (kernel - 1) - 1) stride + 1.

Definition out_size `{Torch} (size kernel stride padding dilation : Z) : M Z :=
  q <- int_truediv ((size + 2 * padding) - dilation * (kernel - 1) - 1) stride ;;
  ret (q + 1).

(** Kernel, stride, padding and dilation as read from a parameter
    dictionary. *)
Record geometry : Type := {
  g_kernel : Z;
  g_stride : Z;
  g_padding : Z;
  g_dilation : Z
}.

(** Lines 86-89: only ["kernel_size"] is read unconditionally. *)
Definition read_conv_params `{Torch} (conv_params : gmap string Z) : M geometry :=
  conv_kernel <- getitem conv_params "kernel_size" ;;
  conv_stride <- (if negb (contains "stride" conv_params) then ret 1
                  else getitem conv_params "stride") ;;
  conv_padding <- (if negb (contains "padding" conv_params) then ret 0
                   else getitem conv_params "padding") ;;
  conv_dilation <- (if negb (contains "dilation" conv_params) then ret 1
                    else getitem conv_params "dilation") ;;
  ret {| g_kernel := conv_kernel; g_stride := conv_stride;
         g_padding := conv_padding; g_dilation := conv_dilation |}.

(** Lines 91-95 (and 359-362): the stride defaults to the kernel size. *)
Definition read_pooling_params `{Torch} (pooling_params : gmap string Z)
  : M geometry :=
  pool_kernel <- getitem pooling_params "kernel_size" ;;
  pool_stride <- (if negb (contains "stride" pooling_params)
                  then getitem pooling_params "kernel_size"
                  else getitem pooling_params "stride") ;;
  pool_padding <- (if negb (contains "padding" pooling_params) then ret 0
                   else getitem pooling_params "padding") ;;
  pool_dilation <- (if negb (contains "dilation" pooling_params) then ret 1
                    else getitem pooling_params "dilation") ;;
  ret {| g_kernel := pool_kernel; g_stride := pool_stride;
         g_padding := pool_padding; g_dilation := pool_dilation |}.

(** ** Objects *)

(** Constructor arguments of [ConvClassifier.__init__]; the source stores
    each of them in the attribute of the same name. *)
Record hparams : Type := {
  in_size : list Z;
  out_classes : Z;
  channels : list Z;
  pool_every : Z;
  hidden_dims : list Z;
  conv_params : gmap string Z;
  activation_type : string;
  activation_params : gmap string Q;
  pooling_type : string;
  pooling_params : gmap string Z
}.

(** The class of an instance decides which [_make_feature_extractor]
    runs. *)
Inductive class : Type :=
| ConvClassifier_class
| ResNetClassifier_class
| YourCodeNet_class.

(** An instance of [ConvClassifier] or of one of its subclasses.
    Attributes assigned only on some paths are optional; reading one that
    is not there raises [AttributeError].  [batchnorm] and [dropout] are
    the attributes [ResNetClassifier.__init__] sets; [dropout_module] is
    the attribute that [YourCodeNet.__init__] calls [dropout] and binds to
    a layer. *)
Record ConvClassifier : Type := {
  cls : class;
  hp : hparams;
  batchnorm : option bool;
  dropout : option Q;
  pools_num : option Z;
  features_num : option Z;
  feature_extractor : option nn_Module;
  classifier : option nn_Module;
  dropout_module : option nn_Module
}.

Definition set_pools_num (self : ConvClassifier) (v : Z) : ConvClassifier :=
  {| cls := cls self; hp := hp self; batchnorm := batchnorm self;
     dropout := dropout self; pools_num := Some v;
     features_num := features_num self;
     feature_extractor := feature_extractor self;
     classifier := classifier self; dropout_module := dropout_module self |}.

Definition set_features_num (self : ConvClassifier) (v : Z) : ConvClassifier :=
  {| cls := cls self; hp := hp self; batchnorm := batchnorm self;
     dropout := dropout self; pools_num := pools_num self;
     features_num := Some v;
     feature_extractor := feature_extractor self;
     classifier := classifier self; dropout_module := dropout_module self |}.

Definition set_feature_extractor (self : ConvClassifier) (v : nn_Module)
  : ConvClassifier :=
  {| cls := cls self; hp := hp self; batchnorm := batchnorm self;
     dropout := dropout self; pools_num := pools_num self;
     features_num := features_num self;
     feature_extractor := Some v;
     classifier := classifier self; dropout_module := dropout_module self |}.

Definition set_classifier (self : ConvClassifier) (v : nn_Module)
  : ConvClassifier :=
  {| cls := cls self; hp := hp self; batchnorm := batchnorm self;
     dropout := dropout self; pools_num := pools_num self;
     features_num := features_num self;
     feature_extractor := feature_extractor self;
     classifier := Some v; dropout_module := dropout_module self |}.

Definition set_dropout_module (self : ConvClassifier) (v : nn_Module)
  : ConvClassifier :=
  {| cls := cls self; hp := hp self; batchnorm := batchnorm self;
     dropout := dropout self; pools_num := pools_num self;
     features_num := features_num self;
     feature_extractor := feature_extractor self;
     classifier := classifier self; dropout_module := Some v |}.

(** [self.name] *)
Definition getattr `{Torch} {A} (name : string) (v : option A) : M A :=
  match v with
  | Some x => ret x
  | None => raise (AttributeError name)
  end.

(** ** [ConvClassifier._make_feature_extractor] *)

(** Variables assigned in the body of the loop at lines 98-121. *)
Record fe_locals : Type := {
  fl_self : ConvClassifier;
  fl_layers : list nn_Module;
  fl_in_h : Z;
  fl_in_w : Z
}.

(** Lines 107-110: the activation after a convolution.  The leaky variant
    reads ["negative_slope"] without testing for it. *)
Definition fe_activation `{Torch} (self : ConvClassifier)
           (layers : list nn_Module) : M (list nn_Module) :=
  if (activation_type (hp self) =? "relu")%string then
    c <- getitem ACTIVATIONS (activation_type (hp self)) ;;
    a <- call_activation c None ;;
    ret (layers ++ [a])
  else if (activation_type (hp self) =? "lrelu")%string then
    c <- getitem ACTIVATIONS (activation_type (hp self)) ;;
    slope <- getitem (activation_params (hp self)) "negative_slope" ;;
    a <- call_activation c (Some slope) ;;
    ret (layers ++ [a])
  else ret layers.

(** Lines 114-117 (and 377-380): the pooling layer; average pooling is
    built without a dilation. *)
Definition make_pooling `{Torch} (self : ConvClassifier) (pool : geometry)
           (layers : list nn_Module) : M (list nn_Module) :=
  if (pooling_type (hp self) =? "max")%string then
    c <- getitem POOLINGS (pooling_type (hp self)) ;;
    p <- call_pooling c (g_kernel pool) (g_stride pool) (g_padding pool)
                      (Some (g_dilation pool)) ;;
    ret (layers ++ [p])
  else if (pooling_type (hp self) =? "avg")%string then
    c <- getitem POOLINGS (pooling_type (hp self)) ;;
    p <- call_pooling c (g_kernel pool) (g_stride pool) (g_padding pool) None ;;
    ret (layers ++ [p])
  else ret layers.

(** Lines 99-121: one iteration. *)
Definition fe_body `{Torch} (conv pool : geometry) (filters_lst : list Z)
           (idx : Z) (st : fe_locals) : M fe_locals :=
  in_channels <- index filters_lst (idx - 1) ;;
  out_channels <- index filters_lst idx ;;
  c <- nn (Conv2d in_channels out_channels (g_kernel conv) (g_stride conv)
                  (g_padding conv) (g_dilation conv) true) ;;
  let layers := fl_layers st ++ [c] in
  in_h <- out_size (fl_in_h st) (g_kernel conv) (g_stride conv)
                   (g_padding conv) (g_dilation conv) ;;
  in_w <- out_size (fl_in_w st) (g_kernel conv) (g_stride conv)
                   (g_padding conv) (g_dilation conv) ;;
  layers <- fe_activation (fl_self st) layers ;;
  r <- py_mod idx (pool_every (hp (fl_self st))) ;;
  if r =? 0 then
    layers <- make_pooling (fl_self st) pool layers ;;
    in_h <- out_size in_h (g_kernel pool) (g_stride pool)
                     (g_padding pool) (g_dilation pool) ;;
    in_w <- out_size in_w (g_kernel pool) (g_stride pool)
                     (g_padding pool) (g_dilation pool) ;;
    n <- getattr "pools_num" (pools_num (fl_self st)) ;;
    ret {| fl_self := set_pools_num (fl_self st) (n + 1);
           fl_layers := layers; fl_in_h := in_h; fl_in_w := in_w |}
  else
    ret {| fl_self := fl_self st; fl_layers := layers;
           fl_in_h := in_h; fl_in_w := in_w |}.

(** Lines 68-126.  Returns the object with [pools_num] and [features_num]
    assigned, and the container. *)
Definition ConvClassifier_make_feature_extractor `{Torch}
           (self : ConvClassifier) : M (ConvClassifier * nn_Module) :=
  chw <- unpack3 (in_size (hp self)) ;;
  let '(in_channels, in_h, in_w) := chw in
  let self := set_pools_num self 0 in
  let self := set_features_num self 1 in
  let filters_lst := [in_channels] ++ channels (hp self) in
  conv <- read_conv_params (conv_params (hp self)) ;;
  pool <- read_pooling_params (pooling_params (hp self)) ;;
  st <- for_each (range 1 (Z.of_nat (length filters_lst)))
                 (fe_body conv pool filters_lst)
                 {| fl_self := self; fl_layers := [];
                    fl_in_h := in_h; fl_in_w := in_w |} ;;
  last_channels <- index (channels (hp (fl_self st))) (-1) ;;
  let self := set_features_num (fl_self st)
                               (last_channels * fl_in_h st * fl_in_w st) in
  ret (self, Sequential (fl_layers st)).

(** ** [ConvClassifier._n_features] (lines 128-140) *)

Definition _n_features `{Torch} (self : ConvClassifier) : M Z :=
  rng <- get_rng_state ;;
  try_finally (getattr "features_num" (features_num self))
              (set_rng_state rng).

(** ** [ConvClassifier._make_classifier] (lines 142-168) *)

Record cl_locals : Type := {
  cl_layers : list nn_Module;
  cl_input_dimension : Z
}.

(** Lines 155-161: the activation after a hidden linear layer; here an
    empty [activation_params] selects the default slope. *)
Definition guarded_activation `{Torch} (activation_type : string)
           (activation_params : gmap string Q) (layers : list nn_Module)
  : M (list nn_Module) :=
  if (activation_type =? "relu")%string then
    c <- getitem ACTIVATIONS activation_type ;;
    a <- call_activation c None ;;
    ret (layers ++ [a])
  else if (activation_type =? "lrelu")%string then
    if negb (bool_decide (activation_params = ∅)) then
      c <- getitem ACTIVATIONS activation_type ;;
      slope <- getitem activation_params "negative_slope" ;;
      a <- call_activation c (Some slope) ;;
      ret (layers ++ [a])
    else
      c <- getitem ACTIVATIONS activation_type ;;
      a <- call_activation c None ;;
      ret (layers ++ [a])
  else ret layers.

Definition cl_body `{Torch} (self : ConvClassifier) (hidden : Z)
           (st : cl_locals) : M cl_locals :=
  d <- index (hidden_dims (hp self)) hidden ;;
  l <- nn (Linear (cl_input_dimension st) d) ;;
  layers <- guarded_activation (activation_type (hp self))
                               (activation_params (hp self))
                               (cl_layers st ++ [l]) ;;
  d' <- index (hidden_dims (hp self)) hidden ;;
  ret {| cl_layers := layers; cl_input_dimension := d' |}.

Definition _make_classifier `{Torch} (self : ConvClassifier) : M nn_Module :=
  n_features <- _n_features self ;;
  st <- for_each (range 0 (Z.of_nat (length (hidden_dims (hp self)))))
                 (cl_body self)
                 {| cl_layers := []; cl_input_dimension := n_features |} ;;
  l <- nn (Linear (cl_input_dimension st) (out_classes (hp self))) ;;
  ret (Sequential (cl_layers st ++ [l])).

(** ** [ResidualBlock.__init__] (lines 213-265) *)

Record rb_locals : Type := {
  rb_main : list nn_Module;
  rb_tmp_in_channels : Z
}.

Definition rb_body `{Torch} (channels : list Z) (kernel_sizes : list Z)
           (batchnorm : bool) (dropout : Q) (activation_type : string)
           (activation_params : gmap string Q)
           (ich : Z * Z) (st : rb_locals) : M (control rb_locals) :=
  let '(i, ch) := ich in
  k <- index kernel_sizes i ;;
  k' <- index kernel_sizes i ;;
  pad <- int_truediv k' 2 ;;
  c <- nn (Conv2d (rb_tmp_in_channels st) ch k 1 pad 1 true) ;;
  let main := rb_main st ++ [c] in
  let tmp_in_channels := ch in
  if i =? Z.of_nat (length channels) - 1 then
    ret (Break {| rb_main := main; rb_tmp_in_channels := tmp_in_channels |})
  else
    d <- nn (Dropout2d dropout) ;;
    let main := main ++ [d] in
    main <- (if batchnorm then b <- nn (BatchNorm2d ch) ;; ret (main ++ [b])
             else ret main) ;;
    main <- guarded_activation activation_type activation_params main ;;
    ret (Next {| rb_main := main; rb_tmp_in_channels := tmp_in_channels |}).

(** [enumerate(xs)] *)
Definition enumerate {A} (xs : list A) : list (Z * A) :=
  zip (range 0 (Z.of_nat (length xs))) xs.

Definition ResidualBlock_init `{Torch} (in_channels : Z) (channels : list Z)
           (kernel_sizes : list Z) (batchnorm : bool) (dropout : Q)
           (activation_type : string) (activation_params : gmap string Q)
  : M nn_Module :=
  py_assert (truthy channels && truthy kernel_sizes) ;;;
  py_assert (Nat.eqb (length channels) (length kernel_sizes)) ;;;
  py_assert (forallb (fun x => x mod 2 =? 1) kernel_sizes) ;;;
  if negb (contains activation_type ACTIVATIONS) then
    raise (ValueError "Unsupported activation type")
  else
    st <- for_each_break (enumerate channels)
                         (rb_body channels kernel_sizes batchnorm dropout
                                  activation_type activation_params)
                         {| rb_main := []; rb_tmp_in_channels := in_channels |} ;;
    let main_path := Sequential (rb_main st) in
    if negb (rb_tmp_in_channels st =? in_channels) then
      c <- nn (Conv2d in_channels (rb_tmp_in_channels st) 1 1 0 1 false) ;;
      ret (ResidualBlock main_path (Sequential [c]))
    else
      ret (ResidualBlock main_path (Sequential [])).

(** ** [ResidualBottleneckBlock.__init__] (lines 301-314)

    The keyword arguments the source looks up in [kwargs]; any other key
    is ignored. *)
Record block_kwargs : Type := {
  kw_batchnorm : option bool;
  kw_dropout : option Q;
  kw_activation_type : option string;
  kw_activation_params : option (gmap string Q)
}.

Definition ResidualBottleneckBlock_init `{Torch} (in_out_channels : Z)
           (inner_channels : list Z) (inner_kernel_sizes : list Z)
           (kwargs : block_kwargs) : M nn_Module :=
  c0 <- index inner_channels 0 ;;
  let b_channels := [c0] ++ inner_channels ++ [in_out_channels] in
  let b_kernel_sizes := [1] ++ inner_kernel_sizes ++ [1] in
  let batchnorm := default false (kw_batchnorm kwargs) in
  let dropout := default (0 # 1) (kw_dropout kwargs) in
  let activation_type := default "relu" (kw_activation_type kwargs) in
  let activation_params := default ∅ (kw_activation_params kwargs) in
  ResidualBlock_init in_out_channels b_channels b_kernel_sizes batchnorm
                     dropout activation_type activation_params.

(** ** [ResNetClassifier._make_feature_extractor] (lines 340-393) *)

Record rn_locals : Type := {
  rn_self : ConvClassifier;
  rn_layers : list nn_Module;
  rn_in_h : Z;
  rn_in_w : Z;
  rn_curr_channels : Z
}.

Definition rn_body `{Torch} (pool : geometry) (idx : Z) (st : rn_locals)
  : M rn_locals :=
  let self := rn_self st in
  let start_index := pool_every (hp self) * idx in
  let end_index := pool_every (hp self) * (idx + 1) in
  bn <- getattr "batchnorm" (batchnorm self) ;;
  dp <- getattr "dropout" (dropout self) ;;
  b <- ResidualBlock_init (rn_curr_channels st)
                          (slice (channels (hp self)) start_index end_index)
                          (repeat_list 3 (pool_every (hp self)))
                          bn dp "relu" ∅ ;;
  let layers := rn_layers st ++ [b] in
  layers <- make_pooling self pool layers ;;
  in_h <- out_size (rn_in_h st) (g_kernel pool) (g_stride pool)
                   (g_padding pool) (g_dilation pool) ;;
  in_w <- out_size (rn_in_w st) (g_kernel pool) (g_stride pool)
                   (g_padding pool) (g_dilation pool) ;;
  n <- getattr "pools_num" (pools_num self) ;;
  let self := set_pools_num self (n + 1) in
  curr_channels <- index (channels (hp self)) (end_index - 1) ;;
  ret {| rn_self := self; rn_layers := layers; rn_in_h := in_h;
         rn_in_w := in_w; rn_curr_channels := curr_channels |}.

Definition ResNetClassifier_make_feature_extractor `{Torch}
           (self : ConvClassifier) : M (ConvClassifier * nn_Module) :=
  _ <- unpack3 (in_size (hp self)) ;;
  let self := set_pools_num self 0 in
  let self := set_features_num self 1 in
  chw <- unpack3 (in_size (hp self)) ;;
  let '(in_channels, in_h, in_w) := chw in
  pool <- read_pooling_params (pooling_params (hp self)) ;;
  let channels_length := Z.of_nat (length (channels (hp self))) in
  remainder <- py_mod channels_length (pool_every (hp self)) ;;
  let curr_channels := in_channels in
  blocks <- int_truediv channels_length (pool_every (hp self)) ;;
  st <- for_each (range 0 blocks) (rn_body pool)
                 {| rn_self := self; rn_layers := []; rn_in_h := in_h;
                    rn_in_w := in_w; rn_curr_channels := curr_channels |} ;;
  layers <- (if negb (remainder =? 0) then
               bn <- getattr "batchnorm" (batchnorm (rn_self st)) ;;
               dp <- getattr "dropout" (dropout (rn_self st)) ;;
               b <- ResidualBlock_init
                      (rn_curr_channels st)
                      (slice_from (channels (hp (rn_self st)))
                                  (channels_length - remainder))
                      (repeat_list 3 remainder) bn dp "relu" ∅ ;;
               ret (rn_layers st ++ [b])
             else ret (rn_layers st)) ;;
  last_channels <- index (channels (hp (rn_self st))) (-1) ;;
  let self := set_features_num (rn_self st)
                               (last_channels * rn_in_h st * rn_in_w st) in
  ret (self, Sequential layers).

(** ** [YourCodeNet._make_feature_extractor] (lines 417-462)

    The blocks are built with [batchnorm="true"], a non-empty string,
    which the block tests for truth. *)

Definition yc_body `{Torch} (last : Z) (idx : Z) (st : rn_locals)
  : M rn_locals :=
  let pool_kernel := 2 in
  let pool_stride := 2 in
  let pool_padding := 0 in
  let pool_dilation := 1 in
  let self := rn_self st in
  let start_index := pool_every (hp self) * idx in
  let end_index := pool_every (hp self) * (idx + 1) in
  b <- ResidualBlock_init (rn_curr_channels st)
                          (slice (channels (hp self)) start_index end_index)
                          (repeat_list 3 (pool_every (hp self)))
                          true (0 # 1) "relu" ∅ ;;
  let layers := rn_layers st ++ [b] in
  st' <- (if idx =? last - 1 then
            p <- nn (MaxPool2d pool_kernel pool_stride pool_padding
                               pool_dilation) ;;
            let layers := layers ++ [p] in
            d <- nn (Dropout2d (1 # 10)) ;;
            let layers := layers ++ [d] in
            n <- getattr "pools_num" (pools_num self) ;;
            let self := set_pools_num self (n + 1) in
            in_h <- out_size (rn_in_h st) pool_kernel pool_stride
                             pool_padding pool_dilation ;;
            in_w <- out_size (rn_in_w st) pool_kernel pool_stride
                             pool_padding pool_dilation ;;
            ret {| rn_self := self; rn_layers := layers; rn_in_h := in_h;
                   rn_in_w := in_w; rn_curr_channels := rn_curr_channels st |}
          else
            ret {| rn_self := self; rn_layers := layers;
                   rn_in_h := rn_in_h st; rn_in_w := rn_in_w st;
                   rn_curr_channels := rn_curr_channels st |}) ;;
  curr_channels <- index (channels (hp (rn_self st'))) (end_index - 1) ;;
  ret {| rn_self := rn_self st'; rn_layers := rn_layers st';
         rn_in_h := rn_in_h st'; rn_in_w := rn_in_w st';
         rn_curr_channels := curr_channels |}.

Definition YourCodeNet_make_feature_extractor `{Torch}
           (self : ConvClassifier) : M (ConvClassifier * nn_Module) :=
  _ <- unpack3 (in_size (hp self)) ;;
  let self := set_pools_num self 0 in
  let self := set_features_num self 1 in
  chw <- unpack3 (in_size (hp self)) ;;
  let '(in_channels, in_h, in_w) := chw in
  let channels_length := Z.of_nat (length (channels (hp self))) in
  remainder <- py_mod channels_length (pool_every (hp self)) ;;
  let curr_channels := in_channels in
  last <- int_truediv channels_length (pool_every (hp self)) ;;
  st <- for_each (range 0 last) (yc_body last)
                 {| rn_self := self; rn_layers := []; rn_in_h := in_h;
                    rn_in_w := in_w; rn_curr_channels := curr_channels |} ;;
  layers <- (if negb (remainder =? 0) then
               b <- ResidualBlock_init
                      (rn_curr_channels st)
                      (slice_from (channels (hp (rn_self st)))
                                  (channels_length - remainder))
                      (repeat_list 3 remainder) true (0 # 1) "relu" ∅ ;;
               ret (rn_layers st ++ [b])
             else ret (rn_layers st)) ;;
  last_channels <- index (channels (hp (rn_self st))) (-1) ;;
  let self := set_features_num (rn_self st)
                               (last_channels * rn_in_h st * rn_in_w st) in
  ret (self, Sequential layers).

(** ** Constructors *)

(** [self._make_feature_extractor()]: the method of the instance's class. *)
Definition _make_feature_extractor `{Torch} (self : ConvClassifier)
  : M (ConvClassifier * nn_Module) :=
  match cls self with
  | ConvClassifier_class => ConvClassifier_make_feature_extractor self
  | ResNetClassifier_class => ResNetClassifier_make_feature_extractor self
  | YourCodeNet_class => YourCodeNet_make_feature_extractor self
  end.

(** [ConvClassifier.__init__] (lines 47-65), run on an instance of class
    [c] on which a subclass may already have set [batchnorm] and
    [dropout]. *)
Definition ConvClassifier_init `{Torch} (c : class) (bn : option bool)
           (dp : option Q) (a : hparams) : M ConvClassifier :=
  py_assert (truthy (channels a) && truthy (hidden_dims a)) ;;;
  let self := {| cls := c; hp := a; batchnorm := bn; dropout := dp;
                 pools_num := None; features_num := None;
                 feature_extractor := None; classifier := None;
                 dropout_module := None |} in
  if negb (contains (activation_type a) ACTIVATIONS)
     || negb (contains (pooling_type a) POOLINGS) then
    raise (ValueError "Unsupported activation or pooling type")
  else
    sf <- _make_feature_extractor self ;;
    let self := set_feature_extractor (fst sf) (snd sf) in
    cl <- _make_classifier self ;;
    ret (set_classifier self cl).

(** [ConvClassifier(...)] *)
Definition new_ConvClassifier `{Torch} (a : hparams) : M ConvClassifier :=
  ConvClassifier_init ConvClassifier_class None None a.

(** [ResNetClassifier(...)] (lines 333-337) *)
Definition new_ResNetClassifier `{Torch} (a : hparams) (batchnorm : bool)
           (dropout : Q) : M ConvClassifier :=
  ConvClassifier_init ResNetClassifier_class (Some batchnorm) (Some dropout) a.

(** [YourCodeNet(...)] (lines 401-408) *)
Definition new_YourCodeNet `{Torch} (a : hparams) : M ConvClassifier :=
  self <- ConvClassifier_init YourCodeNet_class None None a ;;
  sf <- _make_feature_extractor self ;;
  let self := set_feature_extractor (fst sf) (snd sf) in
  cl <- _make_classifier self ;;
  let self := set_classifier self cl in
  d <- nn (Dropout (1 # 10)) ;;
  ret (set_dropout_module self d).

(** Default values of the keyword parameters of
    [ConvClassifier.__init__]. *)
Definition with_defaults (in_size : list Z) (out_classes : Z)
           (channels : list Z) (pool_every : Z) (hidden_dims : list Z)
  : hparams :=
  {| in_size := in_size; out_classes := out_classes; channels := channels;
     pool_every := pool_every; hidden_dims := hidden_dims;
     conv_params := ∅; activation_type := "relu"; activation_params := ∅;
     pooling_type := "max"; pooling_params := ∅ |}.

(** ** A reference framework instance

    A concrete framework to run the model on: constructors reject
    negative tensor dimensions (channel counts, kernel sizes and feature
    counts), and the generator state counts the layers built so far. *)

Definition reference_accepts (m : nn_Module) : bool :=
  match m with
  | Conv2d ic oc k _ _ _ _ => (0 <=? ic) && (0 <=? oc) && (0 <=? k)
  | Linear i o => (0 <=? i) && (0 <=? o)
  | BatchNorm2d n => 0 <=? n
  | _ => true
  end.

Definition reference_torch : Torch :=
  {| rng_state := nat;
     accepts := reference_accepts;
     reset_parameters := fun _ n => S n |}.

(** A framework that records the layers it builds, in the order in which
    they are built, as its generator state. *)
Definition recording_torch (acc : nn_Module -> bool) : Torch :=
  {| rng_state := list nn_Module;
     accepts := acc;
     reset_parameters := fun m log => log ++ [m] |}.

Definition logging_torch : Torch := recording_torch reference_accepts.

(** * Specification-side definitions *)

(** Geometry of the convolutions: the kernel size is mandatory, stride
    defaults to 1, padding to 0 and dilation to 1. *)
Definition conv_geometry (d : gmap string Z) : option geometry :=
  match d !! "kernel_size" with
  | Some k => Some {| g_kernel := k;
                      g_stride := default 1 (d !! "stride");
                      g_padding := default 0 (d !! "padding");
                      g_dilation := default 1 (d !! "dilation") |}
  | None => None
  end.

(** Geometry of the pooling layers: the stride defaults to the kernel
    size, padding to 0 and dilation to 1. *)
Definition pool_geometry (d : gmap string Z) : option geometry :=
  match d !! "kernel_size" with
  | Some k => Some {| g_kernel := k;
                      g_stride := default k (d !! "stride");
                      g_padding := default 0 (d !! "padding");
                      g_dilation := default 1 (d !! "dilation") |}
  | None => None
  end.

(** The output size the source computes for one layer. *)
Definition out_size_of (g : geometry) (size : Z) : Z :=
  out_size_value size (g_kernel g) (g_stride g) (g_padding g) (g_dilation g).

(** The standard output-size formula, with a floor. *)
Definition floor_out_size (g : geometry) (size : Z) : Z :=
  (size + 2 * g_padding g - g_dilation g * (g_kernel g - 1) - 1) / g_stride g + 1.

(** The activation layer that follows every convolution. *)
Definition activation_of (a : hparams) : option nn_Module :=
  if (activation_type a =? "relu")%string then Some ReLU
  else if (activation_type a =? "lrelu")%string then
    LeakyReLU <$> (activation_params a !! "negative_slope")
  else None.

(** The pooling layer. *)
Definition pooling_of (a : hparams) (pool : geometry) : option nn_Module :=
  if (pooling_type a =? "max")%string then
    Some (MaxPool2d (g_kernel pool) (g_stride pool) (g_padding pool)
                    (g_dilation pool))
  else if (pooling_type a =? "avg")%string then
    Some (AvgPool2d (g_kernel pool) (g_stride pool) (g_padding pool))
  else None.

Definition valid_types (a : hparams) : Prop :=
  (activation_type a = "relu" \/ activation_type a = "lrelu") /\
  (pooling_type a = "max" \/ pooling_type a = "avg").

(** Layers of the feature extractor, convolution by convolution: the
    convolution numbered [idx] (from 1) reads [cin] channels, and a
    pooling layer follows it when [idx] is a multiple of [P]. *)
Fixpoint fe_layers (conv : geometry) (act poolL : nn_Module) (P : Z)
         (idx : Z) (cin : Z) (chs : list Z) : list nn_Module :=
  match chs with
  | [] => []
  | c :: rest =>
      Conv2d cin c (g_kernel conv) (g_stride conv) (g_padding conv)
             (g_dilation conv) true
        :: act
        :: (if idx mod P =? 0 then [poolL] else [])
        ++ fe_layers conv act poolL P (idx + 1) c rest
  end.

(** Tracked size after the convolutions numbered [idx], [idx+1], ... for
    each entry of [chs]. *)
Fixpoint fe_size {A} (conv pool : geometry) (P : Z) (idx : Z) (chs : list A)
         (size : Z) : Z :=
  match chs with
  | [] => size
  | _ :: rest =>
      let s := out_size_of conv size in
      let s := if idx mod P =? 0 then out_size_of pool s else s in
      fe_size conv pool P (idx + 1) rest s
  end.

(** Number of pooling layers among the same convolutions. *)
Fixpoint fe_pools {A} (P : Z) (idx : Z) (chs : list A) : Z :=
  match chs with
  | [] => 0
  | _ :: rest => (if idx mod P =? 0 then 1 else 0) + fe_pools P (idx + 1) rest
  end.

(** Generator state after building the layers [ms] in order, and the
    condition that the framework builds each of them. *)
Definition build_all `{Torch} (s : rng_state) (ms : list nn_Module)
  : rng_state :=
  fold_left (fun s m => reset_parameters m s) ms s.

Definition all_accepted `{Torch} (ms : list nn_Module) : Prop :=
  Forall (fun m => accepts m = true) ms.

(** The activation used after a hidden linear layer: an empty
    [activation_params] selects the framework's default slope. *)
Definition guarded_activation_of (t : string) (p : gmap string Q)
  : option nn_Module :=
  if (t =? "relu")%string then Some ReLU
  else if (t =? "lrelu")%string then
    if bool_decide (p = ∅) then Some (LeakyReLU default_negative_slope)
    else LeakyReLU <$> (p !! "negative_slope")
  else None.

(** Hidden part of the classifier, layer by layer. *)
Fixpoint classifier_hidden (act : nn_Module) (d_in : Z) (hidden : list Z)
  : list nn_Module :=
  match hidden with
  | [] => []
  | h :: rest => Linear d_in h :: act :: classifier_hidden act h rest
  end.

(** The object that [ConvClassifier(...)] returns when it returns. *)
Definition built (a : hparams) (C H W : Z) (conv pool : geometry)
           (act poolL : nn_Module) : ConvClassifier :=
  let P := pool_every a in
  let nf := List.last (channels a) 0
            * fe_size conv pool P 1 (channels a) H
            * fe_size conv pool P 1 (channels a) W in
  {| cls := ConvClassifier_class; hp := a;
     batchnorm := None; dropout := None;
     pools_num := Some (fe_pools P 1 (channels a));
     features_num := Some nf;
     feature_extractor :=
       Some (Sequential (fe_layers conv act poolL P 1 C (channels a)));
     classifier :=
       Some (Sequential
               (classifier_hidden act nf (hidden_dims a) ++
                [Linear (List.last (hidden_dims a) nf) (out_classes a)]));
     dropout_module := None |}.

(** All the layers of that object, in the order they are built. *)
Definition built_layers (a : hparams) (C H W : Z) (conv pool : geometry)
           (act poolL : nn_Module) : list nn_Module :=
  let P := pool_every a in
  let nf := List.last (channels a) 0
            * fe_size conv pool P 1 (channels a) H
            * fe_size conv pool P 1 (channels a) W in
  fe_layers conv act poolL P 1 C (channels a) ++
  (classifier_hidden act nf (hidden_dims a) ++
   [Linear (List.last (hidden_dims a) nf) (out_classes a)]).

(** ** Vocabulary of the specification *)

(** [i] is a multiple of [P]. *)
Definition multiple_of (P i : Z) : bool := P * (i / P) =? i.

(** The size updates in layer order: one convolution update per
    convolution, and one pooling update after every convolution whose
    number (from 1) is a multiple of [P]. *)
Definition size_updates (conv pool : geometry) (P : Z) (first count : nat)
  : list (Z -> Z) :=
  flat_map (fun i => out_size_of conv
                       :: (if multiple_of P (Z.of_nat i)
                           then [out_size_of pool] else []))
           (seq first count).

Definition apply_updates (fs : list (Z -> Z)) (x : Z) : Z :=
  fold_left (fun acc f => f acc) fs x.

(** Layer kinds. *)
Definition is_conv (m : nn_Module) : bool :=
  match m with Conv2d _ _ _ _ _ _ _ => true | _ => false end.
Definition is_activation (m : nn_Module) : bool :=
  match m with ReLU | LeakyReLU _ => true | _ => false end.
Definition is_pooling (m : nn_Module) : bool :=
  match m with MaxPool2d _ _ _ _ | AvgPool2d _ _ _ => true | _ => false end.
Definition is_linear (m : nn_Module) : bool :=
  match m with Linear _ _ => true | _ => false end.

Definition count (f : nn_Module -> bool) (l : list nn_Module) : Z :=
  Z.of_nat (length (List.filter f l)).

(** Convolution-activation pairs whose channel counts chain from [cin]
    through [chs]. *)
Fixpoint conv_act_pairs (conv : geometry) (act : nn_Module) (cin : Z)
         (chs : list Z) : list nn_Module :=
  match chs with
  | [] => []
  | c :: rest =>
      Conv2d cin c (g_kernel conv) (g_stride conv) (g_padding conv)
             (g_dilation conv) true
        :: act :: conv_act_pairs conv act c rest
  end.

(** [[(CONV -> ACT)*P -> POOL]*groups] followed by the remaining pairs. *)
Fixpoint fe_groups (conv : geometry) (act poolL : nn_Module) (P groups : nat)
         (cin : Z) (chs : list Z) : list nn_Module :=
  match groups with
  | O => conv_act_pairs conv act cin chs
  | S g =>
      conv_act_pairs conv act cin (take P chs)
        ++ poolL
        :: fe_groups conv act poolL P g (List.last (take P chs) cin)
                     (drop P chs)
  end.

(** [(FC -> ACT)*M -> FC]: the linear layers chain from [d_in] through
    [hidden] to [out]. *)
Definition classifier_chain (act : nn_Module) (d_in : Z) (hidden : list Z)
           (out : Z) : list nn_Module :=
  flat_map (fun io => [Linear io.1 io.2; act]) (zip (d_in :: hidden) hidden)
  ++ [Linear (List.last hidden d_in) out].

(** ** Sample inputs *)

(** An input on which the constructors below run to completion: three
    convolutions with a pooling layer after every second one. *)
Definition sample_hparams : hparams :=
  {| in_size := [3; 32; 32]; out_classes := 10; channels := [8; 16; 32];
     pool_every := 2; hidden_dims := [100; 50];
     conv_params := <["kernel_size" := 3]> ∅;
     activation_type := "relu"; activation_params := ∅;
     pooling_type := "max";
     pooling_params := <["kernel_size" := 2]> ∅ |}.

(** The same with a negative pooling cadence and a single convolution. *)
Definition negative_pool_every : hparams :=
  {| in_size := [3; 32; 32]; out_classes := 10; channels := [8];
     pool_every := -1; hidden_dims := [100; 50];
     conv_params := <["kernel_size" := 3]> ∅;
     activation_type := "relu"; activation_params := ∅;
     pooling_type := "max";
     pooling_params := <["kernel_size" := 2]> ∅ |}.

(** A 2x2 input under a 3x3 convolution of stride 2: the kernel does not
    fit the input. *)
Definition small_input : hparams :=
  {| in_size := [3; 2; 2]; out_classes := 10; channels := [8];
     pool_every := 2; hidden_dims := [10];
     conv_params := <["kernel_size" := 3]> (<["stride" := 2]> ∅);
     activation_type := "relu"; activation_params := ∅;
     pooling_type := "max";
     pooling_params := <["kernel_size" := 2]> ∅ |}.

Definition small_input_conv : geometry :=
  {| g_kernel := 3; g_stride := 2; g_padding := 0; g_dilation := 1 |}.

Definition small_input_pool : geometry :=
  {| g_kernel := 2; g_stride := 2; g_padding := 0; g_dilation := 1 |}.

(** The loop variables of [_make_feature_extractor] on entry to the loop
    for [small_input]. *)
Definition small_input_entry : fe_locals :=
  {| fl_self :=
       set_features_num
         (set_pools_num
            {| cls := ConvClassifier_class; hp := small_input;
               batchnorm := None; dropout := None; pools_num := None;
               features_num := None; feature_extractor := None;
               classifier := None; dropout_module := None |} 0) 1;
     fl_layers := []; fl_in_h := 2; fl_in_w := 2 |}.

(** ** Which exceptions a computation can raise *)

Definition raises_only `{Torch} {A} (P : exn -> Prop) (m : M A) : Prop :=
  forall s e s', m s = (Raise e, s') -> P e.

(** Exceptions other than the two of the argument validation in
    [ConvClassifier.__init__]. *)
Definition past_validation (e : exn) : Prop :=
  e <> AssertionError /\
  e <> ValueError "Unsupported activation or pooling type".

(** ** Shapes through layers

    Shape [(channels, height, width)] of the output of a layer for an
    input of shape [x], where the layer applies to it: convolutions and
    batch normalisation need the channel count they were built for,
    spatial sizes follow the output-size formula with a floor, and the
    two paths of a residual block must agree since their outputs are
    added. *)
Fixpoint forward_shape (m : nn_Module) (x : Z * Z * Z) : option (Z * Z * Z) :=
  match m with
  | Conv2d ic oc k s p d _ =>
      let g := {| g_kernel := k; g_stride := s; g_padding := p;
                  g_dilation := d |} in
      if x.1.1 =? ic
      then Some (oc, floor_out_size g x.1.2, floor_out_size g x.2)
      else None
  | MaxPool2d k s p d =>
      let g := {| g_kernel := k; g_stride := s; g_padding := p;
                  g_dilation := d |} in
      Some (x.1.1, floor_out_size g x.1.2, floor_out_size g x.2)
  | AvgPool2d k s p =>
      let g := {| g_kernel := k; g_stride := s; g_padding := p;
                  g_dilation := 1 |} in
      Some (x.1.1, floor_out_size g x.1.2, floor_out_size g x.2)
  | BatchNorm2d n => if x.1.1 =? n then Some x else None
  | ReLU | LeakyReLU _ | Dropout2d _ | Dropout _ => Some x
  | Linear _ _ => None
  | Sequential ms =>
      fold_left (fun acc m' => match acc with
                               | Some y => forward_shape m' y
                               | None => None
                               end) ms (Some x)
  | ResidualBlock mp sp =>
      match forward_shape mp x, forward_shape sp x with
      | Some y, Some z => if decide (y = z) then Some y else None
      | _, _ => None
      end
  end.

(** Channel count after a run of layers fed [c] channels. *)
Fixpoint channels_through (ms : list nn_Module) (c : Z) : option Z :=
  match ms with
  | [] => Some c
  | Conv2d ic oc _ _ _ _ _ :: rest =>
      if c =? ic then channels_through rest oc else None
  | BatchNorm2d n :: rest =>
      if c =? n then channels_through rest c else None
  | _ :: rest => channels_through rest c
  end.

(** The layers a residual block puts on its main path: convolutions with
    an odd kernel, stride 1, padding [int(kernel / 2)], dilation 1 and a
    bias; dropout, batch normalisation and activations. *)
Definition main_path_layer (m : nn_Module) : Prop :=
  match m with
  | Conv2d _ _ k s p d b =>
      k mod 2 = 1 /\ s = 1 /\ p = Z.quot k 2 /\ d = 1 /\ b = true
  | Dropout2d _ | BatchNorm2d _ | ReLU | LeakyReLU _ => True
  | _ => False
  end.

(** The primitive layers inside a layer, in order. *)
Fixpoint leaves (m : nn_Module) : list nn_Module :=
  match m with
  | Sequential ms => flat_map leaves ms
  | ResidualBlock mp sp => leaves mp ++ leaves sp
  | _ => [m]
  end.

(** The shortcut of a block from [cin] to [cout] channels. *)
Definition shortcut_layers (cin cout : Z) : list nn_Module :=
  if cout =? cin then [] else [Conv2d cin cout 1 1 0 1 false].

(** What holds of the main path under construction: the generator state
    has advanced by exactly its layers, the framework built each of them,
    each is a main-path layer, and they take [in_channels] channels to
    the current channel count. *)
Definition rb_inv `{Torch} (in_channels : Z) (s0 : rng_state)
           (st : rb_locals) (s : rng_state) : Prop :=
  s = build_all s0 (rb_main st) /\
  all_accepted (rb_main st) /\
  Forall main_path_layer (rb_main st) /\
  channels_through (rb_main st) in_channels = Some (rb_tmp_in_channels st).

(** ** Independence from the generator state *)

(** The outcome of a computation (its value or its exception) does not
    depend on the generator state it starts from. *)
Definition oblivious `{Torch} {A} (m : M A) : Prop :=
  forall s1 s2, fst (m s1) = fst (m s2).

(** ** Definitions for further properties *)

(** The loop variables of [ConvClassifier._make_feature_extractor] on
    entry to its loop. *)
Definition fe_entry (a : hparams) (in_h in_w : Z) : fe_locals :=
  {| fl_self :=
       set_features_num
         (set_pools_num
            {| cls := ConvClassifier_class; hp := a;
               batchnorm := None; dropout := None; pools_num := None;
               features_num := None; feature_extractor := None;
               classifier := None; dropout_module := None |} 0) 1;
     fl_layers := []; fl_in_h := in_h; fl_in_w := in_w |}.

(** Exceptions that come from indexing, dictionaries, arithmetic or the
    framework, as opposed to the [assert] and [raise] statements of the
    source. *)
Definition library_exn (e : exn) : Prop :=
  match e with
  | AssertionError | ValueError _ => False
  | _ => True
  end.

(** The checks at lines 214-216 of [ResidualBlock.__init__]. *)
Definition block_args_ok (channels kernel_sizes : list Z) : bool :=
  truthy channels && truthy kernel_sizes
  && Nat.eqb (length channels) (length kernel_sizes)
  && forallb (fun x => x mod 2 =? 1) kernel_sizes.

(** The main path of a residual block, layer by layer: a convolution per
    channel entry and, between two convolutions, dropout, batch
    normalisation when asked for, and the activation. *)
Fixpoint main_path_spec (bn : bool) (dp : Q) (act : nn_Module) (cin : Z)
         (chs ks : list Z) : list nn_Module :=
  match chs, ks with
  | c :: chs', k :: ks' =>
      Conv2d cin c k 1 (Z.quot k 2) 1 true
        :: match chs' with
           | [] => []
           | _ :: _ =>
               Dropout2d dp
                 :: (if bn then [BatchNorm2d c] else [])
                 ++ act :: main_path_spec bn dp act c chs' ks'
           end
  | _, _ => []
  end.

(** The block [ResNetClassifier] and [YourCodeNet] build for the channel
    counts [chs]: 3x3 convolutions and ReLU. *)
Definition block_spec (bn : bool) (dp : Q) (cin : Z) (chs : list Z)
  : nn_Module :=
  ResidualBlock
    (Sequential (main_path_spec bn dp ReLU cin chs
                                (replicate (length chs) 3)))
    (Sequential (shortcut_layers cin (List.last chs cin))).

(** [g] blocks of [P] channel counts each, every block followed by the
    layers [sep]. *)
Fixpoint resnet_groups (bn : bool) (dp : Q) (sep : list nn_Module) (P g : nat)
         (cin : Z) (chs : list Z) : list nn_Module :=
  match g with
  | O => []
  | S g' =>
      block_spec bn dp cin (take P chs)
        :: sep
        ++ resnet_groups bn dp sep P g' (List.last (take P chs) cin)
                         (drop P chs)
  end.

(** The block over the channel counts left after the complete groups,
    if any. *)
Definition resnet_tail (bn : bool) (dp : Q) (P : Z) (cin : Z) (chs : list Z)
  : list nn_Module :=
  let N := Z.of_nat (length chs) in
  let done := Z.to_nat (P * (N / P)) in
  if N mod P =? 0 then []
  else [block_spec bn dp (List.last (take done chs) cin) (drop done chs)].

(** Layers of the feature extractor of a [ResNetClassifier]. *)
Definition resnet_layers (bn : bool) (dp : Q) (poolL : nn_Module) (P : Z)
           (cin : Z) (chs : list Z) : list nn_Module :=
  let N := Z.of_nat (length chs) in
  resnet_groups bn dp [poolL] (Z.to_nat P) (Z.to_nat (N / P)) cin chs
    ++ resnet_tail bn dp P cin chs.

(** Layers of the feature extractor of a [YourCodeNet]: one pooling and
    one dropout layer after the last complete group. *)
Definition yourcodenet_layers (P : Z) (cin : Z) (chs : list Z)
  : list nn_Module :=
  let N := Z.of_nat (length chs) in
  resnet_groups true (0 # 1) [] (Z.to_nat P) (Z.to_nat (N / P)) cin chs
    ++ (if 0 <? N / P then [MaxPool2d 2 2 0 1; Dropout2d (1 # 10)] else [])
    ++ resnet_tail true (0 # 1) P cin chs.

(** State of the loop of [ResNetClassifier._make_feature_extractor]
    after [n] iterations on an object that was [self] before the loop. *)
Definition rn_inv (self : ConvClassifier) (n : Z) (st : rn_locals) : Prop :=
  rn_self st = set_pools_num self n.

Definition is_block (m : nn_Module) : bool :=
  match m with ResidualBlock _ _ => true | _ => false end.

(** Layers of the main path of a residual block. *)
Definition main_path_of (m : nn_Module) : list nn_Module :=
  match m with
  | ResidualBlock (Sequential ms) _ => ms
  | _ => []
  end.

(** A main-path layer as the residual classifiers build it: a
    convolution is 3x3 with stride 1, padding 1, dilation 1 and a bias,
    and an activation is [ReLU]. *)
Definition resnet_main_layer (m : nn_Module) : Prop :=
  match m with
  | Conv2d _ _ k st p d b => k = 3 /\ st = 1 /\ p = 1 /\ d = 1 /\ b = true
  | LeakyReLU _ => False
  | _ => True
  end.

(** ** [ConvClassifier.forward] (lines 170-179) on shapes

    Width of the output of the classifier for an input of width [n]: a
    linear layer needs the width it was built for. *)
Fixpoint classifier_width (ms : list nn_Module) (n : Z) : option Z :=
  match ms with
  | [] => Some n
  | Linear i o :: rest => if n =? i then classifier_width rest o else None
  | ReLU :: rest | LeakyReLU _ :: rest | Dropout _ :: rest =>
      classifier_width rest n
  | _ => None
  end.

(** The feature extractor, the flattening [view(size(0), -1)] and the
    classifier, on the shape of one sample. *)
Definition forward_width (self : ConvClassifier) (x : Z * Z * Z) : option Z :=
  match feature_extractor self, classifier self with
  | Some fe, Some (Sequential ms) =>
      match forward_shape fe x with
      | Some y => classifier_width ms (y.1.1 * y.1.2 * y.2)
      | None => None
      end
  | _, _ => None
  end.

(** The window of a layer fits into its padded input of size [size], and
    its stride is positive. *)
Definition fits (g : geometry) (size : Z) : bool :=
  (0 <=? size + 2 * g_padding g - g_dilation g * (g_kernel g - 1) - 1)
  && (0 <? g_stride g).

(** Every convolution and pooling layer of the feature extractor fits
    the size that reaches it. *)
Fixpoint fe_fits {A} (conv pool : geometry) (P : Z) (idx : Z) (chs : list A)
         (size : Z) : bool :=
  match chs with
  | [] => true
  | _ :: rest =>
      let s := out_size_of conv size in
      fits conv size
      && (if idx mod P =? 0 then fits pool s else true)
      && fe_fits conv pool P (idx + 1) rest
                 (if idx mod P =? 0 then out_size_of pool s else s)
  end.

(** The pooling window fits each of the sizes that reach the [g] pooling
    layers of a residual classifier. *)
Fixpoint pools_fit (pool : geometry) (g : nat) (size : Z) : bool :=
  match g with
  | O => true
  | S g' => fits pool size && pools_fit pool g' (out_size_of pool size)
  end.

(** * Reasoning about the monad *)

Section MonadLemmas.
Context `{Torch}.

Lemma bind_Ok {A B} (m : M A) (f : A -> M B) s b s' :
  bind m f s = (Ok b, s') <->
  exists a s1, m s = (Ok a, s1) /\ f a s1 = (Ok b, s').
Proof.
  unfold bind. split.
  - destruct (m s) as [[a|e] s1]; [eauto | discriminate].
  - intros (a & s1 & -> & Hf). exact Hf.
Qed.

Lemma bind_Raise {A B} (m : M A) (f : A -> M B) s e s' :
  bind m f s = (Raise e, s') <->
  m s = (Raise e, s') \/
  exists a s1, m s = (Ok a, s1) /\ f a s1 = (Raise e, s').
Proof.
  unfold bind. split.
  - destruct (m s) as [[a|e0] s1]; [eauto | intros [= -> ->]; auto].
  - intros [-> | (a & s1 & -> & Hf)]; [reflexivity | exact Hf].
Qed.

Lemma ret_Ok {A} (a b : A) s s' : ret a s = (Ok b, s') <-> a = b /\ s = s'.
Proof. unfold ret. split; [intros [= -> ->] | intros [-> ->]]; auto. Qed.

Lemma nn_Ok m m' s s' :
  nn m s = (Ok m', s') <->
  accepts m = true /\ m' = m /\ s' = reset_parameters m s.
Proof.
  unfold nn. destruct (accepts m); split.
  - intros [= <- <-]; auto.
  - intros (_ & -> & ->); auto.
  - discriminate.
  - intros (? & _); discriminate.
Qed.

Lemma py_assert_Ok b u s s' : py_assert b s = (Ok u, s') <-> b = true /\ s' = s.
Proof.
  destruct b, u; unfold py_assert, ret, raise; split.
  - intros [= <-]; auto.
  - intros [_ ->]; auto.
  - discriminate.
  - intros [? _]; discriminate.
Qed.

Lemma getitem_Ok {V} (d : gmap string V) k v s s' :
  getitem d k s = (Ok v, s') <-> d !! k = Some v /\ s' = s.
Proof.
  unfold getitem. destruct (d !! k); unfold ret, raise; split.
  - intros [= <- <-]; auto.
  - intros [[= ->] ->]; auto.
  - discriminate.
  - intros [? _]; discriminate.
Qed.

Lemma getattr_Ok {A} name (o : option A) v s s' :
  getattr name o s = (Ok v, s') <-> o = Some v /\ s' = s.
Proof.
  unfold getattr. destruct o; unfold ret, raise; split.
  - intros [= <- <-]; auto.
  - intros [[= ->] ->]; auto.
  - discriminate.
  - intros [? _]; discriminate.
Qed.

Lemma unpack3_Ok xs chw s s' :
  unpack3 xs s = (Ok chw, s') <->
  xs = [chw.1.1; chw.1.2; chw.2] /\ s' = s.
Proof.
  unfold unpack3, ret, raise.
  destruct xs as [|a [|b [|c [|d xs]]]]; split;
    try discriminate; try (intros [[=] _]; fail).
  - intros [= <- <-]; auto.
  - destruct chw as [[? ?] ?]; simpl. intros [[= -> -> ->] ->]; auto.
Qed.

Lemma int_truediv_Ok a b q s s' :
  int_truediv a b s = (Ok q, s') <-> b <> 0 /\ q = Z.quot a b /\ s' = s.
Proof.
  unfold int_truediv, ret, raise.
  destruct (Z.eqb_spec b 0); split.
  - discriminate.
  - intros (? & _); contradiction.
  - intros [= <- <-]; auto.
  - intros (_ & -> & ->); auto.
Qed.

Lemma py_mod_Ok a b r s s' :
  py_mod a b s = (Ok r, s') <-> b <> 0 /\ r = a mod b /\ s' = s.
Proof.
  unfold py_mod, ret, raise.
  destruct (Z.eqb_spec b 0); split.
  - discriminate.
  - intros (? & _); contradiction.
  - intros [= <- <-]; auto.
  - intros (_ & -> & ->); auto.
Qed.

Lemma out_size_Ok size k st p d v s s' :
  out_size size k st p d s = (Ok v, s') <->
  st <> 0 /\ v = out_size_value size k st p d /\ s' = s.
Proof.
  unfold out_size. rewrite bind_Ok. split.
  - intros (q & s1 & Hq & Hr). apply int_truediv_Ok in Hq as (? & -> & ->).
    apply ret_Ok in Hr as [<- <-]. auto.
  - intros (? & -> & ->). eexists _, s. split.
    + apply int_truediv_Ok; eauto.
    + reflexivity.
Qed.

(** Non-negative indices. *)
Lemma index_Ok_nonneg {A} (l : list A) i x s s' :
  0 <= i ->
  index l i s = (Ok x, s') <-> l !! Z.to_nat i = Some x /\ s' = s.
Proof.
  intros Hi. unfold index.
  destruct (Z.ltb_spec i 0); [lia|].
  destruct (Z.ltb_spec i 0); [lia|]. simpl.
  destruct (Z.leb_spec (Z.of_nat (length l)) i).
  - unfold raise. split; [discriminate|].
    intros [Hl _]. apply lookup_lt_Some in Hl. lia.
  - destruct (l !! Z.to_nat i) eqn:E; unfold ret, raise; split.
    + intros [= <- <-]; auto.
    + intros [[= ->] ->]; auto.
    + discriminate.
    + intros [? _]; discriminate.
Qed.

(** [l[-1]] *)
Lemma index_last_Ok {A} (l : list A) x s s' :
  index l (-1) s = (Ok x, s') <-> last l = Some x /\ s' = s.
Proof.
  unfold index. simpl.
  destruct (Z.ltb_spec (-1 + Z.of_nat (length l)) 0) as [Hl|Hl]; simpl.
  - assert (l = []) as -> by (destruct l; [done | simpl in Hl; lia]).
    unfold raise; split; [discriminate | intros [[=] _]].
  - destruct (Z.leb_spec (Z.of_nat (length l)) (-1 + Z.of_nat (length l)));
      [lia|].
    replace (Z.to_nat (-1 + Z.of_nat (length l))) with (pred (length l))
      by lia.
    rewrite <- last_lookup.
    destruct (last l); unfold ret, raise; split.
    + intros [= <- <-]; auto.
    + intros [[= ->] ->]; auto.
    + discriminate.
    + intros [? _]; discriminate.
Qed.

Lemma range_nil a b : b <= a -> range a b = [].
Proof. intros. unfold range. replace (Z.to_nat (b - a)) with O by lia. done. Qed.

Lemma range_cons a b : a < b -> range a b = a :: range (a + 1) b.
Proof.
  intros. unfold range.
  replace (Z.to_nat (b - a)) with (S (Z.to_nat (b - (a + 1)))) by lia.
  simpl. f_equal; [lia|].
  rewrite <- seq_shift, map_map. apply map_ext. intros; lia.
Qed.

(** Loop invariants for [for_each]: an invariant on the loop variables
    and the generator state that every successful iteration preserves
    holds when the loop ends normally. *)
Lemma for_each_invariant {A S} (I : S -> rng_state -> Prop)
      (body : A -> S -> M S) (xs : list A) :
  (forall x st s st' s',
      x ∈ xs -> I st s -> body x st s = (Ok st', s') -> I st' s') ->
  forall st s st' s',
    I st s -> for_each xs body st s = (Ok st', s') -> I st' s'.
Proof.
  induction xs as [|x xs IH]; intros Hbody st s st' s' HI Hrun.
  - apply ret_Ok in Hrun as [<- <-]. exact HI.
  - simpl in Hrun. apply bind_Ok in Hrun as (st1 & s1 & Hb & Hrun).
    eapply IH; [| | exact Hrun].
    + intros. eapply Hbody; eauto. by right.
    + eapply Hbody; eauto. by left.
Qed.

End MonadLemmas.

(** * The parameter readers *)

Section Readers.
Context `{Torch}.

Lemma bind_step {A B} (m : M A) (f : A -> M B) s a s1 :
  m s = (Ok a, s1) -> bind m f s = f a s1.
Proof. unfold bind. by intros ->. Qed.

Lemma bind_fail {A B} (m : M A) (f : A -> M B) s e s1 :
  m s = (Raise e, s1) -> bind m f s = (Raise e, s1).
Proof. unfold bind. by intros ->. Qed.

Lemma read_conv_params_run d s :
  read_conv_params d s =
  (match conv_geometry d with
   | Some g => Ok g
   | None => Raise (KeyError "kernel_size")
   end, s).
Proof.
  unfold read_conv_params, conv_geometry, getitem, contains, bind, ret, raise.
  destruct (d !! "kernel_size"); [|done].
  destruct (d !! "stride"), (d !! "padding"), (d !! "dilation"); done.
Qed.

Lemma read_pooling_params_run d s :
  read_pooling_params d s =
  (match pool_geometry d with
   | Some g => Ok g
   | None => Raise (KeyError "kernel_size")
   end, s).
Proof.
  unfold read_pooling_params, pool_geometry, getitem, contains, bind, ret,
    raise.
  destruct (d !! "kernel_size"); [|done].
  destruct (d !! "stride"), (d !! "padding"), (d !! "dilation"); done.
Qed.

Lemma read_conv_params_Ok d g s s' :
  read_conv_params d s = (Ok g, s') <-> conv_geometry d = Some g /\ s' = s.
Proof.
  rewrite read_conv_params_run. destruct (conv_geometry d); split.
  - intros [= <- <-]; auto.
  - intros [[= ->] ->]; auto.
  - discriminate.
  - intros [? _]; discriminate.
Qed.

Lemma read_pooling_params_Ok d g s s' :
  read_pooling_params d s = (Ok g, s') <-> pool_geometry d = Some g /\ s' = s.
Proof.
  rewrite read_pooling_params_run. destruct (pool_geometry d); split.
  - intros [= <- <-]; auto.
  - intros [[= ->] ->]; auto.
  - discriminate.
  - intros [? _]; discriminate.
Qed.

Lemma out_size_run size g s :
  g_stride g <> 0 ->
  out_size size (g_kernel g) (g_stride g) (g_padding g) (g_dilation g) s =
  (Ok (out_size_of g size), s).
Proof.
  intros Hs. unfold out_size, int_truediv, bind, ret, out_size_of,
               out_size_value.
  destruct (Z.eqb_spec (g_stride g) 0); done.
Qed.

(** The activation appended after a convolution. *)
Lemma fe_activation_run self layers s :
  activation_type (hp self) = "relu" \/ activation_type (hp self) = "lrelu" ->
  fe_activation self layers s =
  match activation_of (hp self) with
  | Some act => bind (nn act) (fun a => ret (layers ++ [a])) s
  | None => (Raise (KeyError "negative_slope"), s)
  end.
Proof.
  unfold fe_activation, activation_of.
  intros [E|E]; rewrite E; simpl.
  - reflexivity.
  - unfold getitem at 2, bind at 2.
    destruct (activation_params (hp self) !! "negative_slope"); reflexivity.
Qed.

Lemma make_pooling_run self pool layers s :
  pooling_type (hp self) = "max" \/ pooling_type (hp self) = "avg" ->
  exists poolL,
    pooling_of (hp self) pool = Some poolL /\
    make_pooling self pool layers s =
    bind (nn poolL) (fun p => ret (layers ++ [p])) s.
Proof.
  unfold make_pooling, pooling_of.
  intros [E|E]; rewrite E; simpl; eexists; (split; [reflexivity|]);
    reflexivity.
Qed.

End Readers.

(** * The loop of [ConvClassifier._make_feature_extractor] *)

Section FeatureExtractor.
Context `{Torch}.

Lemma build_all_app s ms1 ms2 :
  build_all s (ms1 ++ ms2) = build_all (build_all s ms1) ms2.
Proof. apply fold_left_app. Qed.

Lemma all_accepted_app ms1 ms2 :
  all_accepted (ms1 ++ ms2) <-> all_accepted ms1 /\ all_accepted ms2.
Proof. apply Forall_app. Qed.

(** What one successful iteration does. *)
Lemma set_pools_num_id self n :
  pools_num self = Some n -> set_pools_num self n = self.
Proof. destruct self; simpl. by intros ->. Qed.

Lemma set_pools_num_twice self n m :
  set_pools_num (set_pools_num self n) m = set_pools_num self m.
Proof. reflexivity. Qed.

Lemma fe_body_Ok conv pool filters idx n st s st' s' :
  1 <= idx ->
  valid_types (hp (fl_self st)) ->
  pools_num (fl_self st) = Some n ->
  fe_body conv pool filters idx st s = (Ok st', s') ->
  exists cin cout act poolL,
    filters !! Z.to_nat (idx - 1) = Some cin /\
    filters !! Z.to_nat idx = Some cout /\
    activation_of (hp (fl_self st)) = Some act /\
    pooling_of (hp (fl_self st)) pool = Some poolL /\
    pool_every (hp (fl_self st)) <> 0 /\
    g_stride conv <> 0 /\
    fl_self st' =
      set_pools_num (fl_self st)
        (n + (if idx mod pool_every (hp (fl_self st)) =? 0 then 1 else 0)) /\
    fl_layers st' =
      fl_layers st ++
      Conv2d cin cout (g_kernel conv) (g_stride conv) (g_padding conv)
             (g_dilation conv) true
      :: act
      :: (if idx mod pool_every (hp (fl_self st)) =? 0 then [poolL] else []) /\
    fl_in_h st' =
      (let h := out_size_of conv (fl_in_h st) in
       if idx mod pool_every (hp (fl_self st)) =? 0
       then out_size_of pool h else h) /\
    fl_in_w st' =
      (let w := out_size_of conv (fl_in_w st) in
       if idx mod pool_every (hp (fl_self st)) =? 0
       then out_size_of pool w else w) /\
    (let new :=
       Conv2d cin cout (g_kernel conv) (g_stride conv) (g_padding conv)
              (g_dilation conv) true
       :: act
       :: (if idx mod pool_every (hp (fl_self st)) =? 0 then [poolL] else [])
     in s' = build_all s new /\ all_accepted new).
Proof.
  intros Hidx [Hact Hpool] Hn0 Hrun. unfold fe_body in Hrun.
  apply bind_Ok in Hrun as (cin & s1 & Hcin & Hrun).
  apply index_Ok_nonneg in Hcin as [Hcin ->]; [|lia].
  apply bind_Ok in Hrun as (cout & s1 & Hcout & Hrun).
  apply index_Ok_nonneg in Hcout as [Hcout ->]; [|lia].
  apply bind_Ok in Hrun as (c & s1 & Hc & Hrun).
  apply nn_Ok in Hc as (Hacc1 & -> & ->).
  apply bind_Ok in Hrun as (h1 & s1 & Hh & Hrun).
  apply out_size_Ok in Hh as (Hstride & -> & ->).
  apply bind_Ok in Hrun as (w1 & s1 & Hw & Hrun).
  apply out_size_Ok in Hw as (_ & -> & ->).
  apply bind_Ok in Hrun as (layers & s1 & Hl & Hrun).
  rewrite fe_activation_run in Hl by exact Hact.
  destruct (activation_of (hp (fl_self st))) as [act|] eqn:Eact;
    [|discriminate].
  apply bind_Ok in Hl as (a & s2 & Ha & Hl).
  apply nn_Ok in Ha as (Hacc2 & -> & ->).
  apply ret_Ok in Hl as [<- <-].
  apply bind_Ok in Hrun as (r & s1 & Hr & Hrun).
  apply py_mod_Ok in Hr as (HP & -> & ->).
  destruct (make_pooling_run (fl_self st) pool
              ((fl_layers st ++
                [Conv2d cin cout (g_kernel conv) (g_stride conv)
                        (g_padding conv) (g_dilation conv) true]) ++ [act])
              (reset_parameters act
                 (reset_parameters
                    (Conv2d cin cout (g_kernel conv) (g_stride conv)
                            (g_padding conv) (g_dilation conv) true) s))
              Hpool) as (poolL & EpoolL & Hmk).
  exists cin, cout, act, poolL.
  do 6 (split; [first [assumption | reflexivity]|]).
  destruct (idx mod pool_every (hp (fl_self st)) =? 0).
  - apply bind_Ok in Hrun as (layers & s1 & Hl & Hrun).
    rewrite Hmk in Hl.
    apply bind_Ok in Hl as (p & s2 & Hp & Hl).
    apply nn_Ok in Hp as (Hacc3 & -> & ->).
    apply ret_Ok in Hl as [<- <-].
    apply bind_Ok in Hrun as (h2 & s1 & Hh & Hrun).
    apply out_size_Ok in Hh as (_ & -> & ->).
    apply bind_Ok in Hrun as (w2 & s1 & Hw & Hrun).
    apply out_size_Ok in Hw as (_ & -> & ->).
    apply bind_Ok in Hrun as (n1 & s1 & Hn & Hrun).
    apply getattr_Ok in Hn as [Hn ->].
    apply ret_Ok in Hrun as [<- <-]. simpl.
    repeat split; try reflexivity.
    + congruence.
    + by rewrite <- !app_assoc.
    + by repeat constructor.
  - apply ret_Ok in Hrun as [<- <-]. simpl.
    repeat split; try reflexivity.
    + rewrite Z.add_0_r. symmetry. by apply set_pools_num_id.
    + by rewrite <- !app_assoc.
    + by repeat constructor.
Qed.

(** The whole loop, started at the convolution numbered [idx]. *)
Lemma fe_loop_Ok conv pool act poolL filters :
  forall chs firsts cin idx n st s st' s',
    filters = firsts ++ cin :: chs ->
    idx = Z.of_nat (length firsts) + 1 ->
    valid_types (hp (fl_self st)) ->
    pools_num (fl_self st) = Some n ->
    activation_of (hp (fl_self st)) = Some act ->
    pooling_of (hp (fl_self st)) pool = Some poolL ->
    for_each (range idx (idx + Z.of_nat (length chs)))
             (fe_body conv pool filters) st s = (Ok st', s') ->
    fl_self st' =
      set_pools_num (fl_self st)
        (n + fe_pools (pool_every (hp (fl_self st))) idx chs) /\
    (chs <> [] -> pool_every (hp (fl_self st)) <> 0 /\ g_stride conv <> 0) /\
    fl_layers st' =
      fl_layers st ++
      fe_layers conv act poolL (pool_every (hp (fl_self st))) idx cin chs /\
    fl_in_h st' =
      fe_size conv pool (pool_every (hp (fl_self st))) idx chs (fl_in_h st) /\
    fl_in_w st' =
      fe_size conv pool (pool_every (hp (fl_self st))) idx chs (fl_in_w st) /\
    (let new :=
       fe_layers conv act poolL (pool_every (hp (fl_self st))) idx cin chs
     in s' = build_all s new /\ all_accepted new).
Proof.
  induction chs as [|c chs IH];
    intros firsts cin idx n st s st' s' Hf Hidx Hv Hn0 Hact Hpool Hrun.
  - rewrite range_nil in Hrun by (simpl; lia).
    apply ret_Ok in Hrun as [<- <-]. simpl.
    repeat split; try done.
    + rewrite Z.add_0_r. symmetry. by apply set_pools_num_id.
    + by rewrite app_nil_r.
    + constructor.
  - rewrite range_cons in Hrun by (simpl; lia).
    simpl in Hrun. apply bind_Ok in Hrun as (st1 & s1 & Hb & Hrun).
    apply (fe_body_Ok _ _ _ _ n) in Hb
      as (cin' & cout & act' & poolL' & Hcin & Hcout & Hact' & Hpool' &
          HP & Hstride & Hself & Hl & Hh & Hw & Hs1 & Hacc);
      [|lia|exact Hv|exact Hn0].
    assert (Hhp : hp (fl_self st1) = hp (fl_self st)) by by rewrite Hself.
    assert (cin' = cin) as ->.
    { subst filters idx.
      replace (Z.to_nat (Z.of_nat (length firsts) + 1 - 1))
        with (length firsts + 0)%nat in Hcin by lia.
      rewrite lookup_app_r in Hcin by lia.
      replace (length firsts + 0 - length firsts)%nat with O in Hcin by lia.
      simpl in Hcin. congruence. }
    assert (cout = c) as ->.
    { subst filters idx.
      replace (Z.to_nat (Z.of_nat (length firsts) + 1))
        with (length firsts + 1)%nat in Hcout by lia.
      rewrite lookup_app_r in Hcout by lia.
      replace (length firsts + 1 - length firsts)%nat with 1%nat in Hcout
        by lia.
      simpl in Hcout. congruence. }
    assert (act' = act) as -> by congruence.
    assert (poolL' = poolL) as -> by congruence.
    replace (idx + Z.of_nat (S (length chs)))
      with (idx + 1 + Z.of_nat (length chs)) in Hrun by lia.
    eapply (IH (firsts ++ [cin]) c (idx + 1)
               (n + (if idx mod pool_every (hp (fl_self st)) =? 0
                     then 1 else 0))) in Hrun; cycle 1.
    + by rewrite <- app_assoc.
    + rewrite length_app. simpl. lia.
    + by rewrite Hhp.
    + by rewrite Hself.
    + by rewrite Hhp.
    + by rewrite Hhp.
    + destruct Hrun as (Hself' & _ & Hl' & Hh' & Hw' & Hs' & Hacc').
      rewrite Hhp in *.
      repeat split; try congruence.
      * rewrite Hself', Hself, set_pools_num_twice. simpl. f_equal. lia.
      * rewrite Hl', Hl. simpl. rewrite <- !app_assoc. simpl.
        by destruct (idx mod pool_every (hp (fl_self st)) =? 0).
      * rewrite Hh', Hh. reflexivity.
      * rewrite Hw', Hw. reflexivity.
      * rewrite Hs', Hs1. simpl.
        by destruct (idx mod pool_every (hp (fl_self st)) =? 0).
      * simpl. simpl in Hacc.
        destruct (idx mod pool_every (hp (fl_self st)) =? 0);
          inversion Hacc as [|? ? ? Hacc2]; subst;
          inversion Hacc2 as [|? ? ? Hacc3]; subst;
          repeat (constructor; [done|]); try done.
        inversion Hacc3; subst. by constructor.
Qed.

End FeatureExtractor.

(** * The classifier part *)

Section Classifier.
Context `{Torch}.

Lemma _n_features_run self s :
  _n_features self s =
  (match features_num self with
   | Some v => Ok v
   | None => Raise (AttributeError "features_num")
   end, s).
Proof.
  unfold _n_features, get_rng_state, set_rng_state, try_finally, bind,
    getattr, ret, raise.
  by destruct (features_num self).
Qed.

Lemma guarded_activation_run t p layers s :
  t = "relu" \/ t = "lrelu" ->
  guarded_activation t p layers s =
  match guarded_activation_of t p with
  | Some act => bind (nn act) (fun a => ret (layers ++ [a])) s
  | None => (Raise (KeyError "negative_slope"), s)
  end.
Proof.
  unfold guarded_activation, guarded_activation_of.
  intros [-> | ->]; simpl.
  - reflexivity.
  - destruct (bool_decide (p = ∅)); simpl; [reflexivity|].
    unfold getitem at 2, bind at 2.
    destruct (p !! "negative_slope"); reflexivity.
Qed.

(** Where the feature extractor could be built, both parts use the same
    activation. *)
Lemma activation_of_guarded a act :
  activation_of a = Some act ->
  guarded_activation_of (activation_type a) (activation_params a) = Some act.
Proof.
  unfold activation_of, guarded_activation_of.
  destruct (activation_type a =? "relu")%string; [done|].
  destruct (activation_type a =? "lrelu")%string; [|done].
  intros Hs. case_bool_decide as He; [|done].
  rewrite He, lookup_empty in Hs. discriminate.
Qed.

Lemma last_cons_default {A} (l : list A) x d d' :
  List.last (x :: l) d = List.last (x :: l) d'.
Proof.
  revert x. induction l as [|y l IH]; intros x; [done|].
  change (List.last (y :: l) d = List.last (y :: l) d'). apply IH.
Qed.

Lemma cl_loop_Ok self act :
  forall hs firsts idx st s st' s',
    hidden_dims (hp self) = firsts ++ hs ->
    idx = Z.of_nat (length firsts) ->
    activation_type (hp self) = "relu" \/ activation_type (hp self) = "lrelu" ->
    guarded_activation_of (activation_type (hp self))
                          (activation_params (hp self)) = Some act ->
    for_each (range idx (idx + Z.of_nat (length hs))) (cl_body self) st s
    = (Ok st', s') ->
    cl_layers st' =
      cl_layers st ++ classifier_hidden act (cl_input_dimension st) hs /\
    cl_input_dimension st' = List.last hs (cl_input_dimension st) /\
    (let new := classifier_hidden act (cl_input_dimension st) hs in
     s' = build_all s new /\ all_accepted new).
Proof.
  induction hs as [|h hs IH];
    intros firsts idx st s st' s' Hhd Hidx Hv Hact Hrun.
  - rewrite range_nil in Hrun by (simpl; lia).
    apply ret_Ok in Hrun as [<- <-]. simpl. rewrite app_nil_r.
    repeat split. constructor.
  - rewrite range_cons in Hrun by (simpl; lia).
    simpl in Hrun. apply bind_Ok in Hrun as (st1 & s1 & Hb & Hrun).
    unfold cl_body in Hb.
    apply bind_Ok in Hb as (d & s2 & Hd & Hb).
    apply index_Ok_nonneg in Hd as [Hd ->]; [|lia].
    assert (d = h) as ->.
    { rewrite Hhd, Hidx, Nat2Z.id in Hd.
      rewrite lookup_app_r in Hd by lia.
      rewrite Nat.sub_diag in Hd. simpl in Hd. congruence. }
    apply bind_Ok in Hb as (l & s2 & Hl & Hb).
    apply nn_Ok in Hl as (Hacc1 & -> & ->).
    apply bind_Ok in Hb as (layers & s2 & Hg & Hb).
    rewrite guarded_activation_run, Hact in Hg by exact Hv.
    apply bind_Ok in Hg as (a & s3 & Ha & Hg).
    apply nn_Ok in Ha as (Hacc2 & -> & ->).
    apply ret_Ok in Hg as [<- <-].
    apply bind_Ok in Hb as (d' & s2 & Hd' & Hb).
    apply index_Ok_nonneg in Hd' as [Hd' ->]; [|lia].
    assert (d' = h) as -> by congruence.
    apply ret_Ok in Hb as [<- <-].
    replace (idx + Z.of_nat (S (length hs)))
      with (idx + 1 + Z.of_nat (length hs)) in Hrun by lia.
    eapply (IH (firsts ++ [h]) (idx + 1)) in Hrun; cycle 1.
    + by rewrite <- app_assoc.
    + rewrite length_app. simpl. lia.
    + exact Hv.
    + exact Hact.
    + destruct Hrun as (Hl' & Hd'' & Hs' & Hacc'). simpl in *.
      repeat split.
      * rewrite Hl'. by rewrite <- !app_assoc.
      * rewrite Hd''. destruct hs; [done|]. apply last_cons_default.
      * exact Hs'.
      * by repeat (constructor; [done|]).
Qed.

Lemma _make_classifier_Ok self act nf cl s s' :
  activation_type (hp self) = "relu" \/ activation_type (hp self) = "lrelu" ->
  guarded_activation_of (activation_type (hp self))
                        (activation_params (hp self)) = Some act ->
  features_num self = Some nf ->
  _make_classifier self s = (Ok cl, s') ->
  let new := classifier_hidden act nf (hidden_dims (hp self)) ++
             [Linear (List.last (hidden_dims (hp self)) nf)
                     (out_classes (hp self))] in
  cl = Sequential new /\ s' = build_all s new /\ all_accepted new.
Proof.
  intros Hv Hact Hnf Hrun. unfold _make_classifier in Hrun.
  apply bind_Ok in Hrun as (nf' & s1 & Hn & Hrun).
  rewrite _n_features_run, Hnf in Hn. injection Hn as <- <-.
  apply bind_Ok in Hrun as (st & s1 & Hloop & Hrun).
  eapply (cl_loop_Ok self act (hidden_dims (hp self)) [] 0) in Hloop;
    [|done|done|exact Hv|exact Hact].
  destruct Hloop as (Hl & Hd & Hs1 & Hacc). simpl in Hl, Hd, Hs1, Hacc.
  apply bind_Ok in Hrun as (l & s2 & Hlin & Hrun).
  apply nn_Ok in Hlin as (Hacc1 & -> & ->).
  apply ret_Ok in Hrun as [<- <-].
  rewrite Hd in Hacc1. rewrite Hl, Hd, Hs1. repeat split.
  - by rewrite build_all_app.
  - apply all_accepted_app. split; [done|].
    constructor; [done | constructor].
Qed.

End Classifier.

(** * Successful construction of a [ConvClassifier] *)

Section Construction.
Context `{Torch}.

Lemma contains_ACTIVATIONS t :
  contains t ACTIVATIONS = true <-> t = "relu" \/ t = "lrelu".
Proof.
  unfold contains, ACTIVATIONS. rewrite !lookup_insert, lookup_empty.
  repeat case_decide; subst; split; intros; try done; auto.
  destruct H2; congruence.
Qed.

Lemma contains_POOLINGS t :
  contains t POOLINGS = true <-> t = "max" \/ t = "avg".
Proof.
  unfold contains, POOLINGS. rewrite !lookup_insert, lookup_empty.
  repeat case_decide; subst; split; intros; try done; auto.
  destruct H2; congruence.
Qed.

Lemma last_Some_last {A} (l : list A) x d :
  last l = Some x -> List.last l d = x.
Proof.
  induction l as [|y [|z l] IH]; [done| |].
  - by intros [= ->].
  - intros Hl. apply IH. exact Hl.
Qed.

Lemma new_ConvClassifier_Ok a s self s' :
  new_ConvClassifier a s = (Ok self, s') ->
  exists C H W conv pool act poolL,
    in_size a = [C; H; W] /\
    channels a <> [] /\ hidden_dims a <> [] /\
    valid_types a /\
    conv_geometry (conv_params a) = Some conv /\
    pool_geometry (pooling_params a) = Some pool /\
    activation_of a = Some act /\
    pooling_of a pool = Some poolL /\
    pool_every a <> 0 /\ g_stride conv <> 0 /\
    self = built a C H W conv pool act poolL /\
    s' = build_all s (built_layers a C H W conv pool act poolL) /\
    all_accepted (built_layers a C H W conv pool act poolL).
Proof.
  unfold new_ConvClassifier, ConvClassifier_init. intros Hrun.
  apply bind_Ok in Hrun as ([] & s1 & Hassert & Hrun).
  apply py_assert_Ok in Hassert as [Hne ->].
  apply andb_true_iff in Hne as [Hch Hhd].
  destruct (negb (contains (activation_type a) ACTIVATIONS)
            || negb (contains (pooling_type a) POOLINGS)) eqn:Ev;
    [discriminate|].
  apply orb_false_iff in Ev as [Ea Ep].
  apply negb_false_iff, contains_ACTIVATIONS in Ea.
  apply negb_false_iff, contains_POOLINGS in Ep.
  apply bind_Ok in Hrun as ([self1 fe] & s1 & Hfe & Hrun).
  apply bind_Ok in Hrun as (cl & s2 & Hcl & Hrun).
  apply ret_Ok in Hrun as [<- <-]. simpl in Hcl |- *.
  unfold _make_feature_extractor in Hfe. simpl in Hfe.
  unfold ConvClassifier_make_feature_extractor in Hfe. simpl in Hfe.
  apply bind_Ok in Hfe as ([[C Hh] W] & s3 & Hunpack & Hfe).
  apply unpack3_Ok in Hunpack as [Hin ->]. simpl in Hin.
  apply bind_Ok in Hfe as (conv & s3 & Hconv & Hfe).
  apply read_conv_params_Ok in Hconv as [Hconv ->].
  apply bind_Ok in Hfe as (pool & s3 & Hpoolg & Hfe).
  apply read_pooling_params_Ok in Hpoolg as [Hpoolg ->].
  apply bind_Ok in Hfe as (st & s3 & Hloop & Hfe).
  apply bind_Ok in Hfe as (lastc & s4 & Hlast & Hfe).
  apply ret_Ok in Hfe as [Hfe <-]. injection Hfe as <- <-.
  destruct (activation_of a) as [act|] eqn:Eact.
  - destruct (pooling_of a pool) as [poolL|] eqn:EpoolL.
    2:{ unfold pooling_of in EpoolL.
        destruct Ep as [Ep|Ep]; rewrite Ep in EpoolL; discriminate. }
    replace (Z.of_nat (S (length (channels a))))
      with (1 + Z.of_nat (length (channels a))) in Hloop by lia.
    eapply (fe_loop_Ok conv pool act poolL (C :: channels a) (channels a)
                       [] C 1 0) in Hloop; try done.
    simpl in Hloop.
    destruct Hloop as (Hself & Hnz & Hl & Hhh & Hww & Hs3 & Hacc).
    destruct (Hnz ltac:(by destruct (channels a))) as [HP Hs].
    rewrite Hself in Hlast. simpl in Hlast.
    apply index_last_Ok in Hlast as [Hlast ->].
    apply (last_Some_last _ _ 0) in Hlast.
    exists C, Hh, W, conv, pool, act, poolL.
    do 10 (split; [first [assumption | by destruct (channels a)
                          | by destruct (hidden_dims a) | done]|]).
    eapply (_make_classifier_Ok _ act) in Hcl; [| | |reflexivity];
      simpl; rewrite ?Hself; simpl; eauto using activation_of_guarded.
    destruct Hcl as (Hcl & Hs2 & Hacc2). simpl in Hcl, Hs2, Hacc2.
    rewrite Hhh, Hww, Hself in Hcl, Hs2, Hacc2. simpl in Hcl, Hs2, Hacc2.
    subst lastc cl s2 s3. unfold built_layers.
    repeat split.
    + rewrite Hl, Hhh, Hww. reflexivity.
    + symmetry. apply build_all_app.
    + apply all_accepted_app. by split.
  - exfalso.
    destruct (channels a) as [|c chs] eqn:Echs; [done|].
    rewrite range_cons in Hloop by (simpl; lia).
    simpl in Hloop. apply bind_Ok in Hloop as (st1 & s5 & Hb & _).
    apply (fe_body_Ok _ _ _ _ 0) in Hb
      as (? & ? & act & ? & _ & _ & Hact & _); simpl; try done.
    simpl in Hact. congruence.
Qed.

End Construction.

(** * Arithmetic and list facts about the specification-side functions *)

Section Pure.

Lemma multiple_of_mod P i : P <> 0 -> multiple_of P i = (i mod P =? 0).
Proof.
  intros HP. unfold multiple_of.
  pose proof (Z.div_mod i P HP).
  destruct (Z.eqb_spec (P * (i / P)) i), (Z.eqb_spec (i mod P) 0);
    try reflexivity; lia.
Qed.

Lemma mod_abs_eqb idx P :
  P <> 0 -> (idx mod P =? 0) = (idx mod Z.abs P =? 0).
Proof.
  intros HP.
  destruct (Z.eqb_spec (idx mod P) 0) as [E|E],
           (Z.eqb_spec (idx mod Z.abs P) 0) as [E'|E']; try reflexivity.
  - exfalso. apply E'. apply Z.mod_divide; [lia|].
    apply Z.divide_abs_l. by apply Z.mod_divide.
  - exfalso. apply E. apply Z.mod_divide; [lia|].
    apply Z.divide_abs_l. apply Z.mod_divide; [lia|done].
Qed.

Lemma fe_size_updates {A} conv pool P :
  P <> 0 ->
  forall (chs : list A) (i : nat) x,
    fe_size conv pool P (Z.of_nat i) chs x =
    apply_updates (size_updates conv pool P i (length chs)) x.
Proof.
  intros HP. induction chs as [|c chs IH]; intros i x; [done|].
  simpl. replace (Z.of_nat i + 1) with (Z.of_nat (S i)) by lia.
  rewrite IH. unfold size_updates. simpl.
  rewrite multiple_of_mod by done.
  unfold apply_updates. rewrite fold_left_app.
  by destruct (Z.of_nat i mod P =? 0).
Qed.

Lemma fe_layers_abs conv act poolL P :
  P <> 0 ->
  forall chs idx cin,
    fe_layers conv act poolL P idx cin chs =
    fe_layers conv act poolL (Z.abs P) idx cin chs.
Proof.
  intros HP. induction chs as [|c chs IH]; intros idx cin; [done|].
  simpl. by rewrite IH, mod_abs_eqb.
Qed.

Lemma conv_act_pairs_app conv act l1 l2 cin :
  conv_act_pairs conv act cin (l1 ++ l2) =
  conv_act_pairs conv act cin l1 ++
  conv_act_pairs conv act (List.last l1 cin) l2.
Proof.
  revert cin. induction l1 as [|c l1 IH]; intros cin; [done|].
  simpl conv_act_pairs. rewrite IH. simpl. do 2 f_equal.
  destruct l1; [done|]. f_equal. f_equal. apply last_cons_default.
Qed.

Lemma fe_layers_app conv act poolL P l1 l2 :
  forall idx cin,
    fe_layers conv act poolL P idx cin (l1 ++ l2) =
    fe_layers conv act poolL P idx cin l1 ++
    fe_layers conv act poolL P (idx + Z.of_nat (length l1))
              (List.last l1 cin) l2.
Proof.
  induction l1 as [|c l1 IH]; intros idx cin.
  - simpl. by rewrite Z.add_0_r.
  - simpl fe_layers. rewrite IH.
    replace (idx + 1 + Z.of_nat (length l1))
      with (idx + Z.of_nat (length (c :: l1))) by (simpl; lia).
    assert (Hlast : List.last l1 c = List.last (c :: l1) cin).
    { destruct l1 as [|z l1]; [done|].
      change (List.last (z :: l1) c = List.last (z :: l1) cin).
      apply last_cons_default. }
    rewrite Hlast. simpl. rewrite <- app_assoc. reflexivity.
Qed.

Lemma fe_layers_no_pool conv act poolL P :
  forall chs idx cin,
    (forall j, 0 <= j < Z.of_nat (length chs) -> (idx + j) mod P <> 0) ->
    fe_layers conv act poolL P idx cin chs = conv_act_pairs conv act cin chs.
Proof.
  induction chs as [|c chs IH]; intros idx cin Hno; [done|].
  simpl. specialize (Hno 0) as H0. rewrite Z.add_0_r in H0.
  destruct (Z.eqb_spec (idx mod P) 0) as [E|_];
    [exfalso; apply H0; [simpl; lia | done]|].
  simpl. do 2 f_equal. apply IH. intros j Hj.
  replace (idx + 1 + j) with (idx + (j + 1)) by lia.
  apply Hno. simpl. lia.
Qed.

Lemma fe_layers_group conv act poolL P k chs cin :
  0 < P ->
  Z.of_nat (length chs) = P ->
  fe_layers conv act poolL P (k * P + 1) cin chs =
  conv_act_pairs conv act cin chs ++ [poolL].
Proof.
  intros HP Hlen.
  destruct (exists_last (l := chs)) as (init & x & ->).
  { intros ->. simpl in Hlen. lia. }
  rewrite length_app in Hlen. simpl in Hlen.
  rewrite fe_layers_app, conv_act_pairs_app.
  rewrite fe_layers_no_pool.
  - simpl.
    replace (k * P + 1 + Z.of_nat (length init)) with ((k + 1) * P) by lia.
    rewrite Z.mod_mul by lia. simpl. by rewrite <- app_assoc.
  - intros j Hj.
    replace (k * P + 1 + j) with (1 + j + k * P) by lia.
    rewrite Z.mod_add by lia. rewrite Z.mod_small by lia. lia.
Qed.

Lemma fe_layers_groups conv act poolL P :
  0 < P ->
  forall g k chs cin,
    Z.of_nat g = Z.of_nat (length chs) / P ->
    fe_layers conv act poolL P (k * P + 1) cin chs =
    fe_groups conv act poolL (Z.to_nat P) g cin chs.
Proof.
  intros HP. induction g as [|g IH]; intros k chs cin Hg.
  - simpl. apply fe_layers_no_pool. intros j Hj.
    assert (Z.of_nat (length chs) < P).
    { symmetry in Hg. apply Z.div_small_iff in Hg; [|lia]. lia. }
    replace (k * P + 1 + j) with (1 + j + k * P) by lia.
    rewrite Z.mod_add by lia. rewrite Z.mod_small by lia. lia.
  - assert (Hlen : P <= Z.of_nat (length chs)).
    { destruct (Z.lt_ge_cases (Z.of_nat (length chs)) P) as [Hlt|]; [|done].
      rewrite Z.div_small in Hg by lia. lia. }
    rewrite <- (take_drop (Z.to_nat P) chs) at 1.
    rewrite fe_layers_app.
    rewrite fe_layers_group; [|done|rewrite length_take; lia].
    rewrite length_take.
    replace (k * P + 1 + Z.of_nat (Z.to_nat P `min` length chs))
      with ((k + 1) * P + 1) by lia.
    rewrite IH.
    + simpl. by rewrite <- app_assoc.
    + rewrite length_drop.
      replace (Z.of_nat (length chs - Z.to_nat P))
        with (Z.of_nat (length chs) + (-1) * P) by lia.
      rewrite Z.div_add by lia. lia.
Qed.

Lemma count_app f l1 l2 : count f (l1 ++ l2) = count f l1 + count f l2.
Proof. unfold count. rewrite List.filter_app, length_app. lia. Qed.

(** Counting in a run of convolution-activation pairs. *)
Lemma count_conv_act_pairs f (fc : bool) conv act chs :
  (forall a b c d e g h, f (Conv2d a b c d e g h) = fc) ->
  forall cin,
    count f (conv_act_pairs conv act cin chs) =
    Z.of_nat (length chs) *
    ((if fc then 1 else 0) + (if f act then 1 else 0)).
Proof.
  intros Hf. induction chs as [|c chs IH]; intros cin; [done|].
  change (conv_act_pairs conv act cin (c :: chs))
    with ([Conv2d cin c (g_kernel conv) (g_stride conv) (g_padding conv)
                  (g_dilation conv) true; act]
            ++ conv_act_pairs conv act c chs).
  rewrite count_app, IH. unfold count at 1. simpl List.filter.
  rewrite Hf. destruct fc, (f act); simpl length; lia.
Qed.

Lemma count_fe_groups f (fc : bool) conv act poolL P :
  (forall a b c d e g h, f (Conv2d a b c d e g h) = fc) ->
  forall g chs cin,
    count f (fe_groups conv act poolL P g cin chs) =
    Z.of_nat (length chs) *
    ((if fc then 1 else 0) + (if f act then 1 else 0)) +
    Z.of_nat g * (if f poolL then 1 else 0).
Proof.
  intros Hf. induction g as [|g IH]; intros chs cin.
  - simpl. rewrite (count_conv_act_pairs f fc) by done. lia.
  - cbn [fe_groups].
    change (poolL :: ?l) with ([poolL] ++ l).
    rewrite !count_app, IH, (count_conv_act_pairs f fc) by done.
    rewrite <- (take_drop P chs) at 3. rewrite length_app.
    unfold count at 1. simpl List.filter.
    destruct (f poolL); simpl length; lia.
Qed.

Lemma classifier_hidden_chain act :
  forall hidden d_in out,
    classifier_hidden act d_in hidden
      ++ [Linear (List.last hidden d_in) out]
    = classifier_chain act d_in hidden out.
Proof.
  unfold classifier_chain.
  induction hidden as [|h hidden IH]; intros d_in out; [done|].
  assert (Hl : List.last (h :: hidden) d_in = List.last hidden h).
  { destruct hidden as [|z hidden]; [done|].
    change (List.last (z :: hidden) d_in = List.last (z :: hidden) h).
    apply last_cons_default. }
  rewrite Hl.
  change (zip (d_in :: h :: hidden) (h :: hidden))
    with ((d_in, h) :: zip (h :: hidden) hidden).
  cbn [flat_map classifier_hidden].
  rewrite <- app_assoc, <- IH. reflexivity.
Qed.

Lemma count_classifier_hidden f (fl : bool) act :
  (forall i o, f (Linear i o) = fl) ->
  forall hidden d_in,
    count f (classifier_hidden act d_in hidden) =
    Z.of_nat (length hidden) *
    ((if fl then 1 else 0) + (if f act then 1 else 0)).
Proof.
  intros Hf. induction hidden as [|h hidden IH]; intros d_in; [done|].
  change (classifier_hidden act d_in (h :: hidden))
    with ([Linear d_in h; act] ++ classifier_hidden act h hidden).
  rewrite count_app, IH. unfold count at 1. simpl List.filter.
  rewrite Hf. destruct fl, (f act); simpl length; lia.
Qed.

End Pure.

(** * Feature count, feature extractor and classifier of a [ConvClassifier] *)

Section LayerKinds.

Lemma activation_of_kind a act :
  activation_of a = Some act ->
  is_activation act = true /\ is_conv act = false /\
  is_pooling act = false /\ is_linear act = false.
Proof.
  unfold activation_of.
  destruct (activation_type a =? "relu")%string; [by intros [= <-]|].
  destruct (activation_type a =? "lrelu")%string; [|done].
  destruct (activation_params a !! "negative_slope"); [|done].
  by intros [= <-].
Qed.

Lemma pooling_of_kind a pool poolL :
  pooling_of a pool = Some poolL ->
  is_pooling poolL = true /\ is_conv poolL = false /\
  is_activation poolL = false /\ is_linear poolL = false.
Proof.
  unfold pooling_of.
  destruct (pooling_type a =? "max")%string; [by intros [= <-]|].
  destruct (pooling_type a =? "avg")%string; [by intros [= <-]|done].
Qed.

End LayerKinds.



(** C2 (as amended): for every [ConvClassifier] constructed successfully
    with [N = len(channels)] and [P = pool_every], the feature extractor
    is [[(CONV -> ACT)*|P| -> POOL]*(N div |P|)] followed by the trailing
    [N mod |P|] convolution-activation pairs without a pooling layer: [N]
    convolutions whose channel counts chain from [in_size[0]] through
    [channels], each immediately followed by one activation, and
    [floor(N/|P|)] pooling layers, one after every [|P|]-th pair.  For
    [P >= 1] these are [floor(N/P)] and [N mod P]. *)
Theorem C2_feature_extractor_structure `{Torch} (a : hparams) s self s' :
  new_ConvClassifier a s = (Ok self, s') ->
  exists C H W conv pool act poolL,
    in_size a = [C; H; W] /\
    conv_geometry (conv_params a) = Some conv /\
    pool_geometry (pooling_params a) = Some pool /\
    activation_of a = Some act /\ pooling_of a pool = Some poolL /\
    is_activation act = true /\ is_pooling poolL = true /\
    let N := Z.of_nat (length (channels a)) in
    let p := Z.abs (pool_every a) in
    let fe := fe_groups conv act poolL (Z.to_nat p) (Z.to_nat (N / p)) C
                        (channels a) in
    0 < p /\
    feature_extractor self = Some (Sequential fe) /\
    count is_conv fe = N /\
    count is_activation fe = N /\
    count is_pooling fe = N / p /\
    Z.of_nat (length fe) = 2 * N + N / p /\
    Z.of_nat (length (drop (Z.to_nat (p * (N / p))) (channels a))) = N mod p.
Proof.
  intros Hrun.
  apply new_ConvClassifier_Ok in Hrun
    as (C & Hh & W & conv & pool & act & poolL & Hin & Hch & _ & _ & Hconv &
        Hpool & Hact & HpoolL & HP & _ & -> & _).
  destruct (activation_of_kind _ _ Hact) as (Ha1 & Ha2 & Ha3 & _).
  destruct (pooling_of_kind _ _ _ HpoolL) as (Hp1 & Hp2 & Hp3 & _).
  exists C, Hh, W, conv, pool, act, poolL. do 7 (split; [done|]).
  intros N p fe.
  assert (Hp : 0 < p) by (unfold p; lia).
  assert (HNp : 0 <= N / p) by (apply Z.div_pos; unfold N; lia).
  split; [exact Hp|]. split.
  { simpl. do 2 f_equal. rewrite fe_layers_abs by done.
    apply (fe_layers_groups conv act poolL p Hp (Z.to_nat (N / p)) 0).
    fold N. lia. }
  unfold fe.
  rewrite (count_fe_groups is_conv true), (count_fe_groups is_activation false),
    (count_fe_groups is_pooling false) by done.
  rewrite Ha1, Ha2, Ha3, Hp1, Hp2, Hp3. fold N.
  repeat split; try lia.
  - assert (Hlen : forall l, Z.of_nat (length l) =
                             count is_conv l + count is_activation l
                             + count is_pooling l
                             + count (fun m => negb (is_conv m || is_activation m
                                                    || is_pooling m)) l).
    { induction l as [|m l IH]; [done|].
      unfold count in *. simpl.
      destruct m; simpl; lia. }
    rewrite Hlen.
    rewrite (count_fe_groups is_conv true), (count_fe_groups is_activation false),
      (count_fe_groups is_pooling false),
      (count_fe_groups (fun m => negb (is_conv m || is_activation m
                                       || is_pooling m)) false) by done.
    rewrite Ha1, Ha2, Ha3, Hp1, Hp2, Hp3. simpl. fold N. lia.
  - rewrite length_drop. fold N.
    pose proof (Z.div_mod N p ltac:(lia)).
    pose proof (Z.mod_pos_bound N p Hp).
    assert (0 <= p * (N / p)) by lia. lia.
Qed.

Lemma C2_witness :
  exists self s',
    new_ConvClassifier (H := reference_torch) sample_hparams 0%nat
    = (Ok self, s') /\
    feature_extractor self
    = Some (Sequential
              [Conv2d 3 8 3 1 0 1 true; ReLU; Conv2d 8 16 3 1 0 1 true; ReLU;
               MaxPool2d 2 2 0 1; Conv2d 16 32 3 1 0 1 true; ReLU]).
Proof.
  destruct (new_ConvClassifier (H := reference_torch) sample_hparams 0%nat)
    as [[self|e] s'] eqn:Hrun; [|vm_compute in Hrun; discriminate].
  exists self, s'. split; [reflexivity|].
  destruct (C2_feature_extractor_structure (H := reference_torch) sample_hparams 0%nat self s' Hrun)
    as (C & Hh & W & conv & pool & act & poolL & Hin & Hconv & Hpool & Hact &
        HpoolL & _ & _ & _ & Hfe & _).
  injection Hin as <- <- <-. injection Hconv as <-. injection Hpool as <-.
  injection Hact as <-. injection HpoolL as <-.
  exact Hfe.
Defined.

(** With [pool_every = -1] construction succeeds and a pooling layer
    follows the only convolution, whereas [floor(N/P)] is [-1]. *)
Lemma C2_counterexample :
  exists self s' fe,
    new_ConvClassifier (H := reference_torch) negative_pool_every 0%nat
    = (Ok self, s') /\
    feature_extractor self = Some (Sequential fe) /\
    fe = [Conv2d 3 8 3 1 0 1 true; ReLU; MaxPool2d 2 2 0 1] /\
    count is_pooling fe = 1 /\
    Z.of_nat (length (channels negative_pool_every))
      / pool_every negative_pool_every = -1.
Proof.
  eexists _, _, _. split; [vm_compute; reflexivity|].
  split; [reflexivity|]. split; [reflexivity|]. split; reflexivity.
Qed.

(** C6: for every [ConvClassifier] constructed successfully, the
    classifier is [(FC -> ACT)*M -> FC] with [M = len(hidden_dims)]:
    [M + 1] linear layers, the first taking [_n_features()] inputs,
    consecutive ones chaining through [hidden_dims] with one activation
    after each hidden linear layer, and the last one producing
    [out_classes] values with nothing after it. *)
Theorem C6_classifier_structure `{Torch} (a : hparams) s self s' :
  new_ConvClassifier a s = (Ok self, s') ->
  exists n act h1,
    (forall r, _n_features self r = (Ok n, r)) /\
    activation_of a = Some act /\ is_activation act = true /\
    head (hidden_dims a) = Some h1 /\
    let M := Z.of_nat (length (hidden_dims a)) in
    let cl := classifier_chain act n (hidden_dims a) (out_classes a) in
    classifier self = Some (Sequential cl) /\
    count is_linear cl = M + 1 /\
    count is_activation cl = M /\
    Z.of_nat (length cl) = 2 * M + 1 /\
    head cl = Some (Linear n h1) /\
    last cl = Some (Linear (List.last (hidden_dims a) n) (out_classes a)).
Proof.
  intros Hrun.
  apply new_ConvClassifier_Ok in Hrun
    as (C & Hh & W & conv & pool & act & poolL & Hin & _ & Hhd & _ & _ &
        _ & Hact & _ & _ & _ & -> & _).
  destruct (activation_of_kind _ _ Hact) as (Ha1 & _ & _ & Ha4).
  destruct (hidden_dims a) as [|h1 hidden] eqn:Ehd; [done|].
  eexists _, act, h1. split.
  { intros r. rewrite _n_features_run. reflexivity. }
  do 3 (split; [done|]).
  intros M cl. unfold cl. rewrite <- classifier_hidden_chain.
  split.
  { simpl. rewrite Ehd. reflexivity. }
  rewrite !count_app.
  rewrite (count_classifier_hidden is_linear true),
    (count_classifier_hidden is_activation false) by done.
  rewrite Ha1, Ha4. unfold count. simpl List.filter. fold M.
  repeat split; try (simpl length; lia).
  - rewrite length_app.
    assert (Hlen : forall d l, length (classifier_hidden act d l)
                               = (2 * length l)%nat).
    { intros d l. revert d. induction l as [|x l IH]; intros d; [done|].
      simpl. rewrite IH. lia. }
    rewrite Hlen. unfold M. simpl length. lia.
  - apply last_snoc.
Qed.

Lemma C6_witness :
  exists self s' n,
    new_ConvClassifier (H := reference_torch) sample_hparams 0%nat
    = (Ok self, s') /\
    classifier self
    = Some (Sequential
              [Linear n 100; ReLU; Linear 100 50; ReLU; Linear 50 10]).
Proof.
  destruct (new_ConvClassifier (H := reference_torch) sample_hparams 0%nat)
    as [[self|e] s'] eqn:Hrun; [|vm_compute in Hrun; discriminate].
  destruct (C6_classifier_structure (H := reference_torch)
              sample_hparams 0%nat self s' Hrun)
    as (n & act & h1 & Hn & Hact & _ & _ & Hcl & _).
  injection Hact as <-.
  exists self, s', n. split; [reflexivity|].
  exact Hcl.
Defined.

(** * The size update of the feature extractor *)

Section SizeUpdate.
Context `{Torch}.

(** The tracked sizes after one iteration, whatever the layers are. *)
Lemma fe_body_sizes conv pool filters idx st s st' s' :
  fe_body conv pool filters idx st s = (Ok st', s') ->
  fl_in_h st' =
    (if idx mod pool_every (hp (fl_self st)) =? 0
     then out_size_of pool (out_size_of conv (fl_in_h st))
     else out_size_of conv (fl_in_h st)) /\
  fl_in_w st' =
    (if idx mod pool_every (hp (fl_self st)) =? 0
     then out_size_of pool (out_size_of conv (fl_in_w st))
     else out_size_of conv (fl_in_w st)).
Proof.
  intros Hrun. unfold fe_body in Hrun.
  apply bind_Ok in Hrun as (cin & s1 & _ & Hrun).
  apply bind_Ok in Hrun as (cout & s2 & _ & Hrun).
  apply bind_Ok in Hrun as (c & s3 & _ & Hrun).
  apply bind_Ok in Hrun as (h1 & s4 & Hh & Hrun).
  apply out_size_Ok in Hh as (_ & -> & _).
  apply bind_Ok in Hrun as (w1 & s5 & Hw & Hrun).
  apply out_size_Ok in Hw as (_ & -> & _).
  apply bind_Ok in Hrun as (layers & s6 & _ & Hrun).
  apply bind_Ok in Hrun as (r & s7 & Hr & Hrun).
  apply py_mod_Ok in Hr as (_ & -> & _).
  destruct (idx mod pool_every (hp (fl_self st)) =? 0).
  - apply bind_Ok in Hrun as (layers' & s8 & _ & Hrun).
    apply bind_Ok in Hrun as (h2 & s9 & Hh & Hrun).
    apply out_size_Ok in Hh as (_ & -> & _).
    apply bind_Ok in Hrun as (w2 & s10 & Hw & Hrun).
    apply out_size_Ok in Hw as (_ & -> & _).
    apply bind_Ok in Hrun as (n & s11 & _ & Hrun).
    apply ret_Ok in Hrun as [<- _]. by split.
  - apply ret_Ok in Hrun as [<- _]. by split.
Qed.

Lemma quot_floor a b : 0 <= a -> 0 < b -> Z.quot a b = a / b.
Proof. intros. apply Z.quot_div_nonneg; lia. Qed.

End SizeUpdate.




(** * Construction that completes *)

Section Progress.
Context `{Torch}.

Lemma index_run {A} (l : list A) i x s :
  0 <= i -> l !! Z.to_nat i = Some x -> index l i s = (Ok x, s).
Proof. intros Hi Hl. by apply index_Ok_nonneg. Qed.

Lemma nn_run m s :
  accepts m = true -> nn m s = (Ok m, reset_parameters m s).
Proof. intros Hm. by apply nn_Ok. Qed.

Lemma getattr_run {A} name (o : option A) v s :
  o = Some v -> getattr name o s = (Ok v, s).
Proof. intros Ho. by apply getattr_Ok. Qed.

Lemma py_mod_run a b s : b <> 0 -> py_mod a b s = (Ok (a mod b), s).
Proof. intros Hb. by apply py_mod_Ok. Qed.

Lemma activation_of_valid a act :
  activation_of a = Some act ->
  activation_type a = "relu" \/ activation_type a = "lrelu".
Proof.
  unfold activation_of.
  destruct (String.eqb_spec (activation_type a) "relu"); [auto|].
  destruct (String.eqb_spec (activation_type a) "lrelu"); [auto|done].
Qed.

Lemma pooling_of_valid a pool poolL :
  pooling_of a pool = Some poolL ->
  pooling_type a = "max" \/ pooling_type a = "avg".
Proof.
  unfold pooling_of.
  destruct (String.eqb_spec (pooling_type a) "max"); [auto|].
  destruct (String.eqb_spec (pooling_type a) "avg"); [auto|done].
Qed.

Lemma fe_body_run conv pool act poolL filters idx cin cout n st s :
  1 <= idx ->
  filters !! Z.to_nat (idx - 1) = Some cin ->
  filters !! Z.to_nat idx = Some cout ->
  activation_of (hp (fl_self st)) = Some act ->
  pooling_of (hp (fl_self st)) pool = Some poolL ->
  pool_every (hp (fl_self st)) <> 0 ->
  g_stride conv <> 0 ->
  g_stride pool <> 0 ->
  pools_num (fl_self st) = Some n ->
  let pooled := idx mod pool_every (hp (fl_self st)) =? 0 in
  let new :=
    Conv2d cin cout (g_kernel conv) (g_stride conv) (g_padding conv)
           (g_dilation conv) true
    :: act :: (if pooled then [poolL] else []) in
  all_accepted new ->
  fe_body conv pool filters idx st s =
  (Ok {| fl_self := set_pools_num (fl_self st)
                                  (n + (if pooled then 1 else 0));
         fl_layers := fl_layers st ++ new;
         fl_in_h := (let h := out_size_of conv (fl_in_h st) in
                     if pooled then out_size_of pool h else h);
         fl_in_w := (let w := out_size_of conv (fl_in_w st) in
                     if pooled then out_size_of pool w else w) |},
   build_all s new).
Proof.
  intros Hidx Hcin Hcout Hact HpoolL HP Hsc Hsp Hn pooled new Hacc.
  unfold new in Hacc.
  apply Forall_cons in Hacc as [Hacc1 Hacc].
  apply Forall_cons in Hacc as [Hacc2 Hacc3].
  unfold fe_body.
  rewrite (bind_step _ _ _ _ _ (index_run filters (idx - 1) cin s ltac:(lia) Hcin)).
  rewrite (bind_step _ _ _ _ _ (index_run filters idx cout s ltac:(lia) Hcout)).
  rewrite (bind_step _ _ _ _ _ (nn_run _ s Hacc1)).
  rewrite (bind_step _ _ _ _ _ (out_size_run _ conv _ Hsc)).
  rewrite (bind_step _ _ _ _ _ (out_size_run _ conv _ Hsc)).
  erewrite bind_step; cycle 1.
  { rewrite fe_activation_run, Hact by (eapply activation_of_valid; eauto).
    rewrite (bind_step _ _ _ _ _ (nn_run _ _ Hacc2)). reflexivity. }
  rewrite (bind_step _ _ _ _ _ (py_mod_run _ _ _ HP)).
  fold pooled. unfold new. destruct pooled.
  - apply Forall_cons in Hacc3 as [Hacc3 _].
    erewrite bind_step; cycle 1.
    { destruct (make_pooling_run (fl_self st) pool
                  ((fl_layers st ++
                    [Conv2d cin cout (g_kernel conv) (g_stride conv)
                            (g_padding conv) (g_dilation conv) true]) ++
                   [act])
                  (reset_parameters act
                     (reset_parameters
                        (Conv2d cin cout (g_kernel conv) (g_stride conv)
                                (g_padding conv) (g_dilation conv) true) s))
                  (pooling_of_valid _ _ _ HpoolL)) as (p' & Hp' & ->).
      assert (p' = poolL) as -> by congruence.
      rewrite (bind_step _ _ _ _ _ (nn_run _ _ Hacc3)). reflexivity. }
    rewrite (bind_step _ _ _ _ _ (out_size_run _ pool _ Hsp)).
    rewrite (bind_step _ _ _ _ _ (out_size_run _ pool _ Hsp)).
    rewrite (bind_step _ _ _ _ _ (getattr_run _ _ n _ Hn)).
    unfold ret. simpl. do 3 f_equal. by rewrite <- !app_assoc.
  - unfold ret. simpl.
    rewrite Z.add_0_r, set_pools_num_id by done.
    by rewrite <- !app_assoc.
Qed.

Lemma fe_loop_run conv pool act poolL filters :
  forall chs firsts cin idx n st s,
    filters = firsts ++ cin :: chs ->
    idx = Z.of_nat (length firsts) + 1 ->
    activation_of (hp (fl_self st)) = Some act ->
    pooling_of (hp (fl_self st)) pool = Some poolL ->
    pool_every (hp (fl_self st)) <> 0 ->
    g_stride conv <> 0 ->
    g_stride pool <> 0 ->
    pools_num (fl_self st) = Some n ->
    let P := pool_every (hp (fl_self st)) in
    all_accepted (fe_layers conv act poolL P idx cin chs) ->
    for_each (range idx (idx + Z.of_nat (length chs)))
             (fe_body conv pool filters) st s =
    (Ok {| fl_self := set_pools_num (fl_self st) (n + fe_pools P idx chs);
           fl_layers := fl_layers st
                        ++ fe_layers conv act poolL P idx cin chs;
           fl_in_h := fe_size conv pool P idx chs (fl_in_h st);
           fl_in_w := fe_size conv pool P idx chs (fl_in_w st) |},
     build_all s (fe_layers conv act poolL P idx cin chs)).
Proof.
  induction chs as [|c chs IH];
    intros firsts cin idx n st s Hf Hidx Hact HpoolL HP Hsc Hsp Hn P Hacc.
  - rewrite range_nil by (simpl; lia). simpl. unfold ret.
    rewrite Z.add_0_r, app_nil_r, set_pools_num_id by done.
    by destruct st.
  - rewrite range_cons by (simpl; lia). simpl for_each.
    simpl in Hacc.
    change (Conv2d cin c (g_kernel conv) (g_stride conv) (g_padding conv)
                   (g_dilation conv) true
            :: act :: (if idx mod P =? 0 then [poolL] else [])
            ++ fe_layers conv act poolL P (idx + 1) c chs)
      with ((Conv2d cin c (g_kernel conv) (g_stride conv) (g_padding conv)
                    (g_dilation conv) true
             :: act :: (if idx mod P =? 0 then [poolL] else []))
            ++ fe_layers conv act poolL P (idx + 1) c chs) in Hacc.
    apply all_accepted_app in Hacc as [Hacc1 Hacc2].
    erewrite bind_step; cycle 1.
    { eapply (fe_body_run conv pool act poolL filters idx cin c n);
        try done; try lia.
      - subst filters idx.
        replace (Z.to_nat (Z.of_nat (length firsts) + 1 - 1))
          with (length firsts + 0)%nat by lia.
        rewrite lookup_app_r by lia.
        by replace (length firsts + 0 - length firsts)%nat with O by lia.
      - subst filters idx.
        replace (Z.to_nat (Z.of_nat (length firsts) + 1))
          with (length firsts + 1)%nat by lia.
        rewrite lookup_app_r by lia.
        by replace (length firsts + 1 - length firsts)%nat with 1%nat
          by lia. }
    replace (idx + Z.of_nat (S (length chs)))
      with (idx + 1 + Z.of_nat (length chs)) by lia.
    erewrite (IH (firsts ++ [cin]) c (idx + 1)
                 (n + (if idx mod P =? 0 then 1 else 0)));
      cbn [fl_self fl_layers fl_in_h fl_in_w]; try done.
    + change (hp (set_pools_num (fl_self st)
                                (n + (if idx mod P =? 0 then 1 else 0))))
        with (hp (fl_self st)).
      fold P. rewrite set_pools_num_twice, <- !app_assoc, <- Z.add_assoc.
      simpl. by destruct (idx mod P =? 0).
    + by rewrite <- app_assoc.
    + rewrite length_app. simpl. lia.
Qed.

Lemma cl_loop_run self act :
  forall hs firsts idx st s,
    hidden_dims (hp self) = firsts ++ hs ->
    idx = Z.of_nat (length firsts) ->
    activation_type (hp self) = "relu" \/ activation_type (hp self) = "lrelu" ->
    guarded_activation_of (activation_type (hp self))
                          (activation_params (hp self)) = Some act ->
    all_accepted (classifier_hidden act (cl_input_dimension st) hs) ->
    for_each (range idx (idx + Z.of_nat (length hs))) (cl_body self) st s =
    (Ok {| cl_layers := cl_layers st
                        ++ classifier_hidden act (cl_input_dimension st) hs;
           cl_input_dimension := List.last hs (cl_input_dimension st) |},
     build_all s (classifier_hidden act (cl_input_dimension st) hs)).
Proof.
  induction hs as [|h hs IH]; intros firsts idx st s Hhd Hidx Hv Hact Hacc.
  - rewrite range_nil by (simpl; lia). simpl. unfold ret.
    rewrite app_nil_r. by destruct st.
  - rewrite range_cons by (simpl; lia). simpl for_each.
    simpl in Hacc.
    apply Forall_cons in Hacc as [Hacc1 Hacc].
    apply Forall_cons in Hacc as [Hacc2 Hacc3].
    assert (Hh : hidden_dims (hp self) !! Z.to_nat idx = Some h).
    { rewrite Hhd, Hidx, Nat2Z.id, lookup_app_r by lia.
      by rewrite Nat.sub_diag. }
    erewrite bind_step; cycle 1.
    { unfold cl_body.
      rewrite (bind_step _ _ _ _ _
                (index_run (hidden_dims (hp self)) idx h s ltac:(lia) Hh)).
      rewrite (bind_step _ _ _ _ _ (nn_run _ s Hacc1)).
      erewrite bind_step; cycle 1.
      { rewrite guarded_activation_run, Hact by done.
        rewrite (bind_step _ _ _ _ _ (nn_run _ _ Hacc2)). reflexivity. }
      rewrite (bind_step _ _ _ _ _
                (index_run (hidden_dims (hp self)) idx h _ ltac:(lia) Hh)).
      reflexivity. }
    replace (idx + Z.of_nat (S (length hs)))
      with (idx + 1 + Z.of_nat (length hs)) by lia.
    assert (Hlast : List.last (h :: hs) (cl_input_dimension st)
                    = List.last hs h).
    { destruct hs as [|z hs]; [done|].
      change (List.last (z :: hs) (cl_input_dimension st)
              = List.last (z :: hs) h).
      apply last_cons_default. }
    erewrite (IH (firsts ++ [h]) (idx + 1)); cbn [cl_layers cl_input_dimension].
    + rewrite Hlast, <- !app_assoc. reflexivity.
    + by rewrite <- app_assoc.
    + rewrite length_app. simpl. lia.
    + done.
    + done.
    + done.
Qed.

Lemma make_feature_extractor_run self C Hh W conv pool act poolL cN s :
  in_size (hp self) = [C; Hh; W] ->
  last (channels (hp self)) = Some cN ->
  conv_geometry (conv_params (hp self)) = Some conv ->
  pool_geometry (pooling_params (hp self)) = Some pool ->
  activation_of (hp self) = Some act ->
  pooling_of (hp self) pool = Some poolL ->
  pool_every (hp self) <> 0 -> g_stride conv <> 0 -> g_stride pool <> 0 ->
  let P := pool_every (hp self) in
  let chs := channels (hp self) in
  all_accepted (fe_layers conv act poolL P 1 C chs) ->
  ConvClassifier_make_feature_extractor self s =
  (Ok (set_features_num
         (set_pools_num (set_features_num (set_pools_num self 0) 1)
                        (0 + fe_pools P 1 chs))
         (cN * fe_size conv pool P 1 chs Hh * fe_size conv pool P 1 chs W),
       Sequential ([] ++ fe_layers conv act poolL P 1 C chs)),
   build_all s (fe_layers conv act poolL P 1 C chs)).
Proof.
  intros Hin Hlast Hconv Hpool Hact HpoolL HP Hsc Hsp P chs Hacc.
  unfold ConvClassifier_make_feature_extractor.
  rewrite (bind_step _ _ _ (C, Hh, W) s); cycle 1.
  { by rewrite Hin. }
  cbv beta iota. cbn [hp set_features_num set_pools_num].
  rewrite (bind_step _ _ _ conv s); cycle 1.
  { by rewrite read_conv_params_run, Hconv. }
  rewrite (bind_step _ _ _ pool s); cycle 1.
  { by rewrite read_pooling_params_run, Hpool. }
  erewrite bind_step; cycle 1.
  { replace (Z.of_nat (length ([C] ++ channels (hp self))))
      with (1 + Z.of_nat (length (channels (hp self)))) by (simpl; lia).
    apply (fe_loop_run conv pool act poolL ([C] ++ channels (hp self))
                       (channels (hp self)) [] C 1 0); done. }
  cbn [fl_self fl_layers fl_in_h fl_in_w].
  erewrite (bind_step _ _ _ cN); cycle 1.
  { apply index_last_Ok. by split. }
  reflexivity.
Qed.

Lemma _make_classifier_run self act nf s :
  activation_type (hp self) = "relu" \/ activation_type (hp self) = "lrelu" ->
  guarded_activation_of (activation_type (hp self))
                        (activation_params (hp self)) = Some act ->
  features_num self = Some nf ->
  let new := classifier_hidden act nf (hidden_dims (hp self)) ++
             [Linear (List.last (hidden_dims (hp self)) nf)
                     (out_classes (hp self))] in
  all_accepted new ->
  _make_classifier self s = (Ok (Sequential new), build_all s new).
Proof.
  intros Hv Hact Hnf new Hacc. unfold new in *.
  apply all_accepted_app in Hacc as [Hacc1 Hacc2].
  apply Forall_cons in Hacc2 as [Hacc2 _].
  unfold _make_classifier.
  rewrite (bind_step _ _ _ nf s); cycle 1.
  { by rewrite _n_features_run, Hnf. }
  erewrite bind_step; cycle 1.
  { apply (cl_loop_run self act (hidden_dims (hp self)) [] 0); done. }
  cbn [cl_layers cl_input_dimension].
  rewrite (bind_step _ _ _ _ _ (nn_run _ _ Hacc2)).
  unfold ret. by rewrite build_all_app.
Qed.

(** Sufficient conditions for [ConvClassifier(...)] to return. *)
Lemma new_ConvClassifier_run a C Hh W conv pool act poolL s :
  in_size a = [C; Hh; W] ->
  channels a <> [] -> hidden_dims a <> [] ->
  conv_geometry (conv_params a) = Some conv ->
  pool_geometry (pooling_params a) = Some pool ->
  activation_of a = Some act ->
  pooling_of a pool = Some poolL ->
  pool_every a <> 0 -> g_stride conv <> 0 -> g_stride pool <> 0 ->
  all_accepted (built_layers a C Hh W conv pool act poolL) ->
  new_ConvClassifier a s =
  (Ok (built a C Hh W conv pool act poolL),
   build_all s (built_layers a C Hh W conv pool act poolL)).
Proof.
  intros Hin Hch Hhd Hconv Hpool Hact HpoolL HP Hsc Hsp Hacc.
  apply all_accepted_app in Hacc as [Hacc1 Hacc2].
  pose proof (activation_of_valid _ _ Hact) as Hva.
  pose proof (pooling_of_valid _ _ _ HpoolL) as Hvp.
  destruct (last (channels a)) as [cN|] eqn:Hlast.
  2:{ apply last_None in Hlast. contradiction. }
  pose proof (last_Some_last _ _ 0 Hlast) as HcN.
  unfold new_ConvClassifier, ConvClassifier_init.
  rewrite (bind_step _ _ _ tt s); cycle 1.
  { by destruct (channels a), (hidden_dims a). }
  rewrite (proj2 (contains_ACTIVATIONS _) Hva).
  rewrite (proj2 (contains_POOLINGS _) Hvp).
  cbn [negb orb].
  erewrite bind_step; cycle 1.
  { unfold _make_feature_extractor. cbn [cls].
    apply (make_feature_extractor_run _ C Hh W conv pool act poolL cN);
      done. }
  cbn [fst snd].
  erewrite bind_step; cycle 1.
  { apply (_make_classifier_run _ act); cbn [hp set_feature_extractor
                                               set_features_num
                                               set_pools_num features_num];
      [done | by apply activation_of_guarded | reflexivity |].
    rewrite <- HcN. exact Hacc2. }
  unfold ret, built, built_layers. rewrite HcN.
  f_equal. symmetry. apply build_all_app.
Qed.

End Progress.

(** * Exceptions raised after the argument validation *)

Section Exceptions.
Context `{Torch}.

Lemma raises_only_ret {A} P (a : A) : raises_only P (ret a).
Proof. intros s e s'. discriminate. Qed.

Lemma raises_only_raise {A} (P : exn -> Prop) e :
  P e -> raises_only (A := A) P (raise e).
Proof. intros He s e' s' [= <- _]. exact He. Qed.

Lemma raises_only_bind {A B} P (m : M A) (f : A -> M B) :
  raises_only P m -> (forall a, raises_only P (f a)) ->
  raises_only P (bind m f).
Proof.
  intros Hm Hf s e s' Hrun.
  apply bind_Raise in Hrun as [Hrun | (a & s1 & _ & Hrun)].
  - eapply Hm, Hrun.
  - eapply Hf, Hrun.
Qed.

Lemma raises_only_nn m : raises_only past_validation (nn m).
Proof.
  intros s e s'. unfold nn. destruct (accepts m); [discriminate|].
  intros [= <- _]. by split.
Qed.

Lemma raises_only_getitem {V} (d : gmap string V) k :
  raises_only past_validation (getitem d k).
Proof.
  intros s e s'. unfold getitem. destruct (d !! k); [discriminate|].
  intros [= <- _]. by split.
Qed.

Lemma raises_only_getattr {A} name (o : option A) :
  raises_only past_validation (getattr name o).
Proof.
  intros s e s'. unfold getattr. destruct o; [discriminate|].
  intros [= <- _]. by split.
Qed.

Lemma raises_only_unpack3 xs : raises_only past_validation (unpack3 xs).
Proof.
  intros s e s'. unfold unpack3.
  destruct xs as [|a [|b [|c [|d xs]]]]; try discriminate;
    intros [= <- _]; by split.
Qed.

Lemma raises_only_index {A} (l : list A) i :
  raises_only past_validation (index l i).
Proof.
  intros s e s'. unfold index.
  destruct (_ || _); [intros [= <- _]; by split|].
  destruct (l !! _); [discriminate|]. intros [= <- _]; by split.
Qed.

Lemma raises_only_int_truediv a b :
  raises_only past_validation (int_truediv a b).
Proof.
  intros s e s'. unfold int_truediv. destruct (b =? 0); [|discriminate].
  intros [= <- _]. by split.
Qed.

Lemma raises_only_py_mod a b : raises_only past_validation (py_mod a b).
Proof.
  intros s e s'. unfold py_mod. destruct (b =? 0); [|discriminate].
  intros [= <- _]. by split.
Qed.

Lemma raises_only_for_each {A S} P (body : A -> S -> M S) xs :
  (forall x st, raises_only P (body x st)) ->
  forall st, raises_only P (for_each xs body st).
Proof.
  intros Hbody. induction xs as [|x xs IH]; intros st.
  - apply raises_only_ret.
  - simpl. apply raises_only_bind; [apply Hbody | exact IH].
Qed.

Lemma raises_only__n_features self :
  raises_only past_validation (_n_features self).
Proof.
  intros s e s'. rewrite _n_features_run.
  destruct (features_num self); [discriminate|].
  intros [= <- _]. by split.
Qed.

End Exceptions.

(** Decomposes a goal [raises_only past_validation m] along the structure
    of [m]. *)
Ltac raises_only_step :=
  lazymatch goal with
  | |- raises_only _ (bind _ _) => apply raises_only_bind; [|intros ?]
  | |- raises_only _ (ret _) => apply raises_only_ret
  | |- raises_only _ (raise _) => apply raises_only_raise; by split
  | |- raises_only _ (nn _) => apply raises_only_nn
  | |- raises_only _ (getitem _ _) => apply raises_only_getitem
  | |- raises_only _ (getattr _ _) => apply raises_only_getattr
  | |- raises_only _ (unpack3 _) => apply raises_only_unpack3
  | |- raises_only _ (index _ _) => apply raises_only_index
  | |- raises_only _ (int_truediv _ _) => apply raises_only_int_truediv
  | |- raises_only _ (py_mod _ _) => apply raises_only_py_mod
  | |- raises_only _ (_n_features _) => apply raises_only__n_features
  | |- raises_only _ (for_each _ _ _) =>
      apply raises_only_for_each; intros ? ?
  | |- raises_only _ (if ?b then _ else _) => destruct b
  | |- raises_only _ (match ?x with _ => _ end) => destruct x
  | |- raises_only _ (let '(_, _) := ?x in _) => destruct x
  end.

Ltac raises_only_auto unf := repeat (first [raises_only_step | progress unf]).

Section ExceptionsOfConstruction.
Context `{Torch}.

Lemma raises_only_make_feature_extractor self :
  raises_only past_validation (ConvClassifier_make_feature_extractor self).
Proof.
  unfold ConvClassifier_make_feature_extractor.
  raises_only_auto
    ltac:(unfold read_conv_params, read_pooling_params, fe_body, out_size,
           fe_activation, make_pooling, call_activation, call_pooling).
Qed.

Lemma raises_only_make_classifier self :
  raises_only past_validation (_make_classifier self).
Proof.
  unfold _make_classifier.
  raises_only_auto
    ltac:(unfold cl_body, guarded_activation, call_activation).
Qed.

End ExceptionsOfConstruction.

(** * Argument validation and the mandatory kernel size *)

Section Validation.
Context `{Torch}.

Lemma valid_types_contains a :
  negb (contains (activation_type a) ACTIVATIONS)
  || negb (contains (pooling_type a) POOLINGS) = false <-> valid_types a.
Proof.
  unfold valid_types.
  rewrite orb_false_iff, !negb_false_iff, contains_ACTIVATIONS,
    contains_POOLINGS. done.
Qed.

(** The three ways [ConvClassifier.__init__] can go. *)
Lemma new_ConvClassifier_cases a s :
  (channels a = [] \/ hidden_dims a = [] ->
   new_ConvClassifier a s = (Raise AssertionError, s)) /\
  (channels a <> [] -> hidden_dims a <> [] -> ~ valid_types a ->
   new_ConvClassifier a s =
   (Raise (ValueError "Unsupported activation or pooling type"), s)) /\
  (channels a <> [] -> hidden_dims a <> [] -> valid_types a ->
   forall e s', new_ConvClassifier a s = (Raise e, s') ->
                past_validation e).
Proof.
  unfold new_ConvClassifier, ConvClassifier_init.
  split; [|split].
  - intros Hempty. apply bind_fail.
    assert (truthy (channels a) && truthy (hidden_dims a) = false) as ->.
    { destruct Hempty as [-> | ->]; [done|]. by rewrite andb_false_r. }
    reflexivity.
  - intros Hch Hhd Hv.
    rewrite (bind_step _ _ _ tt s); cycle 1.
    { by destruct (channels a), (hidden_dims a). }
    destruct (negb (contains (activation_type a) ACTIVATIONS)
              || negb (contains (pooling_type a) POOLINGS)) eqn:E;
      [reflexivity|].
    apply valid_types_contains in E. contradiction.
  - intros Hch Hhd Hv e s'.
    rewrite (bind_step _ _ _ tt s); cycle 1.
    { by destruct (channels a), (hidden_dims a). }
    rewrite (proj2 (valid_types_contains a) Hv).
    revert s e s'.
    change (raises_only past_validation
              (bind (_make_feature_extractor
                       {| cls := ConvClassifier_class; hp := a;
                          batchnorm := None; dropout := None;
                          pools_num := None; features_num := None;
                          feature_extractor := None; classifier := None;
                          dropout_module := None |})
                    (fun sf =>
                       bind (_make_classifier
                               (set_feature_extractor (fst sf) (snd sf)))
                            (fun cl =>
                               ret (set_classifier
                                      (set_feature_extractor (fst sf) (snd sf))
                                      cl))))).
    apply raises_only_bind.
    + apply raises_only_make_feature_extractor.
    + intros sf. apply raises_only_bind.
      * apply raises_only_make_classifier.
      * intros cl. apply raises_only_ret.
Qed.

Lemma valid_types_dec a : valid_types a \/ ~ valid_types a.
Proof.
  unfold valid_types.
  destruct (decide (activation_type a = "relu")),
           (decide (activation_type a = "lrelu")),
           (decide (pooling_type a = "max")),
           (decide (pooling_type a = "avg")); tauto.
Qed.

(** Without a kernel size nothing is built. *)
Lemma new_ConvClassifier_no_kernel_size a C Hh W s :
  in_size a = [C; Hh; W] ->
  channels a <> [] -> hidden_dims a <> [] -> valid_types a ->
  conv_params a !! "kernel_size" = None
  \/ pooling_params a !! "kernel_size" = None ->
  new_ConvClassifier a s = (Raise (KeyError "kernel_size"), s).
Proof.
  intros Hin Hch Hhd Hv Hk.
  unfold new_ConvClassifier, ConvClassifier_init.
  rewrite (bind_step _ _ _ tt s); cycle 1.
  { by destruct (channels a), (hidden_dims a). }
  rewrite (proj2 (valid_types_contains a) Hv).
  apply bind_fail.
  unfold _make_feature_extractor. cbn [cls].
  unfold ConvClassifier_make_feature_extractor. cbn [hp].
  rewrite (bind_step _ _ _ (C, Hh, W) s); cycle 1.
  { by rewrite Hin. }
  cbv beta iota. cbn [hp set_features_num set_pools_num].
  destruct (conv_geometry (conv_params a)) as [conv|] eqn:Econv.
  - rewrite (bind_step _ _ _ conv s); cycle 1.
    { by rewrite read_conv_params_run, Econv. }
    apply bind_fail. rewrite read_pooling_params_run.
    unfold pool_geometry.
    destruct Hk as [Hk|Hk]; [|by rewrite Hk].
    unfold conv_geometry in Econv. by rewrite Hk in Econv.
  - apply bind_fail. by rewrite read_conv_params_run, Econv.
Qed.

End Validation.




(** C10: [conv_params] and [pooling_params] default to empty
    dictionaries, yet construction reads ['kernel_size'] from both
    unconditionally: when the other arguments are valid and either
    dictionary lacks ['kernel_size'], [__init__] raises [KeyError] with
    the generator state untouched, hence before any layer is built.
    Stride, padding and dilation are optional: with a ['kernel_size']
    present the readers return, filling in stride 1 (for pooling: the
    kernel size), padding 0 and dilation 1 for the keys that are
    absent. *)
Theorem C10_kernel_size_required `{Torch} (a : hparams) C Hh W s :
  in_size a = [C; Hh; W] ->
  channels a <> [] -> hidden_dims a <> [] -> valid_types a ->
  (conv_params a !! "kernel_size" = None
   \/ pooling_params a !! "kernel_size" = None ->
   new_ConvClassifier a s = (Raise (KeyError "kernel_size"), s)) /\
  (forall (d : gmap string Z) k r,
      d !! "kernel_size" = Some k ->
      read_conv_params d r =
      (Ok {| g_kernel := k;
             g_stride := default 1 (d !! "stride");
             g_padding := default 0 (d !! "padding");
             g_dilation := default 1 (d !! "dilation") |}, r) /\
      read_pooling_params d r =
      (Ok {| g_kernel := k;
             g_stride := default k (d !! "stride");
             g_padding := default 0 (d !! "padding");
             g_dilation := default 1 (d !! "dilation") |}, r)).
Proof.
  intros Hin Hch Hhd Hv. split.
  - by apply new_ConvClassifier_no_kernel_size with C Hh W.
  - intros d k r Hk.
    rewrite read_conv_params_run, read_pooling_params_run.
    unfold conv_geometry, pool_geometry. by rewrite Hk.
Qed.

Lemma C10_witness :
  new_ConvClassifier (H := logging_torch)
                     (with_defaults [3; 32; 32] 10 [8] 1 [10]) []
  = (Raise (KeyError "kernel_size"), []).
Proof.
  apply (C10_kernel_size_required
           (H := logging_torch) (with_defaults [3; 32; 32] 10 [8] 1 [10])
           3 32 32 []); try done.
  - split; by left.
  - by left.
Defined.

(** * Residual blocks *)

Section ResidualBlocks.
Context `{Torch}.

Lemma channels_through_app ms1 ms2 c :
  channels_through (ms1 ++ ms2) c =
  match channels_through ms1 c with
  | Some c' => channels_through ms2 c'
  | None => None
  end.
Proof.
  revert c. induction ms1 as [|m ms1 IH]; intros c; [done|].
  destruct m; simpl; try apply IH.
  - destruct (c =? in_channels); [apply IH | done].
  - destruct (c =? num_features); [apply IH | done].
Qed.

Lemma guarded_activation_Ok t p layers s layers' s' :
  t = "relu" \/ t = "lrelu" ->
  guarded_activation t p layers s = (Ok layers', s') ->
  exists act,
    guarded_activation_of t p = Some act /\
    layers' = layers ++ [act] /\
    accepts act = true /\
    s' = reset_parameters act s /\
    is_activation act = true.
Proof.
  intros Hv Hrun. rewrite guarded_activation_run in Hrun by done.
  destruct (guarded_activation_of t p) as [act|] eqn:Eact; [|discriminate].
  apply bind_Ok in Hrun as (a & s1 & Ha & Hrun).
  apply nn_Ok in Ha as (Hacc & -> & ->).
  apply ret_Ok in Hrun as [<- <-].
  exists act. repeat split; try done.
  unfold guarded_activation_of in Eact.
  destruct (t =? "relu")%string; [by injection Eact as <-|].
  destruct (t =? "lrelu")%string; [|done].
  destruct (bool_decide (p = ∅)); [by injection Eact as <-|].
  destruct (p !! "negative_slope"); [by injection Eact as <-|done].
Qed.

Lemma is_activation_main_path_layer act :
  is_activation act = true -> main_path_layer act.
Proof. by destruct act. Qed.

Lemma build_all_snoc s ms m :
  build_all s (ms ++ [m]) = reset_parameters m (build_all s ms).
Proof. by rewrite build_all_app. Qed.

Lemma all_accepted_snoc ms m :
  all_accepted ms -> accepts m = true -> all_accepted (ms ++ [m]).
Proof.
  intros Hms Hm. apply all_accepted_app. split; [done|]. by repeat constructor.
Qed.

Lemma main_path_snoc ms m :
  Forall main_path_layer ms -> main_path_layer m ->
  Forall main_path_layer (ms ++ [m]).
Proof. intros Hms Hm. apply Forall_app. split; [done|]. by repeat constructor. Qed.

(** One iteration of the loop at lines 239-258. *)
Lemma rb_body_Ok in_channels s0 channels kernel_sizes bn dp t ap i ch st s c s' :
  0 <= i ->
  forallb (fun x => x mod 2 =? 1) kernel_sizes = true ->
  t = "relu" \/ t = "lrelu" ->
  rb_inv in_channels s0 st s ->
  rb_body channels kernel_sizes bn dp t ap (i, ch) st s = (Ok c, s') ->
  match c with
  | Break st' =>
      i = Z.of_nat (length channels) - 1 /\
      rb_inv in_channels s0 st' s' /\ rb_tmp_in_channels st' = ch
  | Next st' =>
      i <> Z.of_nat (length channels) - 1 /\
      rb_inv in_channels s0 st' s' /\ rb_tmp_in_channels st' = ch
  end.
Proof.
  intros Hi Hodd Hv (Hs & Hacc & Hmain & Hch) Hrun.
  unfold rb_body in Hrun.
  apply bind_Ok in Hrun as (k & s1 & Hk & Hrun).
  apply index_Ok_nonneg in Hk as [Hk ->]; [|done].
  apply bind_Ok in Hrun as (k' & s1 & Hk' & Hrun).
  apply index_Ok_nonneg in Hk' as [Hk' ->]; [|done].
  assert (k' = k) as -> by congruence.
  apply bind_Ok in Hrun as (pad & s1 & Hpad & Hrun).
  apply int_truediv_Ok in Hpad as (_ & -> & ->).
  apply bind_Ok in Hrun as (cv & s1 & Hcv & Hrun).
  apply nn_Ok in Hcv as (Hacc1 & -> & ->).
  assert (Hkodd : k mod 2 = 1).
  { rewrite forallb_forall in Hodd.
    apply Z.eqb_eq, Hodd, list_elem_of_In, list_elem_of_lookup. eauto. }
  assert (Hinv1 :
            rb_inv in_channels s0
                   {| rb_main := rb_main st
                                 ++ [Conv2d (rb_tmp_in_channels st) ch k 1
                                            (Z.quot k 2) 1 true];
                      rb_tmp_in_channels := ch |}
                   (reset_parameters
                      (Conv2d (rb_tmp_in_channels st) ch k 1 (Z.quot k 2) 1
                              true) s)).
  { unfold rb_inv. cbn [rb_main rb_tmp_in_channels]. repeat split.
    - by rewrite build_all_snoc, Hs.
    - by apply all_accepted_snoc.
    - by apply main_path_snoc.
    - rewrite channels_through_app, Hch. simpl. by rewrite Z.eqb_refl. }
  destruct (Z.eqb_spec i (Z.of_nat (length channels) - 1)) as [Hlast|Hlast].
  - apply ret_Ok in Hrun as [<- <-]. done.
  - apply bind_Ok in Hrun as (d & s1 & Hd & Hrun).
    apply nn_Ok in Hd as (Hacc2 & -> & ->).
    apply bind_Ok in Hrun as (main & s1 & Hbn & Hrun).
    apply bind_Ok in Hrun as (main' & s2 & Hga & Hrun).
    apply ret_Ok in Hrun as [<- <-].
    apply guarded_activation_Ok in Hga
      as (act & _ & -> & Hacc4 & -> & Hkind); [|done].
    destruct Hinv1 as (Hs1 & Hacc1' & Hmain1 & Hch1).
    cbn [rb_main rb_tmp_in_channels] in *.
    split; [done|]. split; [|done].
    destruct bn.
    + apply bind_Ok in Hbn as (b & s3 & Hb & Hbn).
      apply nn_Ok in Hb as (Hacc3 & -> & ->).
      apply ret_Ok in Hbn as [<- <-].
      unfold rb_inv. cbn [rb_main rb_tmp_in_channels]. repeat split.
      * by rewrite !build_all_snoc, <- Hs.
      * by repeat apply all_accepted_snoc.
      * repeat apply main_path_snoc; try done.
        by apply is_activation_main_path_layer.
      * rewrite !channels_through_app, Hch. simpl.
        rewrite !Z.eqb_refl. by destruct act.
    + apply ret_Ok in Hbn as [<- <-].
      unfold rb_inv. cbn [rb_main rb_tmp_in_channels]. repeat split.
      * by rewrite !build_all_snoc, <- Hs.
      * by repeat apply all_accepted_snoc.
      * repeat apply main_path_snoc; try done.
        by apply is_activation_main_path_layer.
      * rewrite !channels_through_app, Hch. simpl.
        rewrite !Z.eqb_refl. by destruct act.
Qed.

(** The loop over [enumerate(channels)], from position [i] on. *)
Lemma rb_loop_Ok in_channels s0 channels kernel_sizes bn dp t ap :
  forallb (fun x => x mod 2 =? 1) kernel_sizes = true ->
  t = "relu" \/ t = "lrelu" ->
  forall rest firsts i st s st' s',
    channels = firsts ++ rest ->
    i = Z.of_nat (length firsts) ->
    rest <> [] ->
    rb_inv in_channels s0 st s ->
    for_each_break (zip (range i (i + Z.of_nat (length rest))) rest)
                   (rb_body channels kernel_sizes bn dp t ap) st s
    = (Ok st', s') ->
    rb_inv in_channels s0 st' s' /\
    last rest = Some (rb_tmp_in_channels st').
Proof.
  intros Hodd Hv.
  induction rest as [|ch rest IH];
    intros firsts i st s st' s' Hchs Hi Hne Hinv Hrun; [done|].
  rewrite range_cons in Hrun by (simpl; lia).
  simpl in Hrun. apply bind_Ok in Hrun as (c & s1 & Hb & Hrun).
  eapply rb_body_Ok in Hb; eauto; [|lia].
  destruct c as [st1|st1].
  - destruct Hb as (Hnl & Hinv1 & Htmp).
    destruct rest as [|ch' rest].
    { exfalso. apply Hnl. subst channels i.
      rewrite length_app. simpl. lia. }
    replace (i + Z.of_nat (S (length (ch' :: rest))))
      with (i + 1 + Z.of_nat (length (ch' :: rest))) in Hrun by lia.
    eapply (IH (firsts ++ [ch]) (i + 1)) in Hrun; eauto.
    + by rewrite <- app_assoc.
    + rewrite length_app. simpl. lia.
  - destruct Hb as (Hl & Hinv1 & Htmp).
    apply ret_Ok in Hrun as [<- <-].
    destruct rest as [|ch' rest].
    + split; [done|]. simpl. by rewrite Htmp.
    + exfalso. subst channels i. rewrite length_app in Hl.
      simpl in Hl. lia.
Qed.

(** What a residual block is when its constructor returns. *)
Lemma ResidualBlock_init_Ok in_channels channels kernel_sizes bn dp t ap
      s b s' :
  ResidualBlock_init in_channels channels kernel_sizes bn dp t ap s
  = (Ok b, s') ->
  exists main cN,
    last channels = Some cN /\
    length channels = length kernel_sizes /\
    b = ResidualBlock (Sequential main)
                      (Sequential (shortcut_layers in_channels cN)) /\
    Forall main_path_layer main /\
    channels_through main in_channels = Some cN /\
    all_accepted (main ++ shortcut_layers in_channels cN) /\
    s' = build_all s (main ++ shortcut_layers in_channels cN).
Proof.
  unfold ResidualBlock_init. intros Hrun.
  apply bind_Ok in Hrun as ([] & s1 & Ha & Hrun).
  apply py_assert_Ok in Ha as [Hne ->].
  apply bind_Ok in Hrun as ([] & s1 & Ha & Hrun).
  apply py_assert_Ok in Ha as [Hlen ->].
  apply bind_Ok in Hrun as ([] & s1 & Ha & Hrun).
  apply py_assert_Ok in Ha as [Hodd ->].
  destruct (negb (contains t ACTIVATIONS)) eqn:Et; [discriminate|].
  apply negb_false_iff, contains_ACTIVATIONS in Et.
  apply bind_Ok in Hrun as (st & s1 & Hloop & Hrun).
  apply andb_true_iff in Hne as [Hne _].
  apply Nat.eqb_eq in Hlen.
  unfold enumerate in Hloop.
  assert (Hinv0 : rb_inv in_channels s
                          {| rb_main := []; rb_tmp_in_channels := in_channels |}
                          s).
  { repeat split; constructor. }
  assert (Hchne : channels <> []) by (by destruct channels).
  destruct (rb_loop_Ok in_channels s channels kernel_sizes bn dp t ap Hodd Et
                       channels [] 0 _ _ _ _ eq_refl eq_refl Hchne Hinv0 Hloop)
    as ((Hs & Hacc & Hmain & Hch) & Hlast).
  simpl in Hs, Hacc, Hmain, Hch.
  exists (rb_main st), (rb_tmp_in_channels st).
  do 2 (split; [done|]).
  unfold shortcut_layers.
  destruct (Z.eqb_spec (rb_tmp_in_channels st) in_channels) as [E|E];
    simpl in Hrun.
  - apply ret_Ok in Hrun as [<- <-]. rewrite app_nil_r. done.
  - apply bind_Ok in Hrun as (c & s2 & Hc & Hrun).
    apply nn_Ok in Hc as (Hacc1 & -> & ->).
    apply ret_Ok in Hrun as [<- <-].
    repeat split; try done.
    + apply all_accepted_app. split; [done|]. by repeat constructor.
    + by rewrite build_all_snoc, Hs.
Qed.

End ResidualBlocks.

(** * Shapes through a residual block *)

Section BlockShapes.
Context `{Torch}.

Lemma same_padding_size k size :
  k mod 2 = 1 -> 0 <= k ->
  floor_out_size {| g_kernel := k; g_stride := 1; g_padding := Z.quot k 2;
                    g_dilation := 1 |} size = size.
Proof.
  intros Hodd Hk. unfold floor_out_size. simpl.
  rewrite Z.quot_div_nonneg by lia. rewrite Z.div_1_r.
  pose proof (Z.div_mod k 2 ltac:(lia)). lia.
Qed.

(** A main path whose kernels are not negative keeps the spatial extent
    and ends with the channel count [channels_through] computes. *)
Lemma forward_shape_main_path ms :
  Forall main_path_layer ms ->
  Forall (fun m => match m with
                   | Conv2d _ _ k _ _ _ _ => 0 <= k
                   | _ => True
                   end) ms ->
  forall c c' Hh W,
    channels_through ms c = Some c' ->
    forward_shape (Sequential ms) (c, Hh, W) = Some (c', Hh, W).
Proof.
  induction ms as [|m ms IH]; intros Hmain Hk c c' Hh W Hch.
  - simpl in *. congruence.
  - apply Forall_cons in Hmain as [Hm Hmain].
    apply Forall_cons in Hk as [Hkm Hk].
    specialize (IH Hmain Hk).
    destruct m; try done; simpl in Hch |- *; try (by apply IH).
    + destruct Hm as (Hodd & -> & -> & -> & _).
      destruct (c =? in_channels); [|done].
      rewrite !same_padding_size by done. by apply IH.
    + destruct (c =? num_features); [|done]. by apply IH.
Qed.

Lemma shortcut_shape cin cout Hh W :
  forward_shape (Sequential (shortcut_layers cin cout)) (cin, Hh, W)
  = Some (cout, Hh, W).
Proof.
  unfold shortcut_layers. destruct (Z.eqb_spec cout cin) as [->|Hne]; [done|].
  simpl. rewrite Z.eqb_refl. unfold floor_out_size. simpl.
  rewrite !Z.div_1_r. do 3 f_equal; lia.
Qed.

Lemma reference_accepts_kernel ic oc k st p d b :
  reference_accepts (Conv2d ic oc k st p d b) = true -> 0 <= k.
Proof.
  simpl. rewrite !andb_true_iff. intros [_ Hk]. by apply Z.leb_le.
Qed.

End BlockShapes.



(** C9: for every [ResidualBottleneckBlock] constructed successfully the
    underlying [ResidualBlock] is built with channels
    [[inner_channels[0]] + inner_channels + [in_out_channels]] and kernel
    sizes [[1] + inner_kernel_sizes + [1]]; the main path takes
    [in_out_channels] channels back to [in_out_channels] channels, and
    the shortcut path is the empty container. *)
Theorem C9_bottleneck_block `{Torch} in_out_channels inner_channels
        inner_kernel_sizes kwargs s b s' :
  ResidualBottleneckBlock_init in_out_channels inner_channels
                               inner_kernel_sizes kwargs s = (Ok b, s') ->
  exists c0 main,
    head inner_channels = Some c0 /\
    ResidualBlock_init
      in_out_channels
      ([c0] ++ inner_channels ++ [in_out_channels])
      ([1] ++ inner_kernel_sizes ++ [1])
      (default false (kw_batchnorm kwargs))
      (default (0 # 1) (kw_dropout kwargs))
      (default "relu" (kw_activation_type kwargs))
      (default ∅ (kw_activation_params kwargs)) s = (Ok b, s') /\
    b = ResidualBlock (Sequential main) (Sequential []) /\
    channels_through main in_out_channels = Some in_out_channels.
Proof.
  unfold ResidualBottleneckBlock_init. intros Hrun.
  apply bind_Ok in Hrun as (c0 & s1 & Hc0 & Hrun).
  apply index_Ok_nonneg in Hc0 as [Hc0 ->]; [|done].
  pose proof Hrun as Hblock.
  apply ResidualBlock_init_Ok in Hrun
    as (main & cN & Hlast & _ & -> & _ & Hch & _).
  assert (cN = in_out_channels) as ->.
  { change ([c0] ++ inner_channels ++ [in_out_channels])
      with ((c0 :: inner_channels) ++ [in_out_channels]) in Hlast.
    rewrite last_snoc in Hlast. congruence. }
  exists c0, main. split; [by destruct inner_channels|].
  split; [exact Hblock|]. split; [|exact Hch].
  unfold shortcut_layers. by rewrite Z.eqb_refl.
Qed.

Lemma C9_witness :
  exists b s' main,
    ResidualBottleneckBlock_init
      (H := reference_torch) 256 [64; 32] [3; 5]
      {| kw_batchnorm := None; kw_dropout := None;
         kw_activation_type := Some "lrelu";
         kw_activation_params := None |} 0%nat = (Ok b, s') /\
    b = ResidualBlock (Sequential main) (Sequential []).
Proof.
  destruct (ResidualBottleneckBlock_init
              (H := reference_torch) 256 [64; 32] [3; 5]
              {| kw_batchnorm := None; kw_dropout := None;
                 kw_activation_type := Some "lrelu";
                 kw_activation_params := None |} 0%nat)
    as [[b|e] s'] eqn:Hrun; [|vm_compute in Hrun; discriminate].
  destruct (C9_bottleneck_block (H := reference_torch) _ _ _ _ _ _ _ Hrun)
    as (c0 & main & _ & _ & Hb & _).
  exists b, s', main. split; [reflexivity | exact Hb].
Defined.

(** * The layers built, in order *)

Section Traces.
Context `{Torch}.

Lemma main_path_leaves ms :
  Forall main_path_layer ms -> flat_map leaves ms = ms.
Proof.
  induction ms as [|m ms IH]; [done|]. intros Hms.
  apply Forall_cons in Hms as [Hm Hms]. simpl. rewrite IH by done.
  by destruct m.
Qed.

Lemma shortcut_leaves cin cout :
  flat_map leaves (shortcut_layers cin cout) = shortcut_layers cin cout.
Proof. unfold shortcut_layers. by destruct (cout =? cin). Qed.

(** Building a block advances the generator by its primitive layers. *)
Lemma ResidualBlock_init_trace in_channels channels kernel_sizes bn dp t ap
      s b s' :
  ResidualBlock_init in_channels channels kernel_sizes bn dp t ap s
  = (Ok b, s') ->
  s' = build_all s (leaves b).
Proof.
  intros Hrun.
  apply ResidualBlock_init_Ok in Hrun
    as (main & cN & _ & _ & -> & Hmain & _ & _ & ->).
  simpl. by rewrite main_path_leaves, shortcut_leaves.
Qed.

Lemma flat_map_snoc {A B} (f : A -> list B) l x :
  flat_map f (l ++ [x]) = flat_map f l ++ f x.
Proof. by rewrite flat_map_app; simpl; rewrite app_nil_r. Qed.

Lemma make_pooling_trace self pool layers s layers' s' :
  pooling_type (hp self) = "max" \/ pooling_type (hp self) = "avg" ->
  make_pooling self pool layers s = (Ok layers', s') ->
  exists p, layers' = layers ++ [p] /\ leaves p = [p] /\
            s' = reset_parameters p s.
Proof.
  intros Hv Hrun.
  destruct (make_pooling_run self pool layers s Hv) as (p & Hp & Hrun').
  rewrite Hrun' in Hrun.
  apply bind_Ok in Hrun as (p' & s1 & Hnn & Hrun).
  apply nn_Ok in Hnn as (_ & -> & ->).
  apply ret_Ok in Hrun as [<- <-].
  exists p. repeat split.
  apply pooling_of_kind in Hp as (Hk & _). by destruct p.
Qed.

Lemma index_Ok_state {A} (l : list A) i x s s' :
  index l i s = (Ok x, s') -> s' = s.
Proof.
  unfold index. destruct (_ || _); [discriminate|].
  destruct (l !! _); [|discriminate]. by intros [= _ <-].
Qed.

(** The classifier holds the layers built for it, in the order in which
    they were built. *)
Lemma _make_classifier_trace self s cl s' :
  activation_type (hp self) = "relu" \/ activation_type (hp self) = "lrelu" ->
  _make_classifier self s = (Ok cl, s') ->
  exists layers, cl = Sequential layers /\ flat_map leaves layers = layers /\
                 s' = build_all s layers.
Proof.
  intros Hv Hrun. unfold _make_classifier in Hrun.
  apply bind_Ok in Hrun as (nf & s1 & Hn & Hrun).
  rewrite _n_features_run in Hn.
  destruct (features_num self); [|discriminate]. injection Hn as <- <-.
  apply bind_Ok in Hrun as (st & s1 & Hloop & Hrun).
  apply (for_each_invariant
           (fun st s1 => s1 = build_all s (cl_layers st) /\
                         flat_map leaves (cl_layers st) = cl_layers st))
    in Hloop; [| |done].
  - destruct Hloop as [-> Hleaves].
    apply bind_Ok in Hrun as (l & s2 & Hl & Hrun).
    apply nn_Ok in Hl as (_ & -> & ->).
    apply ret_Ok in Hrun as [<- <-].
    eexists. split; [reflexivity|]. split.
    + by rewrite flat_map_snoc, Hleaves.
    + by rewrite build_all_snoc.
  - intros x st0 s0 st' s0' _ [-> Hleaves] Hbody.
    unfold cl_body in Hbody.
    apply bind_Ok in Hbody as (d & s2 & Hd & Hbody).
    apply index_Ok_state in Hd as ->.
    apply bind_Ok in Hbody as (l & s3 & Hl & Hbody).
    apply nn_Ok in Hl as (_ & -> & ->).
    apply bind_Ok in Hbody as (layers & s4 & Hg & Hbody).
    apply guarded_activation_Ok in Hg as (act & _ & -> & _ & -> & Hk);
      [|done].
    apply bind_Ok in Hbody as (d' & s5 & Hd' & Hbody).
    apply index_Ok_state in Hd' as ->.
    apply ret_Ok in Hbody as [<- <-]. simpl. split.
    + by rewrite !build_all_snoc.
    + rewrite !flat_map_snoc, Hleaves. by destruct act.
Qed.

(** Likewise for the feature extractor of a [ResNetClassifier], whose
    elements are blocks and pooling layers. *)
Lemma ResNetClassifier_make_feature_extractor_trace self s self' fe s' :
  pooling_type (hp self) = "max" \/ pooling_type (hp self) = "avg" ->
  ResNetClassifier_make_feature_extractor self s = (Ok (self', fe), s') ->
  hp self' = hp self /\ cls self' = cls self /\
  exists layers, fe = Sequential layers /\
                 s' = build_all s (flat_map leaves layers).
Proof.
  intros Hv Hrun. unfold ResNetClassifier_make_feature_extractor in Hrun.
  apply bind_Ok in Hrun as (chw0 & s1 & Hu & Hrun).
  apply unpack3_Ok in Hu as [_ ->].
  apply bind_Ok in Hrun as ([[C Hh] W] & s1 & Hu & Hrun).
  apply unpack3_Ok in Hu as [_ ->].
  apply bind_Ok in Hrun as (pool & s1 & Hp & Hrun).
  apply read_pooling_params_Ok in Hp as [_ ->].
  apply bind_Ok in Hrun as (r & s1 & Hr & Hrun).
  apply py_mod_Ok in Hr as (_ & -> & ->).
  apply bind_Ok in Hrun as (blocks & s1 & Hb & Hrun).
  apply int_truediv_Ok in Hb as (_ & -> & ->).
  apply bind_Ok in Hrun as (st & s1 & Hloop & Hrun).
  apply (for_each_invariant
           (fun st s1 => s1 = build_all s (flat_map leaves (rn_layers st)) /\
                         hp (rn_self st) = hp self /\
                         cls (rn_self st) = cls self))
    in Hloop; [| |done].
  - destruct Hloop as (-> & Hhp & Hcls).
    apply bind_Ok in Hrun as (layers & s2 & Hl & Hrun).
    apply bind_Ok in Hrun as (lastc & s3 & Hlast & Hrun).
    apply index_Ok_state in Hlast as ->.
    apply ret_Ok in Hrun as [[= <- <-] <-].
    split; [done|]. split; [done|].
    exists layers. split; [done|].
    destruct (negb _).
    + apply bind_Ok in Hl as (bn & s4 & Hbn & Hl).
      apply getattr_Ok in Hbn as [_ ->].
      apply bind_Ok in Hl as (dp & s4 & Hdp & Hl).
      apply getattr_Ok in Hdp as [_ ->].
      apply bind_Ok in Hl as (b & s4 & Hb & Hl).
      apply ResidualBlock_init_trace in Hb as ->.
      apply ret_Ok in Hl as [<- <-].
      by rewrite flat_map_snoc, build_all_app.
    + by apply ret_Ok in Hl as [<- <-].
  - intros x st0 s0 st' s0' _ (-> & Hhp & Hcls) Hbody.
    unfold rn_body in Hbody.
    apply bind_Ok in Hbody as (bn & s4 & Hbn & Hbody).
    apply getattr_Ok in Hbn as [_ ->].
    apply bind_Ok in Hbody as (dp & s4 & Hdp & Hbody).
    apply getattr_Ok in Hdp as [_ ->].
    apply bind_Ok in Hbody as (b & s4 & Hb & Hbody).
    apply ResidualBlock_init_trace in Hb as ->.
    apply bind_Ok in Hbody as (layers & s5 & Hmp & Hbody).
    apply make_pooling_trace in Hmp as (p & -> & Hpl & ->);
      [|by rewrite Hhp].
    apply bind_Ok in Hbody as (h & s6 & Hh' & Hbody).
    apply out_size_Ok in Hh' as (_ & _ & ->).
    apply bind_Ok in Hbody as (w & s6 & Hw' & Hbody).
    apply out_size_Ok in Hw' as (_ & _ & ->).
    apply bind_Ok in Hbody as (n & s6 & Hn & Hbody).
    apply getattr_Ok in Hn as [_ ->].
    apply bind_Ok in Hbody as (cc & s6 & Hcc & Hbody).
    apply index_Ok_state in Hcc as ->.
    apply ret_Ok in Hbody as [<- <-]. simpl.
    repeat split; try done.
    by rewrite !flat_map_snoc, Hpl, !build_all_app.
Qed.

Lemma YourCodeNet_make_feature_extractor_trace self s self' fe s' :
  YourCodeNet_make_feature_extractor self s = (Ok (self', fe), s') ->
  hp self' = hp self /\ cls self' = cls self /\
  exists layers, fe = Sequential layers /\
                 s' = build_all s (flat_map leaves layers).
Proof.
  intros Hrun. unfold YourCodeNet_make_feature_extractor in Hrun.
  apply bind_Ok in Hrun as (chw0 & s1 & Hu & Hrun).
  apply unpack3_Ok in Hu as [_ ->].
  apply bind_Ok in Hrun as ([[C Hh] W] & s1 & Hu & Hrun).
  apply unpack3_Ok in Hu as [_ ->].
  apply bind_Ok in Hrun as (r & s1 & Hr & Hrun).
  apply py_mod_Ok in Hr as (_ & -> & ->).
  apply bind_Ok in Hrun as (blocks & s1 & Hb & Hrun).
  apply int_truediv_Ok in Hb as (_ & -> & ->).
  apply bind_Ok in Hrun as (st & s1 & Hloop & Hrun).
  apply (for_each_invariant
           (fun st s1 => s1 = build_all s (flat_map leaves (rn_layers st)) /\
                         hp (rn_self st) = hp self /\
                         cls (rn_self st) = cls self))
    in Hloop; [| |done].
  - destruct Hloop as (-> & Hhp & Hcls).
    apply bind_Ok in Hrun as (layers & s2 & Hl & Hrun).
    apply bind_Ok in Hrun as (lastc & s3 & Hlast & Hrun).
    apply index_Ok_state in Hlast as ->.
    apply ret_Ok in Hrun as [[= <- <-] <-].
    split; [done|]. split; [done|].
    exists layers. split; [done|].
    destruct (negb _).
    + apply bind_Ok in Hl as (b & s4 & Hb & Hl).
      apply ResidualBlock_init_trace in Hb as ->.
      apply ret_Ok in Hl as [<- <-].
      by rewrite flat_map_snoc, build_all_app.
    + by apply ret_Ok in Hl as [<- <-].
  - intros x st0 s0 st' s0' _ (-> & Hhp & Hcls) Hbody.
    unfold yc_body in Hbody.
    apply bind_Ok in Hbody as (b & s4 & Hb & Hbody).
    apply ResidualBlock_init_trace in Hb as ->.
    apply bind_Ok in Hbody as (st1 & s5 & Hst1 & Hbody).
    apply bind_Ok in Hbody as (cc & s6 & Hcc & Hbody).
    apply index_Ok_state in Hcc as ->.
    apply ret_Ok in Hbody as [<- <-].
    cbn [rn_self rn_layers].
    destruct (x =? _).
    + apply bind_Ok in Hst1 as (p & s6 & Hp & Hst1).
      apply nn_Ok in Hp as (_ & -> & ->).
      apply bind_Ok in Hst1 as (d & s6 & Hd & Hst1).
      apply nn_Ok in Hd as (_ & -> & ->).
      apply bind_Ok in Hst1 as (n & s6 & Hn & Hst1).
      apply getattr_Ok in Hn as [_ ->].
      apply bind_Ok in Hst1 as (h & s6 & Hh' & Hst1).
      apply out_size_Ok in Hh' as (_ & _ & ->).
      apply bind_Ok in Hst1 as (w & s6 & Hw' & Hst1).
      apply out_size_Ok in Hw' as (_ & _ & ->).
      apply ret_Ok in Hst1 as [<- <-]. simpl.
      repeat split; try done.
      by rewrite !flat_map_snoc, !build_all_app.
    + apply ret_Ok in Hst1 as [<- <-]. simpl.
      repeat split; try done.
      by rewrite !flat_map_snoc, !build_all_app.
Qed.

(** The same for the feature extractor of a plain [ConvClassifier]. *)
Lemma ConvClassifier_make_feature_extractor_trace self s self' fe s' :
  valid_types (hp self) ->
  ConvClassifier_make_feature_extractor self s = (Ok (self', fe), s') ->
  hp self' = hp self /\ cls self' = cls self /\
  exists layers, fe = Sequential layers /\
                 s' = build_all s (flat_map leaves layers).
Proof.
  intros [Hva Hvp] Hrun.
  unfold ConvClassifier_make_feature_extractor in Hrun.
  apply bind_Ok in Hrun as ([[C Hh] W] & s1 & Hu & Hrun).
  apply unpack3_Ok in Hu as [_ ->].
  apply bind_Ok in Hrun as (conv & s1 & Hc & Hrun).
  apply read_conv_params_Ok in Hc as [_ ->].
  apply bind_Ok in Hrun as (pool & s1 & Hp & Hrun).
  apply read_pooling_params_Ok in Hp as [_ ->].
  apply bind_Ok in Hrun as (st & s1 & Hloop & Hrun).
  apply (for_each_invariant
           (fun st s1 => s1 = build_all s (flat_map leaves (fl_layers st)) /\
                         hp (fl_self st) = hp self /\
                         cls (fl_self st) = cls self))
    in Hloop; [| |done].
  - destruct Hloop as (-> & Hhp & Hcls).
    apply bind_Ok in Hrun as (lastc & s3 & Hlast & Hrun).
    apply index_Ok_state in Hlast as ->.
    apply ret_Ok in Hrun as [[= <- <-] <-].
    split; [done|]. split; [done|]. by eexists.
  - intros x st0 s0 st' s0' _ (-> & Hhp & Hcls) Hbody.
    unfold fe_body in Hbody.
    apply bind_Ok in Hbody as (cin & s2 & Hcin & Hbody).
    apply index_Ok_state in Hcin as ->.
    apply bind_Ok in Hbody as (cout & s2 & Hcout & Hbody).
    apply index_Ok_state in Hcout as ->.
    apply bind_Ok in Hbody as (c & s2 & Hc & Hbody).
    apply nn_Ok in Hc as (_ & -> & ->).
    apply bind_Ok in Hbody as (h & s2 & Hh' & Hbody).
    apply out_size_Ok in Hh' as (_ & _ & ->).
    apply bind_Ok in Hbody as (w & s2 & Hw' & Hbody).
    apply out_size_Ok in Hw' as (_ & _ & ->).
    apply bind_Ok in Hbody as (layers & s2 & Hl & Hbody).
    rewrite fe_activation_run in Hl by (by rewrite Hhp).
    destruct (activation_of (hp (fl_self st0))) as [act|] eqn:Eact;
      [|discriminate].
    apply activation_of_kind in Eact as (Hk & _).
    apply bind_Ok in Hl as (a & s3 & Ha & Hl).
    apply nn_Ok in Ha as (_ & -> & ->).
    apply ret_Ok in Hl as [<- <-].
    apply bind_Ok in Hbody as (r & s2 & Hr & Hbody).
    apply py_mod_Ok in Hr as (_ & -> & ->).
    assert (Hleaf : leaves act = [act]) by (by destruct act).
    destruct (_ =? 0).
    + apply bind_Ok in Hbody as (layers & s2 & Hmp & Hbody).
      apply make_pooling_trace in Hmp as (p & -> & Hpl & ->);
        [|by rewrite Hhp].
      apply bind_Ok in Hbody as (h2 & s2 & Hh2 & Hbody).
      apply out_size_Ok in Hh2 as (_ & _ & ->).
      apply bind_Ok in Hbody as (w2 & s2 & Hw2 & Hbody).
      apply out_size_Ok in Hw2 as (_ & _ & ->).
      apply bind_Ok in Hbody as (n & s2 & Hn & Hbody).
      apply getattr_Ok in Hn as [_ ->].
      apply ret_Ok in Hbody as [<- <-]. simpl.
      repeat split; try done.
      by rewrite !flat_map_snoc, Hpl, Hleaf, !build_all_app.
    + apply ret_Ok in Hbody as [<- <-]. simpl.
      repeat split; try done.
      by rewrite !flat_map_snoc, Hleaf, !build_all_app.
Qed.

(** [self._make_feature_extractor()], whatever the class. *)
Lemma _make_feature_extractor_trace self s self' fe s' :
  valid_types (hp self) ->
  _make_feature_extractor self s = (Ok (self', fe), s') ->
  hp self' = hp self /\ cls self' = cls self /\
  exists layers, fe = Sequential layers /\
                 s' = build_all s (flat_map leaves layers).
Proof.
  intros Hv Hrun. unfold _make_feature_extractor in Hrun.
  destruct (cls self) eqn:E.
  - apply ConvClassifier_make_feature_extractor_trace in Hrun; [|done].
    by rewrite E in Hrun.
  - apply ResNetClassifier_make_feature_extractor_trace in Hrun;
      [|by destruct Hv].
    by rewrite E in Hrun.
  - apply YourCodeNet_make_feature_extractor_trace in Hrun.
    by rewrite E in Hrun.
Qed.

(** [ConvClassifier.__init__] on an instance of any of the classes. *)
Lemma ConvClassifier_init_trace c bn dp a s self s' :
  ConvClassifier_init c bn dp a s = (Ok self, s') ->
  valid_types a /\ hp self = a /\ cls self = c /\
  exists fe cl,
    feature_extractor self = Some (Sequential fe) /\
    classifier self = Some (Sequential cl) /\
    flat_map leaves cl = cl /\
    s' = build_all s (flat_map leaves fe ++ cl).
Proof.
  unfold ConvClassifier_init. intros Hrun.
  apply bind_Ok in Hrun as ([] & s1 & Hassert & Hrun).
  apply py_assert_Ok in Hassert as [_ ->].
  destruct (negb (contains (activation_type a) ACTIVATIONS)
            || negb (contains (pooling_type a) POOLINGS)) eqn:Ev;
    [discriminate|].
  apply valid_types_contains in Ev.
  apply bind_Ok in Hrun as ([self1 fe] & s1 & Hfe & Hrun).
  apply _make_feature_extractor_trace in Hfe
    as (Hhp & Hcls & layers & -> & ->); [|done].
  apply bind_Ok in Hrun as (cl & s2 & Hcl & Hrun).
  apply _make_classifier_trace in Hcl as (cls' & -> & Hleaves & ->).
  2:{ cbn [fst snd hp set_feature_extractor]. rewrite Hhp. by destruct Ev. }
  apply ret_Ok in Hrun as [<- <-].
  cbn [fst snd hp cls set_feature_extractor set_classifier
       feature_extractor classifier] in *.
  do 3 (split; [done|]).
  exists layers, cls'. do 3 (split; [done|]).
  by rewrite build_all_app.
Qed.

End Traces.

(** * Sequential containers and the order of construction *)

Section Recording.
Variable acc : nn_Module -> bool.

Lemma recording_build_all log ms :
  build_all (H := recording_torch acc) log ms = log ++ ms.
Proof.
  revert log. induction ms as [|m ms IH]; intros log.
  - simpl. by rewrite app_nil_r.
  - simpl. change (build_all (H := recording_torch acc) (log ++ [m]) ms
                   = log ++ m :: ms).
    rewrite IH. by rewrite <- app_assoc.
Qed.

End Recording.

Section YourCodeNet.
Context `{Torch}.

Lemma new_YourCodeNet_trace a s self s' :
  new_YourCodeNet a s = (Ok self, s') ->
  exists fe cl d earlier,
    feature_extractor self = Some (Sequential fe) /\
    classifier self = Some (Sequential cl) /\
    dropout_module self = Some d /\
    s' = build_all s (earlier ++ flat_map leaves fe ++ cl ++ [d]).
Proof.
  unfold new_YourCodeNet. intros Hrun.
  apply bind_Ok in Hrun as (self0 & s1 & Hinit & Hrun).
  apply ConvClassifier_init_trace in Hinit
    as (Hv & Hhp & Hcls & fe0 & cl0 & _ & _ & _ & ->).
  apply bind_Ok in Hrun as ([self1 fe] & s2 & Hfe & Hrun).
  apply _make_feature_extractor_trace in Hfe
    as (Hhp1 & Hcls1 & layers & -> & ->); [|by rewrite Hhp].
  apply bind_Ok in Hrun as (cl & s3 & Hcl & Hrun).
  apply _make_classifier_trace in Hcl as (cls' & -> & Hleaves & ->).
  2:{ cbn [fst snd hp set_feature_extractor]. rewrite Hhp1, Hhp.
      by destruct Hv. }
  apply bind_Ok in Hrun as (d & s4 & Hd & Hrun).
  apply nn_Ok in Hd as (_ & -> & ->).
  apply ret_Ok in Hrun as [<- <-].
  exists layers, cls', (Dropout (1 # 10)), (flat_map leaves fe0 ++ cl0).
  do 3 (split; [done|]).
  by rewrite !build_all_app.
Qed.

End YourCodeNet.

(** C7: each model class puts layer objects in a sequential container in
    the order in which it built them.  On a framework that records every
    layer it builds, the record after construction is the record before
    it followed by the elements of [feature_extractor] and then of
    [classifier] for a [ConvClassifier]; by the elements of [main_path]
    and then of [shortcut_path] for a [ResidualBlock]; and by the
    primitive layers of the feature extractor's elements (blocks and
    pooling layers) and then the classifier's for a [ResNetClassifier]
    and for a [YourCodeNet], whose constructor builds both parts a
    second time and keeps the second ones. *)
Theorem C7_sequential_containers (acc : nn_Module -> bool)
        (log : list nn_Module) :
  (forall a self log',
      new_ConvClassifier (H := recording_torch acc) a log = (Ok self, log') ->
      exists fe cl,
        feature_extractor self = Some (Sequential fe) /\
        classifier self = Some (Sequential cl) /\
        log' = log ++ fe ++ cl) /\
  (forall in_channels channels kernel_sizes bn dp t ap b log',
      ResidualBlock_init (H := recording_torch acc) in_channels channels
                         kernel_sizes bn dp t ap log = (Ok b, log') ->
      exists main short,
        b = ResidualBlock (Sequential main) (Sequential short) /\
        log' = log ++ main ++ short) /\
  (forall a bn dp self log',
      new_ResNetClassifier (H := recording_torch acc) a bn dp log
      = (Ok self, log') ->
      exists fe cl,
        feature_extractor self = Some (Sequential fe) /\
        classifier self = Some (Sequential cl) /\
        log' = log ++ flat_map leaves fe ++ cl) /\
  (forall a self log',
      new_YourCodeNet (H := recording_torch acc) a log = (Ok self, log') ->
      exists fe cl d earlier,
        feature_extractor self = Some (Sequential fe) /\
        classifier self = Some (Sequential cl) /\
        dropout_module self = Some d /\
        log' = log ++ earlier ++ flat_map leaves fe ++ cl ++ [d]).
Proof.
  split; [|split; [|split]].
  - intros a self log' Hrun.
    apply (new_ConvClassifier_Ok (H := recording_torch acc)) in Hrun
      as (C & Hh & W & conv & pool & act & poolL & _ & _ & _ & _ & _ & _ & _ &
          _ & _ & _ & -> & -> & _).
    eexists _, _. split; [reflexivity|]. split; [reflexivity|].
    apply recording_build_all.
  - intros in_channels channels kernel_sizes bn dp t ap b log' Hrun.
    apply (ResidualBlock_init_Ok (H := recording_torch acc)) in Hrun
      as (main & cN & _ & _ & -> & _ & _ & _ & ->).
    eexists _, _. split; [reflexivity|]. apply recording_build_all.
  - intros a bn dp self log' Hrun.
    apply (ConvClassifier_init_trace (H := recording_torch acc)) in Hrun
      as (_ & _ & _ & fe & cl & Hfe & Hcl & _ & ->).
    exists fe, cl. do 2 (split; [done|]). apply recording_build_all.
  - intros a self log' Hrun.
    apply (new_YourCodeNet_trace (H := recording_torch acc)) in Hrun
      as (fe & cl & d & earlier & Hfe & Hcl & Hd & ->).
    exists fe, cl, d, earlier. do 3 (split; [done|]).
    apply recording_build_all.
Qed.

Lemma C7_witness :
  exists self log',
    new_ResNetClassifier (H := logging_torch) sample_hparams true (1 # 10) []
    = (Ok self, log') /\
    exists fe cl,
      feature_extractor self = Some (Sequential fe) /\
      classifier self = Some (Sequential cl) /\
      log' = flat_map leaves fe ++ cl.
Proof.
  destruct (new_ResNetClassifier (H := logging_torch) sample_hparams true
                                 (1 # 10) [])
    as [[self|e] log'] eqn:Hrun; [|vm_compute in Hrun; discriminate].
  exists self, log'. split; [reflexivity|].
  destruct (C7_sequential_containers reference_accepts []) as (_ & _ & Hres & _).
  exact (Hres sample_hparams true (1 # 10) self log' Hrun).
Defined.

(** * Determinism of construction *)

Section Oblivious.
Context `{Torch}.

Lemma oblivious_ret {A} (a : A) : oblivious (ret a).
Proof. by intros s1 s2. Qed.

Lemma oblivious_raise {A} e : oblivious (A := A) (raise e).
Proof. by intros s1 s2. Qed.

Lemma oblivious_bind {A B} (m : M A) (f : A -> M B) :
  oblivious m -> (forall a, oblivious (f a)) -> oblivious (bind m f).
Proof.
  intros Hm Hf s1 s2. unfold bind. specialize (Hm s1 s2).
  destruct (m s1) as [[a1|e1] s1'], (m s2) as [[a2|e2] s2'];
    simpl in Hm; try discriminate.
  - injection Hm as <-. apply Hf.
  - by injection Hm as <-.
Qed.

Lemma oblivious_nn m : oblivious (nn m).
Proof. intros s1 s2. unfold nn. by destruct (accepts m). Qed.

Lemma oblivious_for_each {A S} (body : A -> S -> M S) xs :
  (forall x st, oblivious (body x st)) ->
  forall st, oblivious (for_each xs body st).
Proof.
  intros Hbody. induction xs as [|x xs IH]; intros st.
  - apply oblivious_ret.
  - simpl. apply oblivious_bind; [apply Hbody | exact IH].
Qed.

Lemma oblivious_for_each_break {A S} (body : A -> S -> M (control S)) xs :
  (forall x st, oblivious (body x st)) ->
  forall st, oblivious (for_each_break xs body st).
Proof.
  intros Hbody. induction xs as [|x xs IH]; intros st.
  - apply oblivious_ret.
  - simpl. apply oblivious_bind; [apply Hbody|].
    intros [st'|st']; [apply IH | apply oblivious_ret].
Qed.

(** [_n_features] reads the generator state but only to restore it. *)
Lemma oblivious__n_features self : oblivious (_n_features self).
Proof. intros s1 s2. by rewrite !_n_features_run. Qed.

End Oblivious.

(** Decomposes a goal [oblivious m] along the structure of [m]. *)
Ltac oblivious_step :=
  lazymatch goal with
  | |- oblivious (bind _ _) => apply oblivious_bind; [|intros ?]
  | |- oblivious (ret _) => apply oblivious_ret
  | |- oblivious (raise _) => apply oblivious_raise
  | |- oblivious (nn _) => apply oblivious_nn
  | |- oblivious (_n_features _) => apply oblivious__n_features
  | |- oblivious (for_each _ _ _) => apply oblivious_for_each; intros ? ?
  | |- oblivious (for_each_break _ _ _) =>
      apply oblivious_for_each_break; intros ? ?
  | |- oblivious (if ?b then _ else _) => destruct b
  | |- oblivious (match ?x with _ => _ end) => destruct x
  end.

Ltac oblivious_auto :=
  repeat (first
            [ oblivious_step
            | progress unfold py_assert, getitem, getattr, unpack3, index,
                int_truediv, py_mod, out_size, read_conv_params,
                read_pooling_params, fe_body, fe_activation, make_pooling,
                call_activation, call_pooling, cl_body, guarded_activation,
                rb_body, rn_body, yc_body, ResidualBlock_init ]).

Section ObliviousConstruction.
Context `{Torch}.

Lemma oblivious_ConvClassifier_init c bn dp a :
  oblivious (ConvClassifier_init c bn dp a).
Proof.
  unfold ConvClassifier_init, _make_feature_extractor, _make_classifier,
    ConvClassifier_make_feature_extractor,
    ResNetClassifier_make_feature_extractor,
    YourCodeNet_make_feature_extractor.
  oblivious_auto.
Qed.

End ObliviousConstruction.

(** C5: construction is deterministic.  The outcome of building a
    [ConvClassifier] or a [ResNetClassifier] (the object with its layer
    kinds, layer hyperparameters and stored feature count, or the
    exception) is the same in any two runs with equal arguments, whatever
    the state of the random generator in each; so two instances built
    from equal arguments have the same feature extractor and classifier,
    and [_n_features()] returns the same value on both. *)
Theorem C5_construction_deterministic `{Torch} (a : hparams) (bn : bool)
        (dp : Q) (s1 s2 : rng_state) :
  fst (new_ConvClassifier a s1) = fst (new_ConvClassifier a s2) /\
  fst (new_ResNetClassifier a bn dp s1) = fst (new_ResNetClassifier a bn dp s2) /\
  (forall self1 s1' self2 s2',
      (new_ConvClassifier a s1 = (Ok self1, s1') /\
       new_ConvClassifier a s2 = (Ok self2, s2'))
      \/ (new_ResNetClassifier a bn dp s1 = (Ok self1, s1') /\
          new_ResNetClassifier a bn dp s2 = (Ok self2, s2')) ->
      feature_extractor self1 = feature_extractor self2 /\
      classifier self1 = classifier self2 /\
      forall r1 r2, fst (_n_features self1 r1) = fst (_n_features self2 r2)).
Proof.
  pose proof (oblivious_ConvClassifier_init ConvClassifier_class None None a
                                            s1 s2) as Hconv.
  pose proof (oblivious_ConvClassifier_init ResNetClassifier_class (Some bn)
                                            (Some dp) a s1 s2) as Hres.
  split; [exact Hconv|]. split; [exact Hres|].
  intros self1 s1' self2 s2' Hruns.
  assert (self1 = self2) as ->.
  { unfold new_ConvClassifier, new_ResNetClassifier in Hruns.
    destruct Hruns as [[Hr1 Hr2]|[Hr1 Hr2]].
    - rewrite Hr1, Hr2 in Hconv. by injection Hconv.
    - rewrite Hr1, Hr2 in Hres. by injection Hres. }
  do 2 (split; [done|]). intros r1 r2. apply oblivious__n_features.
Qed.

Lemma C5_witness :
  exists self1 s1' self2 s2',
    new_ResNetClassifier (H := reference_torch) sample_hparams true (1 # 10)
                         0%nat = (Ok self1, s1') /\
    new_ResNetClassifier (H := reference_torch) sample_hparams true (1 # 10)
                         7%nat = (Ok self2, s2') /\
    s1' <> s2' /\
    feature_extractor self1 = feature_extractor self2 /\
    classifier self1 = classifier self2.
Proof.
  destruct (new_ResNetClassifier (H := reference_torch) sample_hparams true
                                 (1 # 10) 0%nat)
    as [[self1|e] s1'] eqn:Hrun1; [|vm_compute in Hrun1; discriminate].
  destruct (new_ResNetClassifier (H := reference_torch) sample_hparams true
                                 (1 # 10) 7%nat)
    as [[self2|e] s2'] eqn:Hrun2; [|vm_compute in Hrun2; discriminate].
  exists self1, s1', self2, s2'.
  do 2 (split; [reflexivity|]). split.
  { vm_compute in Hrun1, Hrun2.
    injection Hrun1 as _ <-. injection Hrun2 as _ <-. discriminate. }
  destruct (C5_construction_deterministic
              (H := reference_torch) sample_hparams true (1 # 10) 0%nat 7%nat)
    as (_ & _ & Hsame).
  destruct (Hsame self1 s1' self2 s2' (or_intror (conj Hrun1 Hrun2)))
    as (Hfe & Hcl & _).
  by split.
Defined.

(** * Further properties of [ConvClassifier] *)

Section ConvClassifierExtras.
Context `{Torch}.

Lemma fe_pools_count conv act poolL P :
  is_pooling act = false -> is_pooling poolL = true ->
  forall chs idx cin,
    count is_pooling (fe_layers conv act poolL P idx cin chs)
    = fe_pools P idx chs.
Proof.
  intros Hact Hpool. induction chs as [|c chs IH]; intros idx cin; [done|].
  simpl fe_layers. simpl fe_pools.
  change (Conv2d cin c (g_kernel conv) (g_stride conv) (g_padding conv)
                 (g_dilation conv) true
          :: act :: (if idx mod P =? 0 then [poolL] else [])
          ++ fe_layers conv act poolL P (idx + 1) c chs)
    with ([Conv2d cin c (g_kernel conv) (g_stride conv) (g_padding conv)
                  (g_dilation conv) true; act]
          ++ (if idx mod P =? 0 then [poolL] else [])
          ++ fe_layers conv act poolL P (idx + 1) c chs).
  rewrite !count_app, IH. unfold count at 1. simpl List.filter.
  rewrite Hact. destruct (idx mod P =? 0); unfold count; simpl;
    rewrite ?Hpool; simpl; lia.
Qed.

Lemma length_ne_3_unpack (xs : list Z) s :
  length xs <> 3%nat -> unpack3 xs s = (Raise (ValueError "unpack"), s).
Proof. by destruct xs as [|a [|b [|c [|d xs]]]]. Qed.

Lemma count_pooling_fe_layers conv act poolL P C chs :
  P <> 0 -> is_pooling act = false -> is_pooling poolL = true ->
  count is_pooling (fe_layers conv act poolL P 1 C chs)
  = Z.of_nat (length chs) / Z.abs P.
Proof.
  intros HP Hact Hpool.
  assert (Hp : 0 < Z.abs P) by lia.
  assert (0 <= Z.of_nat (length chs) / Z.abs P) by (apply Z.div_pos; lia).
  rewrite fe_layers_abs by done.
  rewrite (fe_layers_groups conv act poolL (Z.abs P) Hp
             (Z.to_nat (Z.of_nat (length chs) / Z.abs P)) 0) by lia.
  rewrite (count_fe_groups is_pooling false) by done.
  rewrite Hact, Hpool. lia.
Qed.

(** When the first iteration of the loop raises, so does the
    constructor, in the same generator state. *)
Lemma new_ConvClassifier_first_iteration a C Hh W conv pool c1 rest e s s1 :
  in_size a = [C; Hh; W] ->
  channels a = c1 :: rest -> hidden_dims a <> [] ->
  valid_types a ->
  conv_geometry (conv_params a) = Some conv ->
  pool_geometry (pooling_params a) = Some pool ->
  fe_body conv pool (C :: channels a) 1 (fe_entry a Hh W) s = (Raise e, s1) ->
  new_ConvClassifier a s = (Raise e, s1).
Proof.
  intros Hin Hch Hhd Hv Hconv Hpool Hbody.
  unfold new_ConvClassifier, ConvClassifier_init.
  rewrite (bind_step _ _ _ tt s); cycle 1.
  { rewrite Hch. by destruct (hidden_dims a). }
  rewrite (proj2 (valid_types_contains a) Hv).
  apply bind_fail.
  unfold _make_feature_extractor. cbn [cls].
  unfold ConvClassifier_make_feature_extractor. cbn [hp].
  rewrite (bind_step _ _ _ (C, Hh, W) s); cycle 1.
  { by rewrite Hin. }
  cbv beta iota. cbn [hp set_features_num set_pools_num].
  rewrite (bind_step _ _ _ conv s); cycle 1.
  { by rewrite read_conv_params_run, Hconv. }
  rewrite (bind_step _ _ _ pool s); cycle 1.
  { by rewrite read_pooling_params_run, Hpool. }
  apply bind_fail.
  rewrite range_cons by (rewrite Hch; simpl; lia).
  simpl for_each. apply bind_fail. exact Hbody.
Qed.

End ConvClassifierExtras.

(** X1: [_n_features] never changes the state of the random generator:
    it returns the stored feature count, or raises [AttributeError] when
    the attribute has not been assigned, and on both paths the [finally]
    clause has put back the state that was saved on entry. *)
Theorem X1_n_features_restores_generator `{Torch} (self : ConvClassifier)
        (s : rng_state) :
  snd (_n_features self s) = s /\
  fst (_n_features self s) =
  match features_num self with
  | Some n => Ok n
  | None => Raise (AttributeError "features_num")
  end.
Proof. by rewrite _n_features_run. Qed.

(** X2: after a successful construction the attribute [pools_num] of a
    [ConvClassifier] is the number of pooling layers in its feature
    extractor, which is [floor(N / |pool_every|)] for [N] convolutions. *)
Theorem X2_pools_num_counts_pooling_layers `{Torch} (a : hparams) s self s' :
  new_ConvClassifier a s = (Ok self, s') ->
  exists fe,
    feature_extractor self = Some (Sequential fe) /\
    pools_num self = Some (count is_pooling fe) /\
    count is_pooling fe
    = Z.of_nat (length (channels a)) / Z.abs (pool_every a).
Proof.
  intros Hrun.
  apply new_ConvClassifier_Ok in Hrun
    as (C & Hh & W & conv & pool & act & poolL & _ & _ & _ & _ & _ & _ &
        Hact & HpoolL & HP & _ & -> & _).
  apply activation_of_kind in Hact as (_ & _ & Ha & _).
  apply pooling_of_kind in HpoolL as (Hp & _).
  eexists. split; [reflexivity|]. split.
  - simpl. by rewrite fe_pools_count.
  - by apply count_pooling_fe_layers.
Qed.

Lemma X2_witness :
  exists self s',
    new_ConvClassifier (H := reference_torch) sample_hparams 0%nat
    = (Ok self, s') /\
    pools_num self = Some 1.
Proof.
  destruct (new_ConvClassifier (H := reference_torch) sample_hparams 0%nat)
    as [[self|e] s'] eqn:Hrun; [|vm_compute in Hrun; discriminate].
  exists self, s'. split; [reflexivity|].
  destruct (X2_pools_num_counts_pooling_layers
              (H := reference_torch) sample_hparams 0%nat self s' Hrun)
    as (fe & _ & Hn & Hc).
  rewrite Hn, Hc. reflexivity.
Defined.

(** X3: an [in_size] that does not have exactly three entries makes the
    constructor of each of the three classifier classes raise
    [ValueError] (from the tuple unpacking at the start of
    [_make_feature_extractor]) once the argument validation has passed,
    before any layer is built. *)
Theorem X3_in_size_must_have_three_entries `{Torch} (c : class)
        (bn : option bool) (dp : option Q) (a : hparams) s :
  channels a <> [] -> hidden_dims a <> [] -> valid_types a ->
  length (in_size a) <> 3%nat ->
  ConvClassifier_init c bn dp a s = (Raise (ValueError "unpack"), s) /\
  new_YourCodeNet a s = (Raise (ValueError "unpack"), s).
Proof.
  intros Hch Hhd Hv Hlen.
  assert (Hinit : forall c, ConvClassifier_init c bn dp a s
                            = (Raise (ValueError "unpack"), s)).
  { intros c'. unfold ConvClassifier_init.
    rewrite (bind_step _ _ _ tt s); cycle 1.
    { by destruct (channels a), (hidden_dims a). }
    rewrite (proj2 (valid_types_contains a) Hv).
    apply bind_fail. unfold _make_feature_extractor. cbn [cls].
    destruct c'; apply bind_fail; by apply length_ne_3_unpack. }
  split; [apply Hinit|].
  unfold new_YourCodeNet. apply bind_fail.
  unfold ConvClassifier_init.
  rewrite (bind_step _ _ _ tt s); cycle 1.
  { by destruct (channels a), (hidden_dims a). }
  rewrite (proj2 (valid_types_contains a) Hv).
  apply bind_fail. unfold _make_feature_extractor. cbn [cls].
  apply bind_fail. by apply length_ne_3_unpack.
Qed.

Lemma X3_witness :
  new_ResNetClassifier (H := logging_torch)
    {| in_size := [32; 32]; out_classes := 10; channels := [8];
       pool_every := 1; hidden_dims := [10];
       conv_params := ∅; activation_type := "relu"; activation_params := ∅;
       pooling_type := "max"; pooling_params := ∅ |} true (1 # 10) []
  = (Raise (ValueError "unpack"), []).
Proof.
  apply (X3_in_size_must_have_three_entries (H := logging_torch));
    [done | done | split; by left | simpl; lia].
Defined.

Section FirstIteration.
Context `{Torch}.

(** The start of the first iteration: the convolution is built and the
    two sizes are updated. *)
Lemma fe_body_first_conv a C Hh W conv pool c1 rest s :
  channels a = c1 :: rest ->
  accepts (Conv2d C c1 (g_kernel conv) (g_stride conv) (g_padding conv)
                  (g_dilation conv) true) = true ->
  fe_body conv pool (C :: channels a) 1 (fe_entry a Hh W) s =
  let c := Conv2d C c1 (g_kernel conv) (g_stride conv) (g_padding conv)
                  (g_dilation conv) true in
  bind (out_size Hh (g_kernel conv) (g_stride conv) (g_padding conv)
                 (g_dilation conv))
       (fun in_h =>
          bind (out_size W (g_kernel conv) (g_stride conv) (g_padding conv)
                         (g_dilation conv))
               (fun in_w =>
                  layers <- fe_activation (fl_self (fe_entry a Hh W)) [c] ;;
                  r <- py_mod 1 (pool_every a) ;;
                  if r =? 0 then
                    layers <- make_pooling (fl_self (fe_entry a Hh W)) pool
                                           layers ;;
                    in_h <- out_size in_h (g_kernel pool) (g_stride pool)
                                     (g_padding pool) (g_dilation pool) ;;
                    in_w <- out_size in_w (g_kernel pool) (g_stride pool)
                                     (g_padding pool) (g_dilation pool) ;;
                    n <- getattr "pools_num"
                                 (pools_num (fl_self (fe_entry a Hh W))) ;;
                    ret {| fl_self := set_pools_num
                                        (fl_self (fe_entry a Hh W)) (n + 1);
                           fl_layers := layers; fl_in_h := in_h;
                           fl_in_w := in_w |}
                  else
                    ret {| fl_self := fl_self (fe_entry a Hh W);
                           fl_layers := layers;
                           fl_in_h := in_h; fl_in_w := in_w |}))
       (reset_parameters c s).
Proof.
  intros Hch Hacc. unfold fe_body. rewrite Hch.
  rewrite (bind_step _ _ _ C s) by (apply index_run; [lia | reflexivity]).
  rewrite (bind_step _ _ _ c1 s) by (apply index_run; [lia | reflexivity]).
  rewrite (bind_step _ _ _ _ _ (nn_run _ s Hacc)).
  reflexivity.
Qed.

End FirstIteration.





(** * Further properties of the residual blocks *)

Section BlockValidation.
Context `{Torch}.

Lemma raises_only_nn_library m : raises_only library_exn (nn m).
Proof.
  intros s e s'. unfold nn. destruct (accepts m); [discriminate|].
  by intros [= <- _].
Qed.

Lemma raises_only_for_each_break {A S} P
      (body : A -> S -> M (control S)) xs :
  (forall x st, raises_only P (body x st)) ->
  forall st, raises_only P (for_each_break xs body st).
Proof.
  intros Hbody. induction xs as [|x xs IH]; intros st.
  - apply raises_only_ret.
  - simpl. apply raises_only_bind; [apply Hbody|].
    intros [st'|st']; [apply IH | apply raises_only_ret].
Qed.

End BlockValidation.

(** Decomposes a goal [raises_only library_exn m]. *)
Ltac library_exn_step :=
  lazymatch goal with
  | |- raises_only _ (bind _ _) => apply raises_only_bind; [|intros ?]
  | |- raises_only _ (ret _) => apply raises_only_ret
  | |- raises_only _ (raise _) => apply raises_only_raise; exact I
  | |- raises_only _ (nn _) => apply raises_only_nn_library
  | |- raises_only _ (for_each_break _ _ _) =>
      apply raises_only_for_each_break; intros ? ?
  | |- raises_only _ (if ?b then _ else _) => destruct b
  | |- raises_only _ (match ?x with _ => _ end) => destruct x
  end.

Ltac library_exn_auto :=
  repeat (first
            [ library_exn_step
            | progress unfold rb_body, index, int_truediv, getitem,
                guarded_activation, call_activation ]).

Section BlockStructure.
Context `{Torch}.

Lemma raises_only_block_loop in_channels channels kernel_sizes bn dp t ap :
  raises_only library_exn
    (st <- for_each_break (enumerate channels)
                          (rb_body channels kernel_sizes bn dp t ap)
                          {| rb_main := [];
                             rb_tmp_in_channels := in_channels |} ;;
     let main_path := Sequential (rb_main st) in
     if negb (rb_tmp_in_channels st =? in_channels) then
       c <- nn (Conv2d in_channels (rb_tmp_in_channels st) 1 1 0 1 false) ;;
       ret (ResidualBlock main_path (Sequential [c]))
     else
       ret (ResidualBlock main_path (Sequential []))).
Proof. library_exn_auto. Qed.

(** The three ways [ResidualBlock.__init__] can go. *)
Lemma ResidualBlock_init_cases in_channels channels kernel_sizes bn dp t ap s :
  (block_args_ok channels kernel_sizes = false ->
   ResidualBlock_init in_channels channels kernel_sizes bn dp t ap s
   = (Raise AssertionError, s)) /\
  (block_args_ok channels kernel_sizes = true ->
   ~ (t = "relu" \/ t = "lrelu") ->
   ResidualBlock_init in_channels channels kernel_sizes bn dp t ap s
   = (Raise (ValueError "Unsupported activation type"), s)) /\
  (block_args_ok channels kernel_sizes = true ->
   t = "relu" \/ t = "lrelu" ->
   forall e s',
     ResidualBlock_init in_channels channels kernel_sizes bn dp t ap s
     = (Raise e, s') -> library_exn e).
Proof.
  unfold ResidualBlock_init, block_args_ok.
  destruct (truthy channels && truthy kernel_sizes) eqn:E1;
    [|repeat split; try discriminate; reflexivity].
  rewrite (bind_step _ _ _ tt s eq_refl).
  destruct (Nat.eqb (length channels) (length kernel_sizes)) eqn:E2;
    [|repeat split; try discriminate; reflexivity].
  rewrite (bind_step _ _ _ tt s eq_refl).
  destruct (forallb (fun x => x mod 2 =? 1) kernel_sizes) eqn:E3;
    [|repeat split; try discriminate; reflexivity].
  rewrite (bind_step _ _ _ tt s eq_refl).
  split; [discriminate|]. split.
  - intros _ Ht.
    destruct (negb (contains t ACTIVATIONS)) eqn:Et; [reflexivity|].
    apply negb_false_iff, contains_ACTIVATIONS in Et. contradiction.
  - intros _ Ht e s'.
    rewrite (proj2 (contains_ACTIVATIONS t) Ht). cbn [negb].
    apply raises_only_block_loop.
Qed.

End BlockStructure.

Lemma some_even_kernel (ks : list Z) :
  forallb (fun x => x mod 2 =? 1) ks = false ->
  exists k, k ∈ ks /\ k mod 2 <> 1.
Proof.
  induction ks as [|k ks IH]; [discriminate|].
  simpl. intros Ho. apply andb_false_iff in Ho as [Hk|Hks].
  - exists k. split; [left|]. by apply Z.eqb_neq.
  - destruct (IH Hks) as (k' & Hin & Hodd).
    exists k'. split; [by right | done].
Qed.

(** X6: [ResidualBlock.__init__] raises [AssertionError] exactly when
    [channels] or [kernel_sizes] is empty, their lengths differ, or some
    kernel size is not odd, and the [ValueError] for an unsupported
    activation exactly when these checks pass and [activation_type] is
    neither ['relu'] nor ['lrelu']; in both cases no layer has been
    built. *)
Theorem X6_residual_block_validation `{Torch} in_channels channels
        kernel_sizes bn dp t ap s :
  let run := ResidualBlock_init in_channels channels kernel_sizes bn dp t ap s
  in
  (fst run = Raise AssertionError <->
   channels = [] \/ kernel_sizes = []
   \/ length channels <> length kernel_sizes
   \/ exists k, k ∈ kernel_sizes /\ k mod 2 <> 1) /\
  (fst run = Raise (ValueError "Unsupported activation type") <->
   block_args_ok channels kernel_sizes = true /\
   ~ (t = "relu" \/ t = "lrelu")) /\
  (block_args_ok channels kernel_sizes = false
   \/ ~ (t = "relu" \/ t = "lrelu") -> snd run = s).
Proof.
  intros run. unfold run.
  destruct (ResidualBlock_init_cases in_channels channels kernel_sizes bn dp
                                     t ap s) as (Hassert & Hvalue & Hlate).
  assert (Hok : block_args_ok channels kernel_sizes = false <->
                channels = [] \/ kernel_sizes = []
                \/ length channels <> length kernel_sizes
                \/ exists k, k ∈ kernel_sizes /\ k mod 2 <> 1).
  { unfold block_args_ok. rewrite !andb_false_iff. split.
    - intros [[[Hc|Hk]|Hl]|Ho].
      + left. by destruct channels.
      + right. left. by destruct kernel_sizes.
      + right. right. left. by apply Nat.eqb_neq.
      + right. right. right. by apply some_even_kernel.
    - intros [->|[->|[Hl|(k & Hk & Hodd)]]].
      + by left; left; left.
      + left; left; right. done.
      + left; right. by apply Nat.eqb_neq.
      + right. apply not_true_iff_false. rewrite forallb_forall.
        intros Hall. apply Hodd, Z.eqb_eq, Hall. by apply list_elem_of_In. }
  assert (Hdec : t = "relu" \/ t = "lrelu" \/ ~ (t = "relu" \/ t = "lrelu")).
  { destruct (decide (t = "relu")), (decide (t = "lrelu")); tauto. }
  destruct (block_args_ok channels kernel_sizes) eqn:Eok.
  - split; [|split].
    + split.
      * intros He. exfalso.
        destruct (decide (t = "relu" \/ t = "lrelu")) as [Ht|Ht].
        -- destruct (ResidualBlock_init _ _ _ _ _ _ _ s) as [r s'] eqn:Hrun.
           simpl in He. subst r.
           exact (Hlate eq_refl Ht _ _ eq_refl).
        -- rewrite (Hvalue eq_refl Ht) in He. discriminate.
      * intros Hbad. apply Hok in Hbad. discriminate.
    + split.
      * intros He. split; [done|]. intros Ht.
        destruct (ResidualBlock_init _ _ _ _ _ _ _ s) as [r s'] eqn:Hrun.
        simpl in He. subst r.
        exact (Hlate eq_refl Ht _ _ eq_refl).
      * intros [_ Ht]. by rewrite Hvalue.
    + intros [?|Ht]; [done|]. by rewrite Hvalue.
  - rewrite (Hassert eq_refl). split; [|split].
    + split; [intros _; by apply Hok | done].
    + split; [discriminate | by intros [? _]].
    + done.
Qed.

Lemma X6_witness :
  ResidualBlock_init (H := logging_torch) 3 [8; 16] [3; 4] false (0 # 1)
                     "relu" ∅ []
  = (Raise AssertionError, []).
Proof.
  pose proof (X6_residual_block_validation
                (H := logging_torch) 3 [8; 16] [3; 4] false (0 # 1) "relu" ∅
                []) as (Hassert & _ & Hstate).
  destruct (ResidualBlock_init (H := logging_torch) 3 [8; 16] [3; 4] false
                               (0 # 1) "relu" ∅ []) as [r s'].
  simpl in Hassert, Hstate. f_equal.
  - apply Hassert. right. right. right. exists 4.
    split; [repeat constructor | done].
  - apply Hstate. by left.
Defined.

Section MainPath.
Context `{Torch}.

Lemma rb_body_layers channels kernel_sizes bn dp t ap i ch k st s c s' :
  0 <= i ->
  kernel_sizes !! Z.to_nat i = Some k ->
  t = "relu" \/ t = "lrelu" ->
  rb_body channels kernel_sizes bn dp t ap (i, ch) st s = (Ok c, s') ->
  let conv := Conv2d (rb_tmp_in_channels st) ch k 1 (Z.quot k 2) 1 true in
  match c with
  | Break st' =>
      i = Z.of_nat (length channels) - 1 /\
      rb_main st' = rb_main st ++ [conv] /\
      rb_tmp_in_channels st' = ch
  | Next st' =>
      i <> Z.of_nat (length channels) - 1 /\
      (exists act,
          guarded_activation_of t ap = Some act /\
          rb_main st'
          = rb_main st
              ++ conv :: Dropout2d dp
              :: (if bn then [BatchNorm2d ch] else []) ++ [act]) /\
      rb_tmp_in_channels st' = ch
  end.
Proof.
  intros Hi Hk Hv Hrun conv. unfold rb_body in Hrun.
  apply bind_Ok in Hrun as (k1 & s1 & Hk1 & Hrun).
  apply index_Ok_nonneg in Hk1 as [Hk1 ->]; [|done].
  apply bind_Ok in Hrun as (k2 & s1 & Hk2 & Hrun).
  apply index_Ok_nonneg in Hk2 as [Hk2 ->]; [|done].
  assert (k1 = k) as -> by congruence.
  assert (k2 = k) as -> by congruence.
  apply bind_Ok in Hrun as (pad & s1 & Hpad & Hrun).
  apply int_truediv_Ok in Hpad as (_ & -> & ->).
  apply bind_Ok in Hrun as (cv & s1 & Hcv & Hrun).
  apply nn_Ok in Hcv as (_ & -> & ->).
  destruct (Z.eqb_spec i (Z.of_nat (length channels) - 1)) as [Hlast|Hlast].
  - apply ret_Ok in Hrun as [<- <-]. done.
  - apply bind_Ok in Hrun as (d & s1 & Hd & Hrun).
    apply nn_Ok in Hd as (_ & -> & ->).
    apply bind_Ok in Hrun as (main & s1 & Hbn & Hrun).
    apply bind_Ok in Hrun as (main' & s2 & Hga & Hrun).
    apply ret_Ok in Hrun as [<- <-].
    apply guarded_activation_Ok in Hga
      as (act & Hact & -> & _ & -> & _); [|done].
    cbn [rb_main rb_tmp_in_channels].
    split; [done|]. split; [|done]. exists act. split; [done|].
    destruct bn.
    + apply bind_Ok in Hbn as (b & s3 & Hb & Hbn).
      apply nn_Ok in Hb as (_ & -> & ->).
      apply ret_Ok in Hbn as [<- <-].
      by rewrite <- !app_assoc.
    + apply ret_Ok in Hbn as [<- <-].
      by rewrite <- !app_assoc.
Qed.

Lemma rb_loop_layers channels kernel_sizes bn dp t ap act :
  t = "relu" \/ t = "lrelu" ->
  (forall act', guarded_activation_of t ap = Some act' -> act' = act) ->
  forall rest krest firsts kfirsts i st s st' s',
    channels = firsts ++ rest ->
    kernel_sizes = kfirsts ++ krest ->
    length firsts = length kfirsts ->
    length rest = length krest ->
    i = Z.of_nat (length firsts) ->
    rest <> [] ->
    for_each_break (zip (range i (i + Z.of_nat (length rest))) rest)
                   (rb_body channels kernel_sizes bn dp t ap) st s
    = (Ok st', s') ->
    rb_main st'
    = rb_main st
        ++ main_path_spec bn dp act (rb_tmp_in_channels st) rest krest /\
    last rest = Some (rb_tmp_in_channels st') /\
    ((2 <= length rest)%nat -> guarded_activation_of t ap = Some act).
Proof.
  intros Hv Hact.
  induction rest as [|ch rest IH];
    intros krest firsts kfirsts i st s st' s' Hchs Hks Hlf Hlr Hi Hne Hrun;
    [done|].
  destruct krest as [|k krest]; [discriminate|].
  rewrite range_cons in Hrun by (simpl; lia).
  simpl in Hrun. apply bind_Ok in Hrun as (c & s1 & Hb & Hrun).
  assert (Hk : kernel_sizes !! Z.to_nat i = Some k).
  { subst kernel_sizes i. rewrite Nat2Z.id, Hlf.
    by rewrite list_lookup_middle. }
  eapply rb_body_layers in Hb; eauto; [|lia].
  destruct c as [st1|st1].
  - destruct Hb as (Hnl & (act' & Hact' & Hmain1) & Htmp).
    destruct rest as [|ch' rest].
    { exfalso. apply Hnl. subst channels i.
      rewrite length_app. simpl. lia. }
    apply Hact in Hact' as Heq. subst act'.
    replace (i + Z.of_nat (S (length (ch' :: rest))))
      with (i + 1 + Z.of_nat (length (ch' :: rest))) in Hrun by lia.
    eapply (IH krest (firsts ++ [ch]) (kfirsts ++ [k]) (i + 1)) in Hrun.
    + destruct Hrun as (Hrun & Hlast & _). split; [|done].
      rewrite Hrun, Hmain1, Htmp. cbn [main_path_spec].
      rewrite <- !app_assoc. simpl. by rewrite <- !app_assoc.
    + by rewrite <- app_assoc.
    + by rewrite <- app_assoc.
    + rewrite !length_app. simpl. lia.
    + simpl in Hlr |- *. lia.
    + rewrite length_app. simpl. lia.
    + done.
  - destruct Hb as (Hl & Hmain1 & Htmp).
    apply ret_Ok in Hrun as [<- <-].
    destruct rest as [|ch' rest].
    + split; [|split; [simpl; by rewrite Htmp | simpl; lia]].
      rewrite Hmain1. by destruct krest.
    + exfalso. subst channels i. rewrite length_app in Hl.
      simpl in Hl. lia.
Qed.

End MainPath.

Lemma main_path_spec_step bn dp act cin c c' chs k ks :
  main_path_spec bn dp act cin (c :: c' :: chs) (k :: ks)
  = Conv2d cin c k 1 (Z.quot k 2) 1 true
      :: Dropout2d dp
      :: (if bn then [BatchNorm2d c] else [])
      ++ act :: main_path_spec bn dp act c (c' :: chs) ks.
Proof. reflexivity. Qed.

Lemma main_path_spec_counts bn dp act :
  is_activation act = true ->
  forall chs ks cin,
    chs <> [] ->
    length chs = length ks ->
    let main := main_path_spec bn dp act cin chs ks in
    count is_conv main = Z.of_nat (length chs) /\
    count is_activation main = Z.of_nat (length chs) - 1 /\
    Z.of_nat (length main)
    = Z.of_nat (length chs)
      + (Z.of_nat (length chs) - 1) * (if bn then 3 else 2).
Proof.
  intros Hact. unfold count.
  induction chs as [|c chs IH]; intros ks cin Hne Hlen; [done|].
  destruct ks as [|k ks]; [discriminate|].
  destruct chs as [|c' chs]; [by destruct ks, bn|].
  assert (Hlen' : length (c' :: chs) = length ks) by (simpl in *; lia).
  destruct (IH ks c ltac:(done) Hlen') as (IHc & IHa & IHl).
  cbv zeta. rewrite main_path_spec_step.
  change (length (c :: c' :: chs)) with (S (length (c' :: chs))).
  remember (main_path_spec bn dp act c (c' :: chs) ks) as tl eqn:Etl.
  remember (length (c' :: chs)) as n eqn:En.
  assert (Hconv : is_conv act = false) by (by destruct act).
  clear -IHc IHa IHl Hact Hconv.
  destruct bn; simpl; rewrite ?Hact, ?Hconv; simpl; lia.
Qed.

Lemma main_path_spec_last bn dp act :
  forall chs0 ks0 c k cin,
    length chs0 = length ks0 ->
    last (main_path_spec bn dp act cin (chs0 ++ [c]) (ks0 ++ [k]))
    = Some (Conv2d (List.last chs0 cin) c k 1 (Z.quot k 2) 1 true).
Proof.
  induction chs0 as [|c0 chs0 IH]; intros ks0 c k cin Hlen.
  - by destruct ks0.
  - destruct ks0 as [|k0 ks0]; [discriminate|].
    injection Hlen as Hlen.
    specialize (IH ks0 c k c0 Hlen).
    change ((c0 :: chs0) ++ [c]) with (c0 :: (chs0 ++ [c])).
    change ((k0 :: ks0) ++ [k]) with (k0 :: (ks0 ++ [k])).
    cbn [main_path_spec].
    destruct (chs0 ++ [c]) as [|c1 rest] eqn:E.
    { by destruct chs0. }
    rewrite <- E in *.
    assert (Hl : List.last (c0 :: chs0) cin = List.last chs0 c0).
    { clear. destruct chs0 as [|x xs]; [done|].
      change (List.last (x :: xs) cin = List.last (x :: xs) c0).
      apply last_cons_default. }
    rewrite Hl. rewrite E at 1. cbv iota. rewrite <- E.
    remember (main_path_spec bn dp act c0 (chs0 ++ [c]) (ks0 ++ [k])) as tl.
    by rewrite !last_cons, last_app, last_cons, IH.
Qed.

Lemma default_activation_is_activation t ap :
  is_activation (default ReLU (guarded_activation_of t ap)) = true.
Proof.
  unfold guarded_activation_of.
  destruct (t =? "relu")%string; [done|].
  destruct (t =? "lrelu")%string; [|done].
  case_bool_decide; [done|]. by destruct (ap !! "negative_slope").
Qed.

Lemma last_cons_cons {A} (x d : A) l :
  List.last (x :: l) d = List.last l x.
Proof.
  destruct l as [|y l]; [done|].
  change (List.last (y :: l) d = List.last (y :: l) x).
  apply last_cons_default.
Qed.

(** The block a successful [ResidualBlock.__init__] returns. *)
Lemma ResidualBlock_init_layers `{Torch} in_channels channels kernel_sizes
      bn dp t ap s b s' :
  ResidualBlock_init in_channels channels kernel_sizes bn dp t ap s
  = (Ok b, s') ->
  let act := default ReLU (guarded_activation_of t ap) in
  channels <> [] /\
  length channels = length kernel_sizes /\
  b = ResidualBlock
        (Sequential
           (main_path_spec bn dp act in_channels channels kernel_sizes))
        (Sequential (shortcut_layers in_channels
                                     (List.last channels in_channels))) /\
  ((2 <= length channels)%nat -> guarded_activation_of t ap = Some act).
Proof.
  intros Hrun act.
  unfold ResidualBlock_init in Hrun.
  apply bind_Ok in Hrun as ([] & s1 & Ha & Hrun).
  apply py_assert_Ok in Ha as [Hne ->].
  apply bind_Ok in Hrun as ([] & s1 & Ha & Hrun).
  apply py_assert_Ok in Ha as [Hlen ->].
  apply bind_Ok in Hrun as ([] & s1 & Ha & Hrun).
  apply py_assert_Ok in Ha as [_ ->].
  destruct (negb (contains t ACTIVATIONS)) eqn:Et; [discriminate|].
  apply negb_false_iff, contains_ACTIVATIONS in Et.
  apply bind_Ok in Hrun as (st & s1 & Hloop & Hrun).
  apply andb_true_iff in Hne as [Hne _].
  apply Nat.eqb_eq in Hlen.
  assert (Hchne : channels <> []) by (by destruct channels).
  unfold enumerate in Hloop.
  assert (Hunique : forall act', guarded_activation_of t ap = Some act' ->
                                 act' = act).
  { intros act' E. unfold act. by rewrite E. }
  destruct (rb_loop_layers channels kernel_sizes bn dp t ap act Et Hunique
                           channels kernel_sizes [] [] 0 _ _ _ _
                           eq_refl eq_refl eq_refl Hlen eq_refl Hchne Hloop)
    as (Hmain & Hlast & Hsome).
  simpl in Hmain.
  do 2 (split; [done|]). split; [|done].
  rewrite (last_Some_last _ _ in_channels Hlast).
  unfold shortcut_layers. rewrite <- Hmain.
  destruct (Z.eqb_spec (rb_tmp_in_channels st) in_channels) as [E|E];
    simpl in Hrun.
  - by apply ret_Ok in Hrun as [<- _].
  - apply bind_Ok in Hrun as (c & s2 & Hc' & Hrun).
    apply nn_Ok in Hc' as (_ & -> & _).
    by apply ret_Ok in Hrun as [<- _].
Qed.

(** X7: on success the main path of a residual block is exactly one
    convolution per entry of [channels], each with stride 1, padding
    [k/2] rounded towards zero, dilation 1 and a bias, with dropout, batch
    normalisation (when asked for) and the activation between two
    consecutive convolutions and nothing after the last one.  It holds as
    many convolutions as [channels] has entries and one activation
    fewer. *)
Theorem X7_residual_block_main_path `{Torch} in_channels channels
        kernel_sizes bn dp t ap s b s' :
  ResidualBlock_init in_channels channels kernel_sizes bn dp t ap s
  = (Ok b, s') ->
  let act := default ReLU (guarded_activation_of t ap) in
  let main := main_path_spec bn dp act in_channels channels kernel_sizes in
  let n := Z.of_nat (length channels) in
  b = ResidualBlock
        (Sequential main)
        (Sequential (shortcut_layers in_channels
                                     (List.last channels in_channels))) /\
  (2 <= n -> guarded_activation_of t ap = Some act) /\
  count is_conv main = n /\
  count is_activation main = n - 1 /\
  Z.of_nat (length main) = n + (n - 1) * (if bn then 3 else 2).
Proof.
  intros Hrun act main n.
  apply ResidualBlock_init_layers in Hrun as (Hne & Hlen & Hb & Hsome).
  split; [done|]. split.
  - intros Hn. apply Hsome. unfold n in Hn. lia.
  - apply main_path_spec_counts; [|done..].
    apply default_activation_is_activation.
Qed.

Lemma X7_witness :
  exists b s',
    ResidualBlock_init (H := logging_torch) 3 [8; 16; 3] [3; 5; 1] true
                       (1 # 10) "lrelu" ∅ [] = (Ok b, s') /\
    b = ResidualBlock
          (Sequential
             [Conv2d 3 8 3 1 1 1 true; Dropout2d (1 # 10); BatchNorm2d 8;
              LeakyReLU default_negative_slope;
              Conv2d 8 16 5 1 2 1 true; Dropout2d (1 # 10); BatchNorm2d 16;
              LeakyReLU default_negative_slope;
              Conv2d 16 3 1 1 0 1 true])
          (Sequential []).
Proof.
  destruct (ResidualBlock_init (H := logging_torch) 3 [8; 16; 3] [3; 5; 1]
                               true (1 # 10) "lrelu" ∅ [])
    as [[b|e] s'] eqn:Hrun; [|vm_compute in Hrun; discriminate].
  exists b, s'. split; [reflexivity|].
  exact (proj1 (X7_residual_block_main_path
                  (H := logging_torch) _ _ _ _ _ _ _ _ _ _ Hrun)).
Defined.

(** X8: [ResidualBottleneckBlock.__init__] raises [IndexError] when
    [inner_channels] is empty and [AssertionError] when the two inner
    lists differ in length, in both cases before any layer is built.  On
    success the main path starts with a 1x1 convolution from
    [in_out_channels] to [inner_channels[0]], ends with a 1x1 convolution
    from [inner_channels[-1]] back to [in_out_channels], holds two
    convolutions more than [inner_channels] has entries, and the shortcut
    is empty. *)
Theorem X8_bottleneck_projections `{Torch} in_out_channels inner_channels
        inner_kernel_sizes kwargs s :
  let run := ResidualBottleneckBlock_init in_out_channels inner_channels
                                          inner_kernel_sizes kwargs s in
  (inner_channels = [] -> run = (Raise IndexError, s)) /\
  (inner_channels <> [] ->
   length inner_channels <> length inner_kernel_sizes ->
   run = (Raise AssertionError, s)) /\
  (forall b s',
      run = (Ok b, s') ->
      exists c0 cl main,
        head inner_channels = Some c0 /\
        last inner_channels = Some cl /\
        b = ResidualBlock (Sequential main) (Sequential []) /\
        head main = Some (Conv2d in_out_channels c0 1 1 0 1 true) /\
        last main = Some (Conv2d cl in_out_channels 1 1 0 1 true) /\
        count is_conv main = Z.of_nat (length inner_channels) + 2).
Proof.
  intros run. unfold run, ResidualBottleneckBlock_init.
  split; [|split].
  - by intros ->.
  - intros Hne Hlen. destruct inner_channels as [|c0 inner]; [done|].
    rewrite (bind_step _ _ _ c0 s) by (apply index_run; [lia | done]).
    apply ResidualBlock_init_cases. unfold block_args_ok.
    apply andb_false_iff. left. apply andb_false_iff. right.
    apply Nat.eqb_neq. simpl. rewrite !length_app. simpl in *. lia.
  - intros b s' Hrun.
    apply bind_Ok in Hrun as (c0 & s1 & Hc0 & Hrun).
    apply index_Ok_nonneg in Hc0 as [Hc0 ->]; [|done].
    destruct inner_channels as [|c0' inner]; [done|].
    injection Hc0 as ->.
    apply ResidualBlock_init_layers in Hrun as (_ & Hlen & Hb & _).
    simpl in Hlen. rewrite !length_app in Hlen. simpl in Hlen.
    assert (Hlen' : length (c0 :: inner) = length inner_kernel_sizes)
      by (simpl; lia).
    set (chs := c0 :: inner) in *.
    destruct (last chs) as [cl|] eqn:Hcl; [|by apply last_None in Hcl].
    eexists c0, cl, _. split; [done|]. split; [done|].
    split; [|split; [|split]].
    + rewrite Hb. f_equal. f_equal. unfold shortcut_layers.
      change ([c0] ++ chs ++ [in_out_channels])
        with ((c0 :: chs) ++ [in_out_channels]).
      by rewrite List.last_last, Z.eqb_refl.
    + reflexivity.
    + change ([c0] ++ chs ++ [in_out_channels])
        with ((c0 :: chs) ++ [in_out_channels]).
      change ([1] ++ inner_kernel_sizes ++ [1])
        with ((1 :: inner_kernel_sizes) ++ [1]).
      rewrite main_path_spec_last by (simpl; lia).
      rewrite last_cons_cons.
      by rewrite (last_Some_last _ _ c0 Hcl).
    + pose proof (main_path_spec_counts
                    (default false (kw_batchnorm kwargs))
                    (default (0 # 1) (kw_dropout kwargs))
                    _ (default_activation_is_activation
                         (default "relu" (kw_activation_type kwargs))
                         (default ∅ (kw_activation_params kwargs)))
                    ([c0] ++ chs ++ [in_out_channels])
                    ([1] ++ inner_kernel_sizes ++ [1])
                    in_out_channels ltac:(done)) as Hcount.
      destruct Hcount as (Hc & _).
      { simpl. rewrite !length_app. simpl. lia. }
      rewrite Hc. simpl. rewrite length_app. simpl. lia.
Qed.

Lemma X8_witness :
  ResidualBottleneckBlock_init (H := logging_torch) 16 [] [] 
    {| kw_batchnorm := None; kw_dropout := None;
       kw_activation_type := None; kw_activation_params := None |} []
  = (Raise IndexError, []) /\
  exists b s',
    ResidualBottleneckBlock_init (H := logging_torch) 16 [4; 8] [3; 5]
      {| kw_batchnorm := None; kw_dropout := None;
         kw_activation_type := None; kw_activation_params := None |} []
    = (Ok b, s') /\
    exists c0 cl main,
      head [4; 8] = Some c0 /\
      last [4; 8] = Some cl /\
      b = ResidualBlock (Sequential main) (Sequential []) /\
      head main = Some (Conv2d 16 c0 1 1 0 1 true) /\
      last main = Some (Conv2d cl 16 1 1 0 1 true) /\
      count is_conv main = Z.of_nat (length [4; 8]) + 2.
Proof.
  split.
  - exact (proj1 (X8_bottleneck_projections (H := logging_torch) 16 [] [] _ [])
                 eq_refl).
  - destruct (ResidualBottleneckBlock_init (H := logging_torch) 16 [4; 8]
                [3; 5]
                {| kw_batchnorm := None; kw_dropout := None;
                   kw_activation_type := None;
                   kw_activation_params := None |} [])
      as [[b|e] s'] eqn:Hrun; [|vm_compute in Hrun; discriminate].
    exists b, s'. split; [reflexivity|].
    exact (proj2 (proj2 (X8_bottleneck_projections
                           (H := logging_torch) 16 [4; 8] [3; 5] _ []))
                 b s' Hrun).
Defined.

(** * The residual classifiers *)

Section ResNetErrors.
Context `{Torch}.

Lemma ConvClassifier_init_enter c bn dp a s :
  channels a <> [] -> hidden_dims a <> [] -> valid_types a ->
  ConvClassifier_init c bn dp a s
  = (let self := {| cls := c; hp := a; batchnorm := bn; dropout := dp;
                    pools_num := None; features_num := None;
                    feature_extractor := None; classifier := None;
                    dropout_module := None |} in
     sf <- _make_feature_extractor self ;;
     let self := set_feature_extractor (fst sf) (snd sf) in
     cl <- _make_classifier self ;;
     ret (set_classifier self cl)) s.
Proof.
  intros Hch Hhd Hv. unfold ConvClassifier_init.
  rewrite (bind_step _ _ _ tt s); cycle 1.
  { by destruct (channels a), (hidden_dims a). }
  by rewrite (proj2 (valid_types_contains a) Hv).
Qed.

End ResNetErrors.

(** X9: a [ResNetClassifier] whose [pooling_params] has no
    ['kernel_size'] raises [KeyError], whatever [conv_params] holds, and
    with [pool_every = 0] it raises [ZeroDivisionError], as does
    [YourCodeNet], which reads no pooling parameter at all; in each case no
    layer has been built. *)
Theorem X9_residual_classifier_errors `{Torch} (a : hparams) (bn : bool)
        (dp : Q) C Hh W s :
  channels a <> [] -> hidden_dims a <> [] -> valid_types a ->
  in_size a = [C; Hh; W] ->
  (pooling_params a !! "kernel_size" = None ->
   new_ResNetClassifier a bn dp s = (Raise (KeyError "kernel_size"), s)) /\
  (is_Some (pooling_params a !! "kernel_size") -> pool_every a = 0 ->
   new_ResNetClassifier a bn dp s = (Raise ZeroDivisionError, s)) /\
  (pool_every a = 0 ->
   new_YourCodeNet a s = (Raise ZeroDivisionError, s)).
Proof.
  intros Hch Hhd Hv Hin. split; [|split].
  - intros Hk. unfold new_ResNetClassifier.
    rewrite ConvClassifier_init_enter by done.
    apply bind_fail. unfold _make_feature_extractor. cbn [cls].
    unfold ResNetClassifier_make_feature_extractor.
    cbn [hp set_pools_num set_features_num]. rewrite Hin.
    rewrite (bind_step _ _ _ (C, Hh, W) s eq_refl).
    rewrite (bind_step _ _ _ (C, Hh, W) s eq_refl). cbv beta iota.
    apply bind_fail. rewrite read_pooling_params_run.
    unfold pool_geometry. by rewrite Hk.
  - intros [k Hk] HP. unfold new_ResNetClassifier.
    rewrite ConvClassifier_init_enter by done.
    apply bind_fail. unfold _make_feature_extractor. cbn [cls].
    unfold ResNetClassifier_make_feature_extractor.
    cbn [hp set_pools_num set_features_num]. rewrite Hin.
    rewrite (bind_step _ _ _ (C, Hh, W) s eq_refl).
    rewrite (bind_step _ _ _ (C, Hh, W) s eq_refl). cbv beta iota.
    erewrite bind_step; cycle 1.
    { rewrite read_pooling_params_run. unfold pool_geometry.
      rewrite Hk. reflexivity. }
    apply bind_fail. unfold py_mod. by rewrite HP.
  - intros HP. unfold new_YourCodeNet. apply bind_fail.
    rewrite ConvClassifier_init_enter by done.
    apply bind_fail. unfold _make_feature_extractor. cbn [cls].
    unfold YourCodeNet_make_feature_extractor.
    cbn [hp set_pools_num set_features_num]. rewrite Hin.
    rewrite (bind_step _ _ _ (C, Hh, W) s eq_refl).
    rewrite (bind_step _ _ _ (C, Hh, W) s eq_refl). cbv beta iota.
    apply bind_fail. unfold py_mod. by rewrite HP.
Qed.

Lemma X9_witness :
  new_ResNetClassifier (H := logging_torch)
    {| in_size := [3; 32; 32]; out_classes := 10; channels := [8; 16];
       pool_every := 2; hidden_dims := [10];
       conv_params := {["kernel_size" := 3]}; activation_type := "relu";
       activation_params := ∅;
       pooling_type := "max"; pooling_params := ∅ |} true (1 # 10) []
  = (Raise (KeyError "kernel_size"), []) /\
  new_YourCodeNet (H := logging_torch)
    {| in_size := [3; 32; 32]; out_classes := 10; channels := [8; 16];
       pool_every := 0; hidden_dims := [10];
       conv_params := ∅; activation_type := "relu";
       activation_params := ∅;
       pooling_type := "max"; pooling_params := ∅ |} []
  = (Raise ZeroDivisionError, []).
Proof.
  split.
  - refine (proj1 (X9_residual_classifier_errors
                     (H := logging_torch) _ true (1 # 10) 3 32 32 []
                     _ _ _ _) _);
      try done. split; by left.
  - refine (proj2 (proj2 (X9_residual_classifier_errors
                            (H := logging_torch) _ true (1 # 10) 3 32 32 []
                            _ _ _ _)) _);
      try done. split; by left.
Defined.

(** ** Slices of the channel list *)

Lemma slice_chunk {A} (firsts rest : list A) (P i : Z) :
  0 < P -> 0 <= i ->
  Z.of_nat (length firsts) = P * i ->
  P <= Z.of_nat (length rest) ->
  slice (firsts ++ rest) (P * i) (P * (i + 1)) = take (Z.to_nat P) rest.
Proof.
  intros HP Hi Hlen Hrest. unfold slice, clamp.
  rewrite length_app.
  destruct (Z.ltb_spec (P * i) 0); [lia|].
  destruct (Z.ltb_spec (P * (i + 1)) 0); [lia|].
  rewrite !Z.min_l by lia.
  replace (P * (i + 1) - P * i) with P by lia.
  replace (Z.to_nat (P * i)) with (length firsts) by lia.
  by rewrite drop_app_length.
Qed.

Lemma slice_from_drop {A} (l : list A) (i : Z) :
  0 <= i <= Z.of_nat (length l) ->
  slice_from l i = drop (Z.to_nat i) l.
Proof.
  intros Hi. unfold slice_from, clamp.
  destruct (Z.ltb_spec i 0); [lia|]. by rewrite Z.min_l by lia.
Qed.

Lemma last_take_lookup {A} (l : list A) (n : nat) x d :
  l !! n = Some x -> List.last (take (S n) l) d = x.
Proof.
  revert l d. induction n as [|n IH]; intros [|y l] d Hl; try done.
  - simpl in Hl. injection Hl as ->. by destruct l.
  - simpl in Hl. rewrite firstn_cons.
    destruct (take (S n) l) as [|z l'] eqn:E.
    { by destruct l. }
    rewrite last_cons_cons, <- E. by apply IH.
Qed.

Lemma last_app_default {A} (l1 l2 : list A) d :
  List.last (l1 ++ l2) d = List.last l2 (List.last l1 d).
Proof.
  revert d. induction l1 as [|x l1 IH]; intros d; [done|].
  rewrite <- app_comm_cons, !last_cons_cons. apply IH.
Qed.

Lemma take_add_drop {A} (l : list A) (n m : nat) :
  take (n + m) l = take n l ++ take m (drop n l).
Proof.
  revert l. induction n as [|n IH]; intros [|x l]; simpl; try done.
  - by rewrite take_nil.
  - by rewrite IH.
Qed.

Lemma resnet_groups_app bn dp sep P g1 g2 cin chs :
  resnet_groups bn dp sep P (g1 + g2) cin chs
  = resnet_groups bn dp sep P g1 cin chs
      ++ resnet_groups bn dp sep P g2
           (List.last (take (g1 * P) chs) cin) (drop (g1 * P) chs).
Proof.
  revert cin chs. induction g1 as [|g1 IH]; intros cin chs; [done|].
  simpl. rewrite IH, <- !app_assoc. simpl.
  rewrite take_add_drop, last_app_default, drop_drop. done.
Qed.

Section ResNetLoop.
Context `{Torch}.
Variables (self : ConvClassifier) (bn : bool) (dp : Q).
Variables (pool : geometry) (poolL : nn_Module).
Hypothesis Hbn : batchnorm self = Some bn.
Hypothesis Hdp : dropout self = Some dp.
Hypothesis Hpool : pooling_of (hp self) pool = Some poolL.
Hypothesis HP : 0 < pool_every (hp self).

Lemma block_of_chunk cin chunk (k : Z) b s s' :
  ResidualBlock_init cin chunk (repeat_list 3 k) bn dp "relu" ∅ s
  = (Ok b, s') ->
  b = block_spec bn dp cin chunk /\ chunk <> [].
Proof.
  intros Hb.
  apply ResidualBlock_init_layers in Hb as (Hne & Hlen & -> & _).
  split; [|done]. unfold block_spec, repeat_list in *.
  rewrite length_replicate in Hlen. by rewrite Hlen.
Qed.

Lemma rn_body_step idx st s st' s' n firsts rest :
  rn_inv self n st -> 0 <= idx ->
  channels (hp self) = firsts ++ rest ->
  Z.of_nat (length firsts) = pool_every (hp self) * idx ->
  pool_every (hp self) <= Z.of_nat (length rest) ->
  rn_body pool idx st s = (Ok st', s') ->
  let chunk := take (Z.to_nat (pool_every (hp self))) rest in
  rn_inv self (n + 1) st' /\
  rn_layers st'
  = rn_layers st ++ [block_spec bn dp (rn_curr_channels st) chunk; poolL] /\
  rn_curr_channels st' = List.last chunk (rn_curr_channels st) /\
  rn_in_h st' = out_size_of pool (rn_in_h st) /\
  rn_in_w st' = out_size_of pool (rn_in_w st).
Proof.
  intros Hinv Hidx Hchs Hlen Hrest Hbody chunk.
  destruct st as [self0 layers0 h0 w0 c0].
  unfold rn_inv in Hinv. cbn [rn_self] in Hinv. subst self0.
  unfold rn_body in Hbody.
  cbn [rn_self rn_layers rn_in_h rn_in_w rn_curr_channels
       hp batchnorm dropout pools_num set_pools_num] in Hbody |- *.
  apply bind_Ok in Hbody as (bn0 & s1 & Hb & Hbody).
  apply getattr_Ok in Hb as [Hb ->].
  apply bind_Ok in Hbody as (dp0 & s1 & Hd & Hbody).
  apply getattr_Ok in Hd as [Hd ->].
  assert (bn0 = bn) as -> by congruence.
  assert (dp0 = dp) as -> by congruence.
  apply bind_Ok in Hbody as (b & s1 & Hblock & Hbody).
  rewrite Hchs, slice_chunk in Hblock by done.
  apply block_of_chunk in Hblock as [-> _].
  apply bind_Ok in Hbody as (layers & s2 & Hmp & Hbody).
  destruct (make_pooling_run (set_pools_num self n) pool
                             (layers0 ++ [block_spec bn dp c0 chunk]) s1)
    as (poolL' & HpoolL' & Hmprun).
  { apply (pooling_of_valid _ _ _ Hpool). }
  cbn [hp set_pools_num] in HpoolL'.
  assert (poolL' = poolL) as -> by congruence.
  fold chunk in Hmp. rewrite Hmprun in Hmp.
  apply bind_Ok in Hmp as (p & s3 & Hp & Hmp).
  apply nn_Ok in Hp as (_ & -> & ->).
  apply ret_Ok in Hmp as [<- <-].
  apply bind_Ok in Hbody as (h & s4 & Hh & Hbody).
  apply out_size_Ok in Hh as (_ & -> & ->).
  apply bind_Ok in Hbody as (w & s4 & Hw & Hbody).
  apply out_size_Ok in Hw as (_ & -> & ->).
  apply bind_Ok in Hbody as (n0 & s4 & Hn & Hbody).
  apply getattr_Ok in Hn as [[= <-] ->].
  apply bind_Ok in Hbody as (cc & s4 & Hcc & Hbody).
  apply index_Ok_nonneg in Hcc as [Hcc ->]; [|lia].
  apply ret_Ok in Hbody as [<- <-].
  cbn [rn_self rn_layers rn_in_h rn_in_w rn_curr_channels].
  split; [done|]. split; [by rewrite <- app_assoc|]. split; [|done].
  rewrite Hchs in Hcc.
  rewrite lookup_app_r in Hcc by lia.
  unfold chunk.
  replace (Z.to_nat (pool_every (hp self)))
    with (S (Z.to_nat (pool_every (hp self) * (idx + 1) - 1)
             - length firsts)) by lia.
  symmetry. by apply last_take_lookup.
Qed.

Lemma rn_loop_layers :
  forall (k : nat) rest firsts i st s st' s' n,
    rn_inv self n st -> 0 <= i ->
    channels (hp self) = firsts ++ rest ->
    Z.of_nat (length firsts) = pool_every (hp self) * i ->
    pool_every (hp self) * Z.of_nat k <= Z.of_nat (length rest) ->
    for_each (range i (i + Z.of_nat k)) (rn_body pool) st s = (Ok st', s') ->
    rn_inv self (n + Z.of_nat k) st' /\
    rn_layers st'
    = rn_layers st
        ++ resnet_groups bn dp [poolL] (Z.to_nat (pool_every (hp self))) k
                         (rn_curr_channels st) rest /\
    rn_curr_channels st'
    = List.last (take (k * Z.to_nat (pool_every (hp self))) rest)
                (rn_curr_channels st) /\
    rn_in_h st' = Nat.iter k (out_size_of pool) (rn_in_h st) /\
    rn_in_w st' = Nat.iter k (out_size_of pool) (rn_in_w st).
Proof.
  induction k as [|k IH];
    intros rest firsts i st s st' s' n Hinv Hi Hchs Hlen Hrest Hrun.
  - rewrite range_nil in Hrun by lia. apply ret_Ok in Hrun as [<- <-].
    rewrite Z.add_0_r, app_nil_r. done.
  - rewrite range_cons in Hrun by lia. simpl in Hrun.
    apply bind_Ok in Hrun as (st1 & s1 & Hbody & Hrun).
    eapply rn_body_step in Hbody; eauto; [|lia].
    destruct Hbody as (Hinv1 & Hl1 & Hc1 & Hh1 & Hw1).
    replace (i + Z.of_nat (S k)) with (i + 1 + Z.of_nat k)
      in Hrun by lia.
    apply (IH (drop (Z.to_nat (pool_every (hp self))) rest)
              (firsts ++ take (Z.to_nat (pool_every (hp self))) rest)
              (i + 1) st1 s1 st' s' (n + 1)) in Hrun; [|done|lia|..].
    + destruct Hrun as (Hinv' & Hl' & Hc' & Hh' & Hw').
      split. { by replace (n + Z.of_nat (S k)) with (n + 1 + Z.of_nat k)
                 by lia. }
      split. { rewrite Hl', Hl1, <- app_assoc, Hc1. done. }
      split. { rewrite Hc', Hc1. simpl.
               by rewrite take_add_drop, last_app_default. }
      split.
      * by rewrite Hh', Hh1, Nat.iter_succ_r.
      * by rewrite Hw', Hw1, Nat.iter_succ_r.
    + by rewrite <- app_assoc, take_drop.
    + rewrite length_app, length_take. lia.
    + rewrite length_drop. lia.
Qed.

End ResNetLoop.

Section ResNetFeatureExtractor.
Context `{Torch}.

(** What a successful [ResNetClassifier._make_feature_extractor]
    returns when [pool_every] is positive. *)
Lemma ResNetClassifier_make_feature_extractor_Ok self bn dp s self' fe s' :
  batchnorm self = Some bn -> dropout self = Some dp ->
  0 < pool_every (hp self) ->
  pooling_type (hp self) = "max" \/ pooling_type (hp self) = "avg" ->
  ResNetClassifier_make_feature_extractor self s = (Ok (self', fe), s') ->
  let a := hp self in
  let g := Z.to_nat (Z.of_nat (length (channels a)) / pool_every a) in
  exists C Hh W pool poolL cN,
    in_size a = [C; Hh; W] /\
    pool_geometry (pooling_params a) = Some pool /\
    pooling_of a pool = Some poolL /\
    last (channels a) = Some cN /\
    fe = Sequential (resnet_layers bn dp poolL (pool_every a) C (channels a)) /\
    self' = set_features_num
              (set_pools_num self (Z.of_nat g))
              (cN * Nat.iter g (out_size_of pool) Hh
               * Nat.iter g (out_size_of pool) W).
Proof.
  intros Hbn Hdp HP Hv Hrun a g. fold a in HP, Hv.
  unfold ResNetClassifier_make_feature_extractor in Hrun.
  cbn [hp set_pools_num set_features_num] in Hrun. fold a in Hrun.
  apply bind_Ok in Hrun as (chw0 & s1 & Hu & Hrun).
  apply unpack3_Ok in Hu as [_ ->].
  apply bind_Ok in Hrun as ([[C Hh] W] & s1 & Hu & Hrun).
  apply unpack3_Ok in Hu as [Hin ->]. cbn [fst snd] in Hin.
  apply bind_Ok in Hrun as (pool & s1 & Hp & Hrun).
  apply read_pooling_params_Ok in Hp as [Hgeo ->].
  apply bind_Ok in Hrun as (r & s1 & Hr & Hrun).
  apply py_mod_Ok in Hr as (_ & -> & ->).
  apply bind_Ok in Hrun as (blocks & s1 & Hb & Hrun).
  apply int_truediv_Ok in Hb as (_ & -> & ->).
  rewrite quot_floor in Hrun by lia.
  apply bind_Ok in Hrun as (st & s1 & Hloop & Hrun).
  destruct (pooling_of a pool) as [poolL|] eqn:HpoolL; cycle 1.
  { exfalso. unfold pooling_of in HpoolL.
    destruct Hv as [Hv|Hv]; rewrite Hv in HpoolL; discriminate. }
  set (N := Z.of_nat (length (channels a))) in *.
  assert (HN : 0 <= N / pool_every a) by (apply Z.div_pos; lia).
  assert (Hmul : pool_every a * (N / pool_every a) <= N)
    by (apply Z.mul_div_le; lia).
  set (self0 := set_features_num (set_pools_num self 0) 1).
  replace (N / pool_every a) with (0 + Z.of_nat g) in Hloop
    by (unfold g; fold N; lia).
  apply (rn_loop_layers self0 bn dp pool poolL Hbn Hdp HpoolL HP
                        g (channels a) [] 0 _ _ _ _ 0) in Hloop;
    [|reflexivity|lia|reflexivity|simpl; fold a; lia
     |unfold g; fold a N; cbn [hp self0 set_features_num set_pools_num];
      fold a; lia].
  destruct Hloop as (Hinv & Hlayers & Hcurr & Hh' & Hw').
  cbn [rn_layers rn_curr_channels rn_in_h rn_in_w hp self0
       set_features_num set_pools_num] in Hlayers, Hcurr, Hh', Hw'.
  fold a in Hlayers, Hcurr.
  unfold rn_inv in Hinv. rewrite Hinv in Hrun.
  cbn [hp batchnorm dropout self0 set_features_num set_pools_num] in Hrun.
  fold a N in Hrun.
  apply bind_Ok in Hrun as (layers & s2 & Hl & Hrun).
  apply bind_Ok in Hrun as (cN & s3 & Hlast & Hrun).
  apply index_last_Ok in Hlast as [Hlast ->].
  apply ret_Ok in Hrun as [[= <- <-] <-].
  exists C, Hh, W, pool, poolL, cN.
  do 4 (split; [done|]). split.
  - f_equal. unfold resnet_layers, resnet_tail. fold N g.
    destruct (Z.eqb_spec (N mod pool_every a) 0) as [Hr|Hr];
      cbn [negb] in Hl.
    + apply ret_Ok in Hl as [<- _]. by rewrite app_nil_r.
    + apply bind_Ok in Hl as (bn0 & s4 & Hb1 & Hl).
      apply getattr_Ok in Hb1 as [Hb1 ->].
      apply bind_Ok in Hl as (dp0 & s4 & Hd1 & Hl).
      apply getattr_Ok in Hd1 as [Hd1 ->].
      assert (bn0 = bn) as -> by congruence.
      assert (dp0 = dp) as -> by congruence.
      apply bind_Ok in Hl as (b & s4 & Hblock & Hl).
      apply ret_Ok in Hl as [<- _].
      apply block_of_chunk in Hblock as [-> _].
      rewrite Hlayers, Hcurr. f_equal. f_equal.
      assert (Hdone : N - N mod pool_every a
                      = pool_every a * (N / pool_every a)).
      { pose proof (Z.div_mod N (pool_every a)). lia. }
      rewrite slice_from_drop by (fold N; rewrite Hdone; lia).
      rewrite Hdone.
      replace (g * Z.to_nat (pool_every a))%nat
        with (Z.to_nat (pool_every a * (N / pool_every a)))
        by (unfold g; lia).
      done.
  - rewrite Hh', Hw'. fold g. by rewrite Z.add_0_l.
Qed.

(** [ConvClassifier.__init__] through its two builders. *)
Lemma ConvClassifier_init_Ok c bn dp a s self s' :
  ConvClassifier_init c bn dp a s = (Ok self, s') ->
  channels a <> [] /\ hidden_dims a <> [] /\ valid_types a /\
  exists self1 fe s1 cl,
    _make_feature_extractor
      {| cls := c; hp := a; batchnorm := bn; dropout := dp;
         pools_num := None; features_num := None;
         feature_extractor := None; classifier := None;
         dropout_module := None |} s = (Ok (self1, fe), s1) /\
    _make_classifier (set_feature_extractor self1 fe) s1 = (Ok cl, s') /\
    self = set_classifier (set_feature_extractor self1 fe) cl.
Proof.
  unfold ConvClassifier_init. intros Hrun.
  apply bind_Ok in Hrun as ([] & s0 & Ha & Hrun).
  apply py_assert_Ok in Ha as [Hne ->].
  apply andb_true_iff in Hne as [Hc Hh].
  destruct (negb (contains (activation_type a) ACTIVATIONS)
            || negb (contains (pooling_type a) POOLINGS)) eqn:Ev;
    [discriminate|].
  apply valid_types_contains in Ev.
  apply bind_Ok in Hrun as ([self1 fe] & s1 & Hfe & Hrun).
  apply bind_Ok in Hrun as (cl & s2 & Hcl & Hrun).
  apply ret_Ok in Hrun as [<- <-].
  split; [by destruct (channels a)|]. split; [by destruct (hidden_dims a)|].
  split; [done|]. by exists self1, fe, s1, cl.
Qed.

End ResNetFeatureExtractor.



(** ** Counting the layers of the residual feature extractor *)

Lemma count_cons f m l :
  count f (m :: l) = (if f m then 1 else 0) + count f l.
Proof. unfold count. simpl. destruct (f m); simpl; lia. Qed.

Lemma count_nil f : count f [] = 0.
Proof. reflexivity. Qed.

Lemma main_path_spec_resnet bn dp chs :
  forall cin,
    Forall resnet_main_layer
           (main_path_spec bn dp ReLU cin chs (replicate (length chs) 3)) /\
    count is_conv
          (main_path_spec bn dp ReLU cin chs (replicate (length chs) 3))
    = Z.of_nat (length chs).
Proof.
  induction chs as [|c chs IH]; intros cin; [by split|].
  destruct chs as [|c' chs]; [split; [by repeat constructor | done]|].
  destruct (IH c) as [IHf IHc].
  change (replicate (length (c :: c' :: chs)) 3)
    with (3 :: replicate (length (c' :: chs)) 3).
  rewrite main_path_spec_step.
  remember (main_path_spec bn dp ReLU c (c' :: chs)
                           (replicate (length (c' :: chs)) 3)) as tl.
  remember (length (c' :: chs)) as n.
  change (length (c :: c' :: chs)) with (S (length (c' :: chs))).
  rewrite <- Heqn.
  split.
  - constructor; [done|]. constructor; [done|].
    destruct bn; simpl; by repeat constructor.
  - rewrite !count_cons, count_app. cbn [is_conv].
    destruct bn; rewrite ?count_cons, ?count_nil; cbn [is_conv]; lia.
Qed.

Lemma resnet_groups_counts bn dp poolL P :
  is_pooling poolL = true ->
  forall g cin chs,
    (g * P <= length chs)%nat ->
    let layers := resnet_groups bn dp [poolL] P g cin chs in
    count is_pooling layers = Z.of_nat g /\
    count is_block layers = Z.of_nat g /\
    count is_conv (flat_map main_path_of layers) = Z.of_nat (g * P) /\
    Forall resnet_main_layer (flat_map main_path_of layers).
Proof.
  intros Hpool. induction g as [|g IH]; intros cin chs Hlen layers;
    [by repeat split|].
  unfold layers. cbn [resnet_groups].
  destruct (IH (List.last (take P chs) cin) (drop P chs)) as (Ip & Ib & Ic & If).
  { rewrite length_drop. simpl in Hlen. lia. }
  remember (resnet_groups bn dp [poolL] P g (List.last (take P chs) cin)
                          (drop P chs)) as tl.
  destruct (main_path_spec_resnet bn dp (take P chs) cin) as [Hf Hc].
  assert (HpoolL : main_path_of poolL = [] /\ is_block poolL = false).
  { by destruct poolL. }
  destruct HpoolL as [Hmp Hnb].
  cbn [app flat_map]. rewrite Hmp. cbn [app].
  rewrite !count_cons, Hpool, Hnb. unfold block_spec.
  cbn [is_pooling is_block main_path_of].
  rewrite count_app, Hc.
  repeat split; try lia.
  - rewrite length_take. simpl in Hlen. lia.
  - by apply Forall_app.
Qed.

Lemma resnet_layers_counts bn dp poolL P cin chs :
  0 < P -> is_pooling poolL = true ->
  let N := Z.of_nat (length chs) in
  let layers := resnet_layers bn dp poolL P cin chs in
  count is_pooling layers = N / P /\
  count is_block layers = N / P + (if N mod P =? 0 then 0 else 1) /\
  count is_conv (flat_map main_path_of layers) = N /\
  Forall resnet_main_layer (flat_map main_path_of layers).
Proof.
  intros HP Hpool N layers. unfold layers, resnet_layers, resnet_tail.
  fold N.
  assert (HN : 0 <= N / P) by (apply Z.div_pos; lia).
  assert (Hmul : P * (N / P) <= N) by (apply Z.mul_div_le; lia).
  pose proof (Z.div_mod N P ltac:(lia)) as Hdm.
  destruct (resnet_groups_counts bn dp poolL (Z.to_nat P) Hpool
                                 (Z.to_nat (N / P)) cin chs)
    as (Ip & Ib & Ic & If).
  { unfold N in *. nia. }
  remember (resnet_groups bn dp [poolL] (Z.to_nat P) (Z.to_nat (N / P))
                          cin chs) as grp.
  rewrite flat_map_app, !count_app.
  destruct (Z.eqb_spec (N mod P) 0) as [Hr|Hr].
  - cbn [flat_map]. rewrite !count_nil, app_nil_r.
    repeat split; first [lia | nia | done].
  - remember (drop (Z.to_nat (P * (N / P))) chs) as rest.
    remember (List.last (take (Z.to_nat (P * (N / P))) chs) cin) as curr.
    destruct (main_path_spec_resnet bn dp rest curr) as [Hf Hc].
    unfold block_spec. cbn [flat_map main_path_of]. rewrite app_nil_r.
    rewrite !count_cons, !count_nil. cbn [is_pooling is_block].
    rewrite Hc. subst rest.
    repeat split;
      first [lia | rewrite length_drop; unfold N in *; nia
             | by apply Forall_app].
Qed.

(** X11: whatever [conv_params], [activation_type] and
    [activation_params] hold, the feature extractor of a
    [ResNetClassifier] built with a positive [pool_every = P] over [N]
    channel counts has [N / P] pooling layers and [N / P] blocks, plus
    one block when [P] does not divide [N]; the main paths hold [N]
    convolutions in all, each of them 3x3 with stride 1, padding 1,
    dilation 1 and a bias, and no activation other than [ReLU]. *)
Theorem X11_resnet_layer_counts `{Torch} (a : hparams) (bn : bool) (dp : Q)
        s self s' :
  0 < pool_every a ->
  new_ResNetClassifier a bn dp s = (Ok self, s') ->
  let N := Z.of_nat (length (channels a)) in
  exists layers,
    feature_extractor self = Some (Sequential layers) /\
    count is_pooling layers = N / pool_every a /\
    count is_block layers
    = N / pool_every a + (if N mod pool_every a =? 0 then 0 else 1) /\
    count is_conv (flat_map main_path_of layers) = N /\
    Forall resnet_main_layer (flat_map main_path_of layers).
Proof.
  intros HP Hrun N. unfold new_ResNetClassifier in Hrun.
  apply ConvClassifier_init_Ok in Hrun
    as (_ & _ & [_ Hv] & self1 & fe & s1 & cl & Hfe & _ & ->).
  unfold _make_feature_extractor in Hfe. cbn [cls] in Hfe.
  apply ResNetClassifier_make_feature_extractor_Ok with (bn := bn) (dp := dp)
    in Hfe; [|done..].
  cbn [hp] in Hfe.
  destruct Hfe as (C & Hh & W & pool & poolL & cN & Hin & Hgeo & Hpool
                   & Hlast & -> & ->).
  eexists. split; [reflexivity|].
  apply resnet_layers_counts; [done|].
  unfold pooling_of in Hpool.
  destruct (pooling_type a =? "max")%string; [by injection Hpool as <-|].
  destruct (pooling_type a =? "avg")%string; [by injection Hpool as <-|].
  discriminate.
Qed.

Lemma X11_witness :
  exists self s' layers,
    new_ResNetClassifier (H := logging_torch)
      {| in_size := [3; 32; 32]; out_classes := 10;
         channels := [8; 16; 32; 64; 128];
         pool_every := 2; hidden_dims := [10];
         conv_params := {["kernel_size" := 5]}; activation_type := "lrelu";
         activation_params := {["negative_slope" := 1 # 100]};
         pooling_type := "avg";
         pooling_params := {["kernel_size" := 2]} |} true (1 # 10) []
    = (Ok self, s') /\
    feature_extractor self = Some (Sequential layers) /\
    count is_pooling layers = 2 /\
    count is_block layers = 3 /\
    count is_conv (flat_map main_path_of layers) = 5 /\
    Forall resnet_main_layer (flat_map main_path_of layers).
Proof.
  destruct (new_ResNetClassifier (H := logging_torch)
      {| in_size := [3; 32; 32]; out_classes := 10;
         channels := [8; 16; 32; 64; 128];
         pool_every := 2; hidden_dims := [10];
         conv_params := {["kernel_size" := 5]}; activation_type := "lrelu";
         activation_params := {["negative_slope" := 1 # 100]};
         pooling_type := "avg";
         pooling_params := {["kernel_size" := 2]} |} true (1 # 10) [])
    as [[self|e] s'] eqn:Hrun; [|vm_compute in Hrun; discriminate].
  apply (X11_resnet_layer_counts (H := logging_torch)) in Hrun as Hx;
    [|simpl; lia].
  destruct Hx as (layers & Hfe & Hx).
  exists self, s', layers. split; [reflexivity|]. split; [done|].
  exact Hx.
Defined.

(** X12: with a negative [pool_every = P] the loop of
    [ResNetClassifier._make_feature_extractor] does not run.  When [P]
    divides the number of channel counts the method returns an empty
    container, [pools_num] is 0 and [features_num] is the last channel
    count times the input height and width; otherwise the block for the
    remaining channels gets an empty slice and raises [AssertionError].
    No layer is built in either case. *)
Theorem X12_resnet_negative_pool_every `{Torch} (self : ConvClassifier)
        (bn : bool) (dp : Q) C Hh W pool cN s :
  in_size (hp self) = [C; Hh; W] ->
  pool_geometry (pooling_params (hp self)) = Some pool ->
  last (channels (hp self)) = Some cN ->
  batchnorm self = Some bn -> dropout self = Some dp ->
  pool_every (hp self) < 0 ->
  ResNetClassifier_make_feature_extractor self s
  = if Z.of_nat (length (channels (hp self))) mod pool_every (hp self) =? 0
    then (Ok (set_features_num (set_pools_num self 0) (cN * Hh * W),
              Sequential []), s)
    else (Raise AssertionError, s).
Proof.
  intros Hin Hgeo Hlast Hbn Hdp HP.
  unfold ResNetClassifier_make_feature_extractor.
  cbn [hp set_pools_num set_features_num]. rewrite Hin.
  rewrite (bind_step _ _ _ (C, Hh, W) s eq_refl).
  rewrite (bind_step _ _ _ (C, Hh, W) s eq_refl). cbv beta iota.
  erewrite bind_step; cycle 1.
  { rewrite read_pooling_params_run, Hgeo. reflexivity. }
  set (N := Z.of_nat (length (channels (hp self)))).
  rewrite (bind_step _ _ _ (N mod pool_every (hp self)) s)
    by (apply py_mod_run; lia).
  rewrite (bind_step _ _ _ (Z.quot N (pool_every (hp self))) s)
    by (apply int_truediv_Ok; repeat split; lia).
  assert (Hq : Z.quot N (pool_every (hp self)) <= 0).
  { rewrite <- (Z.opp_involutive (pool_every (hp self))), Z.quot_opp_r by lia.
    assert (0 <= Z.quot N (- pool_every (hp self)))
      by (apply Z.quot_pos; lia).
    lia. }
  rewrite range_nil by lia. cbn [for_each].
  erewrite (bind_step (ret _)); [|reflexivity].
  cbn [rn_self rn_layers rn_in_h rn_in_w rn_curr_channels hp batchnorm
       dropout set_pools_num set_features_num].
  pose proof (Z.mod_neg_bound N (pool_every (hp self)) HP) as Hr.
  destruct (Z.eqb_spec (N mod pool_every (hp self)) 0) as [E|E];
    cbn [negb].
  - erewrite (bind_step (ret _)); [|reflexivity].
    rewrite (bind_step _ _ _ cN s) by (by apply index_last_Ok).
    reflexivity.
  - apply bind_fail.
    rewrite (bind_step _ _ _ bn s) by (by apply getattr_run).
    rewrite (bind_step _ _ _ dp s) by (by apply getattr_run).
    apply bind_fail.
    apply ResidualBlock_init_cases. unfold block_args_ok.
    replace (slice_from (channels (hp self))
                        (N - N mod pool_every (hp self)))
      with (@nil Z); [done|].
    unfold slice_from, clamp. fold N.
    destruct (Z.ltb_spec (N - N mod pool_every (hp self)) 0); [lia|].
    rewrite Z.min_r by lia. unfold N. rewrite Nat2Z.id.
    by rewrite drop_all.
Qed.

Lemma X12_witness :
  let self :=
    {| cls := ResNetClassifier_class;
       hp := {| in_size := [3; 32; 32]; out_classes := 10;
                channels := [8; 16; 32; 64];
                pool_every := -2; hidden_dims := [10];
                conv_params := ∅; activation_type := "relu";
                activation_params := ∅;
                pooling_type := "max";
                pooling_params := {["kernel_size" := 2]} |};
       batchnorm := Some false; dropout := Some (0 # 1);
       pools_num := None; features_num := None;
       feature_extractor := None; classifier := None;
       dropout_module := None |} in
  ResNetClassifier_make_feature_extractor (H := logging_torch) self []
  = (Ok (set_features_num (set_pools_num self 0) (64 * 32 * 32),
         Sequential []), []).
Proof.
  intros self.
  exact (X12_resnet_negative_pool_every
           (H := logging_torch) self false (0 # 1) 3 32 32
           {| g_kernel := 2; g_stride := 2; g_padding := 0;
              g_dilation := 1 |} 64 []
           eq_refl eq_refl eq_refl eq_refl eq_refl eq_refl).
Defined.

(** * [YourCodeNet] *)

Section YourCodeNetLoop.
Context `{Torch}.
Variable self : ConvClassifier.
Hypothesis HP : 0 < pool_every (hp self).

Lemma yc_body_step last idx st s st' s' n firsts rest :
  rn_inv self n st -> 0 <= idx ->
  channels (hp self) = firsts ++ rest ->
  Z.of_nat (length firsts) = pool_every (hp self) * idx ->
  pool_every (hp self) <= Z.of_nat (length rest) ->
  yc_body last idx st s = (Ok st', s') ->
  let chunk := take (Z.to_nat (pool_every (hp self))) rest in
  let pooled := idx =? last - 1 in
  rn_inv self (n + (if pooled then 1 else 0)) st' /\
  rn_layers st'
  = rn_layers st
      ++ block_spec true (0 # 1) (rn_curr_channels st) chunk
      :: (if pooled then [MaxPool2d 2 2 0 1; Dropout2d (1 # 10)] else []) /\
  rn_curr_channels st' = List.last chunk (rn_curr_channels st) /\
  rn_in_h st'
  = (if pooled then out_size_value (rn_in_h st) 2 2 0 1 else rn_in_h st) /\
  rn_in_w st'
  = (if pooled then out_size_value (rn_in_w st) 2 2 0 1 else rn_in_w st).
Proof.
  intros Hinv Hidx Hchs Hlen Hrest Hbody chunk pooled.
  destruct st as [self0 layers0 h0 w0 c0].
  unfold rn_inv in Hinv. cbn [rn_self] in Hinv. subst self0.
  unfold yc_body in Hbody.
  cbn [rn_self rn_layers rn_in_h rn_in_w rn_curr_channels
       hp pools_num set_pools_num] in Hbody |- *.
  apply bind_Ok in Hbody as (b & s1 & Hblock & Hbody).
  rewrite Hchs, slice_chunk in Hblock by done.
  apply (block_of_chunk true (0 # 1)) in Hblock as [-> _].
  fold chunk in Hbody.
  apply bind_Ok in Hbody as (st1 & s2 & Hst1 & Hbody).
  apply bind_Ok in Hbody as (cc & s3 & Hcc & Hbody).
  apply ret_Ok in Hbody as [<- <-].
  cbn [rn_self rn_layers rn_in_h rn_in_w rn_curr_channels].
  assert (Hcurr : hp (rn_self st1) = hp self ->
                  cc = List.last chunk c0).
  { intros Hhp. rewrite Hhp in Hcc.
    apply index_Ok_nonneg in Hcc as [Hcc _]; [|lia].
    rewrite Hchs, lookup_app_r in Hcc by lia.
    unfold chunk.
    replace (Z.to_nat (pool_every (hp self)))
      with (S (Z.to_nat (pool_every (hp self) * (idx + 1) - 1)
               - length firsts)) by lia.
    symmetry. by apply last_take_lookup. }
  fold pooled in Hst1. destruct pooled.
  - apply bind_Ok in Hst1 as (p & s4 & Hp & Hst1).
    apply nn_Ok in Hp as (_ & -> & ->).
    apply bind_Ok in Hst1 as (d & s4 & Hd & Hst1).
    apply nn_Ok in Hd as (_ & -> & ->).
    apply bind_Ok in Hst1 as (n0 & s4 & Hn & Hst1).
    apply getattr_Ok in Hn as [[= <-] ->].
    apply bind_Ok in Hst1 as (h & s4 & Hh & Hst1).
    apply out_size_Ok in Hh as (_ & -> & ->).
    apply bind_Ok in Hst1 as (w & s4 & Hw & Hst1).
    apply out_size_Ok in Hw as (_ & -> & ->).
    apply ret_Ok in Hst1 as [<- <-].
    cbn [rn_self rn_layers rn_in_h rn_in_w rn_curr_channels] in *.
    split; [done|]. split; [by rewrite <- !app_assoc|].
    split; [by apply Hcurr|done].
  - apply ret_Ok in Hst1 as [<- <-].
    cbn [rn_self rn_layers rn_in_h rn_in_w rn_curr_channels] in *.
    split; [unfold rn_inv; cbn [rn_self]; f_equal; lia|].
    split; [done|]. split; [by apply Hcurr|done].
Qed.

Lemma yc_loop_layers last :
  forall (k : nat) rest firsts i st s st' s' n,
    rn_inv self n st -> 0 <= i ->
    i + Z.of_nat k <= last ->
    channels (hp self) = firsts ++ rest ->
    Z.of_nat (length firsts) = pool_every (hp self) * i ->
    pool_every (hp self) * Z.of_nat k <= Z.of_nat (length rest) ->
    for_each (range i (i + Z.of_nat k)) (yc_body last) st s = (Ok st', s') ->
    let pooled := (0 <? Z.of_nat k) && (i + Z.of_nat k =? last) in
    rn_inv self (n + (if pooled then 1 else 0)) st' /\
    rn_layers st'
    = rn_layers st
        ++ resnet_groups true (0 # 1) [] (Z.to_nat (pool_every (hp self))) k
                         (rn_curr_channels st) rest
        ++ (if pooled then [MaxPool2d 2 2 0 1; Dropout2d (1 # 10)] else []) /\
    rn_curr_channels st'
    = List.last (take (k * Z.to_nat (pool_every (hp self))) rest)
                (rn_curr_channels st) /\
    rn_in_h st'
    = (if pooled then out_size_value (rn_in_h st) 2 2 0 1 else rn_in_h st) /\
    rn_in_w st'
    = (if pooled then out_size_value (rn_in_w st) 2 2 0 1 else rn_in_w st).
Proof.
  induction k as [|k IH];
    intros rest firsts i st s st' s' n Hinv Hi Hlast Hchs Hlen Hrest Hrun
           pooled.
  - rewrite range_nil in Hrun by lia. apply ret_Ok in Hrun as [<- <-].
    unfold pooled. cbn [Z.of_nat Z.ltb Z.compare andb resnet_groups app].
    rewrite Z.add_0_r, app_nil_r. done.
  - rewrite range_cons in Hrun by lia. simpl in Hrun.
    apply bind_Ok in Hrun as (st1 & s1 & Hbody & Hrun).
    eapply yc_body_step in Hbody; eauto; [|lia].
    destruct Hbody as (Hinv1 & Hl1 & Hc1 & Hh1 & Hw1).
    replace (i + Z.of_nat (S k)) with (i + 1 + Z.of_nat k) in Hrun by lia.
    apply (IH (drop (Z.to_nat (pool_every (hp self))) rest)
              (firsts ++ take (Z.to_nat (pool_every (hp self))) rest)
              (i + 1) st1 s1 st' s' _ Hinv1) in Hrun; [|lia|lia|..].
    + destruct Hrun as (Hinv' & Hl' & Hc' & Hh' & Hw').
      assert (Hcase :
                (i =? last - 1) = pooled /\ k = O
                \/ (i =? last - 1) = false /\
                   (0 <? Z.of_nat k) && (i + 1 + Z.of_nat k =? last)
                   = pooled).
      { unfold pooled. destruct k as [|k].
        - left. split; [|done].
          destruct (Z.eqb_spec i (last - 1)),
                   (Z.eqb_spec (i + Z.of_nat 1) last);
            simpl; first [done | lia].
        - right. split; [apply Z.eqb_neq; lia|].
          replace (i + 1 + Z.of_nat (S k)) with (i + Z.of_nat (S (S k)))
            by lia.
          by rewrite !(proj2 (Z.ltb_lt 0 _)) by lia. }
      clearbody pooled. cbn [resnet_groups app].
      destruct Hcase as [[Hp ->]|[Hp Hp']].
      * cbn [Z.of_nat Z.ltb Z.compare andb resnet_groups app Nat.mul take
             List.last] in Hinv', Hl', Hc', Hh', Hw'.
        rewrite Hp in *. rewrite Z.add_0_r in Hinv'.
        rewrite app_nil_r in Hl'.
        rewrite Hl', Hl1, Hc', Hc1, Hh', Hh1, Hw', Hw1.
        cbn [resnet_groups app Nat.mul]. rewrite Nat.add_0_r.
        done.
      * rewrite Hp, Hp' in *. rewrite Z.add_0_r in Hinv'.
        cbv iota in Hl1, Hh1, Hw1.
        rewrite Hl', Hl1, Hc', Hc1, Hh', Hh1, Hw', Hw1.
        repeat split; try done.
        -- by rewrite <- !app_assoc.
        -- simpl. by rewrite take_add_drop, last_app_default.
    + by rewrite <- app_assoc, take_drop.
    + rewrite length_app, length_take. lia.
    + rewrite length_drop. lia.
Qed.

End YourCodeNetLoop.

Section YourCodeNetFeatureExtractor.
Context `{Torch}.

(** What a successful [YourCodeNet._make_feature_extractor] returns when
    [pool_every] is positive. *)
Lemma YourCodeNet_make_feature_extractor_Ok self s self' fe s' :
  0 < pool_every (hp self) ->
  YourCodeNet_make_feature_extractor self s = (Ok (self', fe), s') ->
  let a := hp self in
  let pooled := 0 <? Z.of_nat (length (channels a)) / pool_every a in
  exists C Hh W cN,
    in_size a = [C; Hh; W] /\
    last (channels a) = Some cN /\
    fe = Sequential (yourcodenet_layers (pool_every a) C (channels a)) /\
    self' = set_features_num
              (set_pools_num self (if pooled then 1 else 0))
              (cN * (if pooled then out_size_value Hh 2 2 0 1 else Hh)
               * (if pooled then out_size_value W 2 2 0 1 else W)).
Proof.
  intros HP Hrun a pooled. fold a in HP.
  unfold YourCodeNet_make_feature_extractor in Hrun.
  cbn [hp set_pools_num set_features_num] in Hrun. fold a in Hrun.
  apply bind_Ok in Hrun as (chw0 & s1 & Hu & Hrun).
  apply unpack3_Ok in Hu as [_ ->].
  apply bind_Ok in Hrun as ([[C Hh] W] & s1 & Hu & Hrun).
  apply unpack3_Ok in Hu as [Hin ->]. cbn [fst snd] in Hin.
  apply bind_Ok in Hrun as (r & s1 & Hr & Hrun).
  apply py_mod_Ok in Hr as (_ & -> & ->).
  apply bind_Ok in Hrun as (blocks & s1 & Hb & Hrun).
  apply int_truediv_Ok in Hb as (_ & -> & ->).
  rewrite quot_floor in Hrun by lia.
  apply bind_Ok in Hrun as (st & s1 & Hloop & Hrun).
  set (N := Z.of_nat (length (channels a))) in *.
  assert (HN : 0 <= N / pool_every a) by (apply Z.div_pos; lia).
  assert (Hmul : pool_every a * (N / pool_every a) <= N)
    by (apply Z.mul_div_le; lia).
  set (g := Z.to_nat (N / pool_every a)).
  set (self0 := set_features_num (set_pools_num self 0) 1).
  replace (range 0 (N / pool_every a)) with (range 0 (0 + Z.of_nat g))
    in Hloop by (f_equal; unfold g; lia).
  apply (yc_loop_layers self0 HP (N / pool_every a)
                        g (channels a) [] 0 _ _ _ _ 0) in Hloop;
    [|reflexivity|lia|unfold g; lia|reflexivity|simpl; fold a; lia
     |unfold g; cbn [hp self0 set_features_num set_pools_num];
      fold a N; lia].
  replace ((0 <? Z.of_nat g) && (0 + Z.of_nat g =? N / pool_every a))
    with pooled in Hloop; cycle 1.
  { unfold pooled, g. rewrite Z2Nat.id, Z.add_0_l, Z.eqb_refl by lia.
    by rewrite andb_true_r. }
  destruct Hloop as (Hinv & Hlayers & Hcurr & Hh' & Hw').
  cbn [rn_layers rn_curr_channels rn_in_h rn_in_w hp self0
       set_features_num set_pools_num app] in Hlayers, Hcurr, Hh', Hw'.
  fold a in Hlayers, Hcurr.
  unfold rn_inv in Hinv. rewrite Hinv in Hrun.
  cbn [hp self0 set_features_num set_pools_num] in Hrun.
  fold a N in Hrun.
  apply bind_Ok in Hrun as (layers & s2 & Hl & Hrun).
  apply bind_Ok in Hrun as (cN & s3 & Hlast & Hrun).
  apply index_last_Ok in Hlast as [Hlast ->].
  apply ret_Ok in Hrun as [[= <- <-] <-].
  exists C, Hh, W, cN.
  do 2 (split; [done|]). split.
  - f_equal. unfold yourcodenet_layers, resnet_tail. fold N g pooled.
    destruct (Z.eqb_spec (N mod pool_every a) 0) as [Hr|Hr];
      cbn [negb] in Hl.
    + apply ret_Ok in Hl as [<- _]. by rewrite app_nil_r.
    + apply bind_Ok in Hl as (b & s4 & Hblock & Hl).
      apply ret_Ok in Hl as [<- _].
      apply (block_of_chunk true (0 # 1)) in Hblock as [-> _].
      rewrite Hlayers, Hcurr, <- app_assoc. f_equal. f_equal. f_equal.
      assert (Hdone : N - N mod pool_every a
                      = pool_every a * (N / pool_every a)).
      { pose proof (Z.div_mod N (pool_every a)). lia. }
      rewrite slice_from_drop by (fold N; rewrite Hdone; lia).
      rewrite Hdone.
      replace (g * Z.to_nat (pool_every a))%nat
        with (Z.to_nat (pool_every a * (N / pool_every a)))
        by (unfold g; lia).
      done.
  - rewrite Hh', Hw'. by rewrite Z.add_0_l.
Qed.

End YourCodeNetFeatureExtractor.

Lemma yourcodenet_layers_pooling P cin chs :
  count is_pooling (yourcodenet_layers P cin chs)
  = (if 0 <? Z.of_nat (length chs) / P then 1 else 0).
Proof.
  unfold yourcodenet_layers, resnet_tail.
  assert (Hg : forall g c l,
             count is_pooling
                   (resnet_groups true (0 # 1) [] (Z.to_nat P) g c l) = 0).
  { induction g as [|g IH]; intros c l; [done|].
    cbn [resnet_groups app]. rewrite count_cons. cbn [is_pooling block_spec].
    by rewrite IH. }
  rewrite !count_app, Hg.
  destruct (0 <? Z.of_nat (length chs) / P);
    destruct (Z.of_nat (length chs) mod P =? 0); done.
Qed.



(** * The forward pass of [ConvClassifier], on shapes *)

Lemma fits_floor g size :
  fits g size = true -> floor_out_size g size = out_size_of g size.
Proof.
  unfold fits, floor_out_size, out_size_of, out_size_value.
  intros [Hn Hs]%andb_true_iff.
  apply Z.leb_le in Hn. apply Z.ltb_lt in Hs.
  by rewrite quot_floor by lia.
Qed.

Lemma forward_shape_Sequential_cons m ms x :
  forward_shape (Sequential (m :: ms)) x
  = match forward_shape m x with
    | Some y => forward_shape (Sequential ms) y
    | None => None
    end.
Proof.
  cbn [forward_shape fold_left].
  destruct (forward_shape m x) as [y|]; [done|].
  induction ms as [|m' ms IH]; [done|]. exact IH.
Qed.

Lemma fe_layers_forward conv pool act poolL P :
  is_activation act = true ->
  (poolL = MaxPool2d (g_kernel pool) (g_stride pool) (g_padding pool)
                     (g_dilation pool)
   \/ poolL = AvgPool2d (g_kernel pool) (g_stride pool) (g_padding pool)
      /\ g_dilation pool = 1) ->
  forall chs idx cin h w,
    fe_fits conv pool P idx chs h = true ->
    fe_fits conv pool P idx chs w = true ->
    forward_shape (Sequential (fe_layers conv act poolL P idx cin chs))
                  (cin, h, w)
    = Some (List.last chs cin,
            fe_size conv pool P idx chs h, fe_size conv pool P idx chs w).
Proof.
  intros Hact HpoolL.
  assert (Hpool_shape : forall c h w,
             fits pool h = true -> fits pool w = true ->
             forward_shape poolL (c, h, w)
             = Some (c, out_size_of pool h, out_size_of pool w)).
  { intros c h w Hh Hw.
    destruct HpoolL as [-> | [-> Hd]]; cbn [forward_shape fst snd].
    - rewrite <- (fits_floor pool h Hh), <- (fits_floor pool w Hw).
      by destruct pool.
    - rewrite <- (fits_floor pool h Hh), <- (fits_floor pool w Hw).
      destruct pool; simpl in *. by subst. }
  assert (Hconv_shape : forall cin c h w,
             fits conv h = true -> fits conv w = true ->
             forward_shape (Conv2d cin c (g_kernel conv) (g_stride conv)
                                   (g_padding conv) (g_dilation conv) true)
                           (cin, h, w)
             = Some (c, out_size_of conv h, out_size_of conv w)).
  { intros cin c h w Hh Hw. cbn [forward_shape fst snd].
    rewrite Z.eqb_refl, <- (fits_floor conv h Hh), <- (fits_floor conv w Hw).
    by destruct conv. }
  assert (Hact_shape : forall x, forward_shape act x = Some x)
    by (intros x; by destruct act).
  induction chs as [|c chs IH]; intros idx cin h w Hh Hw; [done|].
  cbn [fe_fits] in Hh, Hw.
  apply andb_true_iff in Hh as [[Hh1 Hh2]%andb_true_iff Hh3].
  apply andb_true_iff in Hw as [[Hw1 Hw2]%andb_true_iff Hw3].
  cbn [fe_layers fe_size].
  rewrite forward_shape_Sequential_cons, Hconv_shape by done.
  rewrite forward_shape_Sequential_cons, Hact_shape.
  rewrite last_cons_cons.
  destruct (idx mod P =? 0); cbn [app].
  - rewrite forward_shape_Sequential_cons, Hpool_shape by done.
    by apply IH.
  - by apply IH.
Qed.

Lemma classifier_hidden_width act hd :
  is_activation act = true ->
  forall nf out,
    classifier_width (classifier_hidden act nf hd
                        ++ [Linear (List.last hd nf) out]) nf
    = Some out.
Proof.
  intros Hact. induction hd as [|h hd IH]; intros nf out.
  - simpl. by rewrite Z.eqb_refl.
  - cbn [classifier_hidden app classifier_width]. rewrite Z.eqb_refl.
    rewrite last_cons_cons.
    destruct act; try done; cbn [classifier_width]; apply IH.
Qed.



(** ** The residual classifiers *)

Lemma forward_shape_Sequential_app l1 l2 x :
  forward_shape (Sequential (l1 ++ l2)) x
  = match forward_shape (Sequential l1) x with
    | Some y => forward_shape (Sequential l2) y
    | None => None
    end.
Proof.
  revert x. induction l1 as [|m l1 IH]; intros x; [done|].
  rewrite <- app_comm_cons, !forward_shape_Sequential_cons.
  destruct (forward_shape m x) as [y|]; [apply IH | done].
Qed.

Lemma floor_out_size_same k z :
  k = 1 \/ k = 3 ->
  floor_out_size {| g_kernel := k; g_stride := 1; g_padding := Z.quot k 2;
                    g_dilation := 1 |} z = z.
Proof.
  unfold floor_out_size. cbn [g_kernel g_stride g_padding g_dilation].
  intros [-> | ->].
  - change (Z.quot 1 2) with 0. rewrite Z.div_1_r. lia.
  - change (Z.quot 3 2) with 1. rewrite Z.div_1_r. lia.
Qed.

Lemma main_path_spec_shape bn dp chs :
  forall cin h w,
    forward_shape
      (Sequential (main_path_spec bn dp ReLU cin chs
                                  (replicate (length chs) 3)))
      (cin, h, w)
    = Some (List.last chs cin, h, w).
Proof.
  assert (Hconv : forall cin c h w,
             forward_shape (Conv2d cin c 3 1 (Z.quot 3 2) 1 true) (cin, h, w)
             = Some (c, h, w)).
  { intros cin c h w. cbn [forward_shape fst snd].
    rewrite Z.eqb_refl. by rewrite !floor_out_size_same by (by right). }
  assert (Hdrop : forall x, forward_shape (Dropout2d dp) x = Some x)
    by done.
  assert (Hrelu : forall x, forward_shape ReLU x = Some x) by done.
  assert (Hbn : forall c h w,
             forward_shape (BatchNorm2d c) (c, h, w) = Some (c, h, w)).
  { intros c h w. cbn [forward_shape fst]. by rewrite Z.eqb_refl. }
  induction chs as [|c chs IH]; intros cin h w; [done|].
  destruct chs as [|c' chs].
  - cbn [length replicate main_path_spec].
    rewrite forward_shape_Sequential_cons, Hconv. done.
  - change (replicate (length (c :: c' :: chs)) 3)
      with (3 :: replicate (length (c' :: chs)) 3).
    rewrite main_path_spec_step, last_cons_cons.
    rewrite forward_shape_Sequential_cons, Hconv.
    rewrite forward_shape_Sequential_cons, Hdrop.
    destruct bn; cbn [app].
    + rewrite forward_shape_Sequential_cons, Hbn.
      rewrite forward_shape_Sequential_cons, Hrelu.
      apply IH.
    + rewrite forward_shape_Sequential_cons, Hrelu.
      apply IH.
Qed.

Lemma block_spec_shape bn dp cin chs h w :
  forward_shape (block_spec bn dp cin chs) (cin, h, w)
  = Some (List.last chs cin, h, w).
Proof.
  unfold block_spec.
  change (forward_shape (ResidualBlock ?mp ?sp) ?x)
    with (match forward_shape mp x, forward_shape sp x with
          | Some y, Some z => if decide (y = z) then Some y else None
          | _, _ => None
          end).
  rewrite main_path_spec_shape.
  assert (Hs : forward_shape
                 (Sequential (shortcut_layers cin (List.last chs cin)))
                 (cin, h, w)
               = Some (List.last chs cin, h, w)).
  { unfold shortcut_layers.
    destruct (Z.eqb_spec (List.last chs cin) cin) as [E|E].
    - by rewrite E.
    - rewrite forward_shape_Sequential_cons. cbn [forward_shape fst snd].
      rewrite Z.eqb_refl.
      change 0 with (Z.quot 1 2) at 1 2.
      by rewrite !floor_out_size_same by (by left). }
  rewrite Hs. by rewrite decide_True.
Qed.

Lemma pooling_shape a pool poolL c h w :
  pooling_of a pool = Some poolL ->
  pooling_type a = "max" \/ g_dilation pool = 1 ->
  fits pool h = true -> fits pool w = true ->
  forward_shape poolL (c, h, w)
  = Some (c, out_size_of pool h, out_size_of pool w).
Proof.
  intros HpoolL Hdil Hh Hw. unfold pooling_of in HpoolL.
  rewrite <- (fits_floor pool h Hh), <- (fits_floor pool w Hw).
  destruct (pooling_type a =? "max")%string eqn:E1.
  { injection HpoolL as <-. cbn [forward_shape fst snd]. by destruct pool. }
  destruct (pooling_type a =? "avg")%string; [|done].
  injection HpoolL as <-. cbn [forward_shape fst snd].
  destruct Hdil as [Hmax|Hd]; [rewrite Hmax in E1; discriminate|].
  destruct pool; simpl in *. by subst.
Qed.

Lemma resnet_groups_shape bn dp pool poolL P :
  (forall c h w, fits pool h = true -> fits pool w = true ->
                 forward_shape poolL (c, h, w)
                 = Some (c, out_size_of pool h, out_size_of pool w)) ->
  forall g cin chs h w,
    pools_fit pool g h = true -> pools_fit pool g w = true ->
    forward_shape (Sequential (resnet_groups bn dp [poolL] P g cin chs))
                  (cin, h, w)
    = Some (List.last (take (g * P) chs) cin,
            Nat.iter g (out_size_of pool) h,
            Nat.iter g (out_size_of pool) w).
Proof.
  intros Hpool. induction g as [|g IH]; intros cin chs h w Hh Hw; [done|].
  cbn [pools_fit] in Hh, Hw.
  apply andb_true_iff in Hh as [Hh1 Hh2].
  apply andb_true_iff in Hw as [Hw1 Hw2].
  cbn [resnet_groups app].
  rewrite forward_shape_Sequential_cons, block_spec_shape.
  rewrite forward_shape_Sequential_cons, Hpool by done.
  rewrite IH by done.
  rewrite !Nat.iter_succ_r. do 2 f_equal.
  change (S g * P)%nat with (P + g * P)%nat.
  by rewrite take_add_drop, last_app_default.
Qed.

Lemma resnet_tail_shape bn dp P cin chs h w :
  0 < P ->
  forward_shape
    (Sequential (resnet_tail bn dp P cin chs))
    (List.last (take (Z.to_nat (Z.of_nat (length chs) / P) * Z.to_nat P) chs)
               cin, h, w)
  = Some (List.last chs cin, h, w).
Proof.
  intros HP. unfold resnet_tail.
  set (N := Z.of_nat (length chs)).
  assert (HN : 0 <= N / P) by (apply Z.div_pos; lia).
  assert (Hmul : P * (N / P) <= N) by (apply Z.mul_div_le; lia).
  pose proof (Z.div_mod N P ltac:(lia)) as Hdm.
  replace (Z.to_nat (N / P) * Z.to_nat P)%nat
    with (Z.to_nat (P * (N / P))) by lia.
  destruct (Z.eqb_spec (N mod P) 0) as [Hr|Hr].
  - rewrite take_ge by (unfold N in *; lia). done.
  - rewrite forward_shape_Sequential_cons, block_spec_shape.
    cbn [forward_shape fold_left].
    by rewrite <- last_app_default, take_drop.
Qed.

Section ClassifierWidth.
Context `{Torch}.

Lemma _make_classifier_activation self cl s s' :
  activation_type (hp self) = "relu" \/ activation_type (hp self) = "lrelu" ->
  hidden_dims (hp self) <> [] ->
  _make_classifier self s = (Ok cl, s') ->
  exists act,
    guarded_activation_of (activation_type (hp self))
                          (activation_params (hp self)) = Some act /\
    is_activation act = true.
Proof.
  intros Hv Hhd Hrun.
  destruct (guarded_activation_of (activation_type (hp self))
                                  (activation_params (hp self)))
    as [act|] eqn:Hact.
  - pose proof (default_activation_is_activation
                  (activation_type (hp self))
                  (activation_params (hp self))) as Hisact.
    rewrite Hact in Hisact. by exists act.
  - exfalso. unfold _make_classifier in Hrun.
    apply bind_Ok in Hrun as (nf' & s1 & _ & Hrun).
    apply bind_Ok in Hrun as (st & s2 & Hloop & _).
    destruct (hidden_dims (hp self)) as [|h hd] eqn:Ehd; [done|].
    rewrite range_cons in Hloop by (simpl; lia).
    cbn [for_each] in Hloop.
    apply bind_Ok in Hloop as (st1 & s3 & Hbody & _).
    unfold cl_body in Hbody.
    apply bind_Ok in Hbody as (d & s4 & _ & Hbody).
    apply bind_Ok in Hbody as (l & s5 & _ & Hbody).
    apply bind_Ok in Hbody as (layers & s6 & Hga & _).
    apply guarded_activation_Ok in Hga as (act & Hsome & _); [|done].
    congruence.
Qed.

Lemma _make_classifier_width self nf cl s s' :
  activation_type (hp self) = "relu" \/ activation_type (hp self) = "lrelu" ->
  hidden_dims (hp self) <> [] ->
  features_num self = Some nf ->
  _make_classifier self s = (Ok cl, s') ->
  exists ms, cl = Sequential ms /\
             classifier_width ms nf = Some (out_classes (hp self)).
Proof.
  intros Hv Hhd Hnf Hrun.
  destruct (_make_classifier_activation self cl s s' Hv Hhd Hrun)
    as (act & Hact & Hisact).
  eapply _make_classifier_Ok in Hrun as (-> & _); eauto.
  eexists. split; [reflexivity|]. by apply classifier_hidden_width.
Qed.

End ClassifierWidth.



Lemma plain_groups_shape bn dp P :
  forall g cin chs h w,
    forward_shape (Sequential (resnet_groups bn dp [] P g cin chs))
                  (cin, h, w)
    = Some (List.last (take (g * P) chs) cin, h, w).
Proof.
  induction g as [|g IH]; intros cin chs h w; [done|].
  cbn [resnet_groups app].
  rewrite forward_shape_Sequential_cons, block_spec_shape, IH.
  do 2 f_equal.
  change (S g * P)%nat with (P + g * P)%nat.
  by rewrite take_add_drop, last_app_default.
Qed.



(** X17: the constructor of [YourCodeNet] builds the feature extractor
    and the classifier twice, once in [ConvClassifier.__init__] and once
    more itself, and keeps the second copies: the generator state after
    the construction is the state before it advanced by the layers of
    both parts, by the same layers again, and by the final
    [Dropout(0.1)]. *)
Theorem X17_yourcodenet_builds_twice `{Torch} (a : hparams) s self s' :
  0 < pool_every a ->
  new_YourCodeNet a s = (Ok self, s') ->
  exists fe cl,
    feature_extractor self = Some (Sequential fe) /\
    classifier self = Some (Sequential cl) /\
    let once := flat_map leaves fe ++ cl in
    s' = build_all s (once ++ once ++ [Dropout (1 # 10)]).
Proof.
  intros HP Hrun. unfold new_YourCodeNet in Hrun.
  apply bind_Ok in Hrun as (self1 & s1 & Hinit & Hrun).
  apply ConvClassifier_init_Ok in Hinit
    as (_ & Hhd & [Hva _] & self0 & fe0 & s0 & cl0 & Hfe0 & Hcl0 & ->).
  unfold _make_feature_extractor in Hfe0. cbn [cls] in Hfe0.
  pose proof Hfe0 as Htr0.
  apply YourCodeNet_make_feature_extractor_trace in Htr0
    as (_ & _ & layers0 & Hl0 & ->).
  apply YourCodeNet_make_feature_extractor_Ok in Hfe0; [|done].
  cbn [hp] in Hfe0.
  destruct Hfe0 as (C & Hh & W & cN & Hin & Hlast & -> & ->).
  injection Hl0 as <-.
  set (Y := yourcodenet_layers (pool_every a) C (channels a)) in *.
  set (pooled := 0 <? Z.of_nat (length (channels a)) / pool_every a) in *.
  set (nf := cN * (if pooled then out_size_value Hh 2 2 0 1 else Hh)
             * (if pooled then out_size_value W 2 2 0 1 else W)) in *.
  pose proof Hcl0 as Hact.
  apply _make_classifier_activation in Hact as (act & Hact & _); [|done..].
  cbn [hp set_feature_extractor set_features_num set_pools_num] in Hact.
  eapply (_make_classifier_Ok _ act nf) in Hcl0 as (-> & -> & _);
    [|done..].
  cbn [hp set_feature_extractor set_features_num set_pools_num] in *.
  set (CL := classifier_hidden act nf (hidden_dims a)
             ++ [Linear (List.last (hidden_dims a) nf) (out_classes a)])
    in *.
  apply bind_Ok in Hrun as ([self2 fe] & s2 & Hfe & Hrun).
  unfold _make_feature_extractor in Hfe.
  cbn [cls set_classifier set_feature_extractor set_features_num
       set_pools_num] in Hfe.
  pose proof Hfe as Htr.
  apply YourCodeNet_make_feature_extractor_trace in Htr
    as (_ & _ & layers & Hl & ->).
  apply YourCodeNet_make_feature_extractor_Ok in Hfe; [|done].
  cbn [hp set_classifier set_feature_extractor set_features_num
       set_pools_num] in Hfe.
  destruct Hfe as (C' & Hh' & W' & cN' & Hin' & Hlast' & -> & ->).
  injection Hl as <-.
  assert (C' = C /\ Hh' = Hh /\ W' = W) as (-> & -> & ->)
    by (rewrite Hin in Hin'; by injection Hin' as <- <- <-).
  assert (cN' = cN) as -> by congruence.
  fold pooled nf Y in Hrun |- *.
  apply bind_Ok in Hrun as (cl & s3 & Hcl & Hrun).
  cbn [fst snd] in Hcl.
  eapply (_make_classifier_Ok _ act nf) in Hcl as (-> & -> & _);
    [|done..].
  cbn [hp set_classifier set_feature_extractor set_features_num
       set_pools_num] in *.
  fold CL.
  apply bind_Ok in Hrun as (d & s4 & Hd & Hrun).
  apply nn_Ok in Hd as (_ & -> & ->).
  apply ret_Ok in Hrun as [<- <-].
  exists Y, CL. split; [done|]. split; [done|].
  cbv zeta. fold CL. rewrite !build_all_app. reflexivity.
Qed.

Lemma X17_witness :
  exists self fe cl,
    let once := flat_map leaves fe ++ cl in
    new_YourCodeNet (H := logging_torch)
      {| in_size := [3; 8; 8]; out_classes := 10;
         channels := [4; 4];
         pool_every := 2; hidden_dims := [16];
         conv_params := ∅; activation_type := "relu";
         activation_params := ∅;
         pooling_type := "max"; pooling_params := ∅ |} []
    = (Ok self, once ++ once ++ [Dropout (1 # 10)]) /\
    feature_extractor self = Some (Sequential fe) /\
    classifier self = Some (Sequential cl).
Proof.
  destruct (new_YourCodeNet (H := logging_torch)
      {| in_size := [3; 8; 8]; out_classes := 10;
         channels := [4; 4];
         pool_every := 2; hidden_dims := [16];
         conv_params := ∅; activation_type := "relu";
         activation_params := ∅;
         pooling_type := "max"; pooling_params := ∅ |} [])
    as [[self|e] s'] eqn:Hrun; [|vm_compute in Hrun; discriminate].
  apply (X17_yourcodenet_builds_twice (H := logging_torch)) in Hrun as Hx;
    [|simpl; lia].
  destruct Hx as (fe & cl & Hfe & Hcl & Hs).
  exists self, fe, cl. cbv zeta in Hs |- *.
  rewrite Hs, (recording_build_all reference_accepts). done.
Defined.
